(** * StockAnalysis: support / resistance detection

    A shallow embedding of the level clusterer, the level validator, the
    level record builder, the condition filter and the stock aggregator of
    [finance_tools.py] (with the helpers of [mytools.py] they call), and
    the properties of these functions.

    Conventions of the embedding.
    - A pandas [Timestamp] of a daily bar is a day number ([Z]); the
      difference of two of them is a number of days.
    - A price is a rational number ([Q]); [statistics.mean] is the exact
      mean.  Rounding of binary floating point is not modelled.
    - A Python [dict] is an association list in insertion order whose keys
      are pairwise distinct ([dict_wf]); [==] on dicts ignores the order.
    - A Python exception is a value of [exn]; a function that can raise
      returns a [result]. *)

From Stdlib Require Import String Ascii.
From Stdlib Require Import List Sorted ZArith QArith Qabs Bool Lia.
Import ListNotations.

Local Open Scope Z_scope.

(* ================================================================== *)
(** * The embedding *)

(* ================================================================== *)
(** ** Exceptions and results *)

Inductive exn : Type :=
| ValueError
| IndexError
| StatisticsError
| TypeError.

Inductive result (A : Type) : Type :=
| Ok (a : A)
| Raise (e : exn).

Arguments Ok {A} a.
Arguments Raise {A} e.

Definition rbind {A B : Type} (r : result A) (k : A -> result B) : result B :=
  match r with
  | Ok a => k a
  | Raise e => Raise e
  end.

Declare Scope result_scope.
Delimit Scope result_scope with result.
Notation "x <- r ;; k" := (rbind r (fun x => k))
  (at level 61, r at next level, right associativity) : result_scope.

(* ================================================================== *)
(** ** Data model *)

Abbreviation date_type := Z (only parsing).
Abbreviation price_type := Q (only parsing).
Abbreviation num_touches_type := Z (only parsing).

(** [dict[date_type, price_type]], in insertion order. *)
Abbreviation level_dict := (list (date_type * price_type)) (only parsing).

(** One element of an [index_groups_type] list. *)
Abbreviation group := (num_touches_type * level_dict)%type (only parsing).

Definition keys {K V : Type} (d : list (K * V)) : list K := map fst d.
Definition values {K V : Type} (d : list (K * V)) : list V := map snd d.

(** Python [len]. *)
Definition len {A : Type} (l : list A) : Z := Z.of_nat (length l).

Section Dict.
Context {K V : Type} (keqb : K -> K -> bool).

(** [d.get(k)] / [d[k]]. *)
Fixpoint dict_get (d : list (K * V)) (k : K) : option V :=
  match d with
  | [] => None
  | (k', v) :: r => if keqb k' k then Some v else dict_get r k
  end.

(** [d[k] = v]: an existing key keeps its place, a new key goes last. *)
Fixpoint dict_set (d : list (K * V)) (k : K) (v : V) : list (K * V) :=
  match d with
  | [] => [(k, v)]
  | (k', v') :: r =>
      if keqb k' k then (k', v) :: r else (k', v') :: dict_set r k v
  end.
End Dict.

(** The keys of a Python dict are pairwise distinct. *)
Definition dict_wf (d : level_dict) : Prop := NoDup (keys d).
Definition group_wf (g : group) : Prop := dict_wf (snd g).

(** [dict1 == dict2]: same size, and every item of [dict1] is in [dict2]. *)
Definition dict_eqb (d1 d2 : level_dict) : bool :=
  (length d1 =? length d2)%nat &&
  forallb (fun kv => match dict_get Z.eqb d2 (fst kv) with
                     | Some v' => Qeq_bool (snd kv) v'
                     | None => false
                     end) d1.

(** [(index1, value1) == (index2, value2)] on tuples. *)
Definition group_eqb (g1 g2 : group) : bool :=
  (fst g1 =? fst g2) && dict_eqb (snd g1) (snd g2).

(* ================================================================== *)
(** ** Level clusterer *)

(** The loops of [at_least_2_common].  The inner loop over the keys of
    [dict2] either returns [True] from the function ([Some true]) or ends,
    by [break] or at the end of the keys, with the counter it has reached. *)
Fixpoint at_least_2_common_inner (key1 : date_type) (keys2 : list date_type)
  (count : Z) : option bool * Z :=
  match keys2 with
  | [] => (None, count)
  | key2 :: rest =>
      if key1 =? key2 then
        if count + 1 =? 2 then (Some true, count + 1) else (None, count + 1)
      else at_least_2_common_inner key1 rest count
  end.

Fixpoint at_least_2_common_loop (keys1 keys2 : list date_type) (count : Z)
  : bool :=
  match keys1 with
  | [] => false
  | key1 :: rest =>
      match at_least_2_common_inner key1 keys2 count with
      | (Some b, _) => b
      | (None, count') => at_least_2_common_loop rest keys2 count'
      end
  end.

Definition at_least_2_common (dict1 dict2 : level_dict) : bool :=
  at_least_2_common_loop (keys dict1) (keys dict2) 0.

(** [x in l] and [l.remove(x)] on a list of groups. *)
Definition list_contains (x : group) (l : list group) : bool :=
  existsb (fun item => group_eqb item x) l.

Fixpoint list_remove (x : group) (l : list group) : list group :=
  match l with
  | [] => []
  | item :: r => if group_eqb item x then r else item :: list_remove x r
  end.

(** [remove_duplicates]. *)
Definition remove_duplicates (values_list : list group) : list group :=
  fold_left
    (fun unique_values_list v =>
       if list_contains v unique_values_list then unique_values_list
       else unique_values_list ++ [v])
    values_list [].

(** The test of the inner loop of [remove_redundant_groups]. *)
Definition redundant_with (g1 g2 : group) : bool :=
  negb (group_eqb g1 g2) && at_least_2_common (snd g1) (snd g2).

(** The inner [for index2, value2] loop: what it appends to [remove_list]. *)
Definition collect_redundant (g1 : group) (l : list group) : list group :=
  filter (redundant_with g1) l.

(** The [for index, value in remove_list] loop. *)
Definition purge (remove_list l : list group) : list group :=
  fold_left (fun acc x => if list_contains x acc then list_remove x acc else acc)
    remove_list l.

(** The outer loop iterates over the list it shrinks: the iterator is the
    position [i], read afresh from the current list at each turn. *)
Fixpoint rrg_loop (fuel : nat) (i : nat) (remove_list l : list group)
  : list group :=
  match fuel with
  | O => l
  | S fuel' =>
      match nth_error l i with
      | None => l
      | Some g1 =>
          let remove_list' := remove_list ++ collect_redundant g1 l in
          rrg_loop fuel' (S i) remove_list' (purge remove_list' l)
      end
  end.

Definition remove_redundant_groups (index_groups_sorted : list group)
  : list group :=
  rrg_loop (length index_groups_sorted) 0%nat [] index_groups_sorted.

(** [sorted(l, key=...)] is stable: insertion from the right, an element
    passes over those that come strictly before it. *)
Section Sorted.
Context {A : Type} (before : A -> A -> bool).

Fixpoint insert_sorted (x : A) (l : list A) : list A :=
  match l with
  | [] => [x]
  | y :: r => if before y x then y :: insert_sorted x r else x :: y :: r
  end.

Definition py_sorted (l : list A) : list A :=
  fold_right insert_sorted [] l.
End Sorted.

(** [series_range] and [calculate_tolerance]; [max] of an empty column
    raises [ValueError].  On rationals the third test of
    [calculate_tolerance], [spread > 100], is all that is left when it is
    reached, so it is the final [else]. *)
Definition Qlt_bool (x y : Q) : bool := negb (Qle_bool y x).

Definition py_max (items : list Q) : result Q :=
  match items with
  | [] => Raise ValueError
  | x :: r => Ok (fold_left (fun m y => if Qlt_bool m y then y else m) r x)
  end.

Definition py_min (items : list Q) : result Q :=
  match items with
  | [] => Raise ValueError
  | x :: r => Ok (fold_left (fun m y => if Qlt_bool y m then y else m) r x)
  end.

Definition series_range (items : list Q) : result Q :=
  (hi <- py_max items ;; lo <- py_min items ;; Ok (hi - lo)%Q)%result.

Definition calculate_tolerance (column : list Q) : result Z :=
  (spread <- series_range column ;;
   Ok (if Qle_bool spread 50 then 3
       else if Qlt_bool 50 spread && Qle_bool spread 100 then 5
       else 10))%result.

Definition create_tolerance_function (column : list Q)
  : result (price_type -> price_type -> bool) :=
  (tolerance <- calculate_tolerance column ;;
   Ok (fun value1 value2 =>
         Qle_bool (Qabs (value1 - value2)) (inject_Z tolerance)))%result.

(** [create_tolerance_group]: a dict from price to dict. *)
Definition tolerance_groups_type := list (price_type * level_dict).

Definition create_tolerance_group (possible_levels_dict : level_dict)
  (tolerance_function : price_type -> price_type -> bool)
  : tolerance_groups_type :=
  let items := possible_levels_dict in
  let init : tolerance_groups_type :=
    fold_left (fun tg value => dict_set Qeq_bool tg value [])
      (values possible_levels_dict) [] in
  fold_left
    (fun tg kv1 =>
       fold_left
         (fun tg kv2 =>
            if tolerance_function (snd kv1) (snd kv2) then
              match dict_get Qeq_bool tg (snd kv1) with
              | Some inner =>
                  dict_set Qeq_bool tg (snd kv1)
                    (dict_set Z.eqb inner (fst kv2) (snd kv2))
              | None => tg
              end
            else tg)
         items tg)
    items init.

(** [manipulate_groups] (the printing under [test_manipulation] left out). *)
Definition manipulate_groups (tolerance_groups : tolerance_groups_type)
  : list group :=
  let index_groups :=
    map (fun value => (len value, value))
      (filter (fun value => 3 <=? len value) (values tolerance_groups)) in
  let index_groups_unique := remove_duplicates index_groups in
  py_sorted (fun x y : group => fst y <? fst x) index_groups_unique.

Definition process_groups (series : list Q) (possible_levels_values : level_dict)
  : result (list group) :=
  (within_tolerance <- create_tolerance_function series ;;
   let tolerance_groups :=
     create_tolerance_group possible_levels_values within_tolerance in
   let index_groups_sorted := manipulate_groups tolerance_groups in
   Ok (remove_redundant_groups index_groups_sorted))%result.

(* ================================================================== *)
(** ** Notions used to state the properties of the clusterer *)

(** The keys of [keys1] that are keys of [keys2] too. *)
Definition common_keys (keys1 keys2 : list Z) : list Z :=
  filter (fun key1 => existsb (fun key2 => key1 =? key2) keys2) keys1.

(** No entry of [remove_list] equals an element of the list. *)
Definition inert (remove_list l : list (Z * list (Z * Q))) : Prop :=
  forall x y, In x remove_list -> In y l -> group_eqb y x = false.

(** No two elements are redundant with each other. *)
Definition stable (l : list (Z * list (Z * Q))) : Prop :=
  forall g y, In g l -> In y l -> redundant_with g y = false.

(** The elements of [p] are redundant with no element of [l]. *)
Definition settled (p l : list (Z * list (Z * Q))) : Prop :=
  forall g y, In g p -> In y l -> redundant_with g y = false.

(** The groups that are not redundant with [g1]. *)
Definition keep_after (g1 : Z * list (Z * Q)) (l : list (Z * list (Z * Q))) :=
  filter (fun y => negb (redundant_with g1 y)) l.

(** The same loop without the bookkeeping of [remove_list]. *)
Fixpoint sieve_loop (fuel i : nat) (l : list (Z * list (Z * Q)))
  : list (Z * list (Z * Q)) :=
  match fuel with
  | O => l
  | S fuel' =>
      match nth_error l i with
      | None => l
      | Some g1 => sieve_loop fuel' (S i) (keep_after g1 l)
      end
  end.

(** Input lists as [manipulate_groups] builds them. *)
Definition duplicate_free (l : list (Z * list (Z * Q))) : Prop :=
  ForallOrdPairs (fun a b => group_eqb a b = false) l.

Definition sorted_by_touches (l : list (Z * list (Z * Q))) : Prop :=
  StronglySorted (fun a b => fst b <= fst a) l.

Definition gA : Z * list (Z * Q) := (3, [(1, 100#1); (2, 101#1); (3, 99#1)]).
Definition gB : Z * list (Z * Q) := (3, [(2, 101#1); (3, 99#1); (4, 100#1)]).
Definition gC : Z * list (Z * Q) := (3, [(3, 99#1); (4, 100#1); (5, 102#1)]).

(* ================================================================== *)
(** ** Level validator *)

(** A two-column pandas [DataFrame] of dates and prices: the column labels
    and the rows.  The caller's table is a shared object: the validator
    functions run in a state monad over it, and the state survives an
    exception. *)
Record DataFrame : Type := mkDataFrame {
  columns : list string;
  rows : list (Z * Q)
}.

Definition M (A : Type) : Type := DataFrame -> result A * DataFrame.

Definition ret {A : Type} (a : A) : M A := fun table => (Ok a, table).

Definition bind {A B : Type} (m : M A) (k : A -> M B) : M B :=
  fun table =>
    match m table with
    | (Ok a, table') => k a table'
    | (Raise e, table') => (Raise e, table')
    end.

Definition lift {A : Type} (r : result A) : M A := fun table => (r, table).

Declare Scope table_scope.
Delimit Scope table_scope with table.
Notation "x <- m ;; k" := (bind m (fun x => k))
  (at level 61, m at next level, right associativity) : table_scope.

(** [table.columns = names], in place. *)
Definition set_columns (names : list string) : M unit :=
  fun table => (Ok tt, mkDataFrame names (rows table)).

(** [table.price], once the second column is labelled ['price']. *)
Definition get_price : M (list Q) :=
  fun table => (Ok (values (rows table)), table).

(** [table.loc[mask]]: a new frame with the rows the mask selects. *)
Definition loc (mask : Z * Q -> bool) : M DataFrame :=
  fun table =>
    (Ok (mkDataFrame (columns table) (filter mask (rows table))), table).

(** [l[0]] and [l[-1]]. *)
Definition index_first {A : Type} (l : list A) : result A :=
  match l with
  | [] => Raise IndexError
  | x :: _ => Ok x
  end.

Definition index_last {A : Type} (l : list A) : result A :=
  match rev l with
  | [] => Raise IndexError
  | x :: _ => Ok x
  end.

(** [statistics.mean]. *)
Definition mean (data : list Q) : result Q :=
  match data with
  | [] => Raise StatisticsError
  | _ => Ok (fold_left Qplus data 0 / inject_Z (len data))%Q
  end.

(** [sorted(dates, reverse=True)]. *)
Definition sorted_reverse (dates : list Z) : list Z :=
  py_sorted (fun a b => b <? a) dates.

(** [DataFrame.empty]. *)
Definition empty (df : DataFrame) : bool :=
  match rows df with
  | [] => true
  | _ => false
  end.

(** The four functions of the validator (the printing under [testing]
    left out). *)
Definition is_support_valid (level : Z * list (Z * Q)) : M bool :=
  (let dates := sorted_reverse (keys (snd level)) in
   most_recent_date <- lift (index_first dates) ;;
   least_recent_date <- lift (index_last dates) ;;
   avg_price <- lift (mean (values (snd level))) ;;
   _ <- set_columns ["date"; "price"]%string ;;
   price <- get_price ;;
   tolerance <- lift (calculate_tolerance price) ;;
   invalid_data <-
     loc (fun row =>
            Qlt_bool (snd row) (avg_price - inject_Z tolerance)
            && (least_recent_date <=? fst row)
            && (fst row <=? most_recent_date)) ;;
   ret (if empty invalid_data then true else false))%table.

Definition is_support_broken (level : Z * list (Z * Q)) : M (bool * DataFrame) :=
  (let dates := sorted_reverse (keys (snd level)) in
   most_recent_date <- lift (index_first dates) ;;
   avg_price <- lift (mean (values (snd level))) ;;
   _ <- set_columns ["date"; "price"]%string ;;
   price <- get_price ;;
   tolerance <- lift (calculate_tolerance price) ;;
   breach_data <-
     loc (fun row =>
            Qlt_bool (snd row) (avg_price - inject_Z tolerance)
            && (most_recent_date <? fst row)) ;;
   ret (if empty breach_data then false else true, breach_data))%table.

Definition is_resistance_valid (level : Z * list (Z * Q)) : M bool :=
  (let dates := sorted_reverse (keys (snd level)) in
   most_recent_date <- lift (index_first dates) ;;
   least_recent_date <- lift (index_last dates) ;;
   avg_price <- lift (mean (values (snd level))) ;;
   _ <- set_columns ["date"; "price"]%string ;;
   price <- get_price ;;
   tolerance <- lift (calculate_tolerance price) ;;
   invalid_data <-
     loc (fun row =>
            Qlt_bool (avg_price + inject_Z tolerance) (snd row)
            && (least_recent_date <=? fst row)
            && (fst row <=? most_recent_date)) ;;
   ret (if empty invalid_data then true else false))%table.

Definition is_resistance_broken (level : Z * list (Z * Q))
  : M (bool * DataFrame) :=
  (let dates := sorted_reverse (keys (snd level)) in
   most_recent_date <- lift (index_first dates) ;;
   avg_price <- lift (mean (values (snd level))) ;;
   _ <- set_columns ["date"; "price"]%string ;;
   price <- get_price ;;
   tolerance <- lift (calculate_tolerance price) ;;
   breach_data <-
     loc (fun row =>
            Qlt_bool (avg_price + inject_Z tolerance) (snd row)
            && (most_recent_date <? fst row)) ;;
   ret (if empty breach_data then false else true, breach_data))%table.

(** The earliest and the latest of the touch dates. *)
Definition is_earliest (d : Z) (dates : list Z) : Prop :=
  In d dates /\ forall k, In k dates -> d <= k.

Definition is_latest (d : Z) (dates : list Z) : Prop :=
  In d dates /\ forall k, In k dates -> k <= d.

Definition level1 : Z * list (Z * Q) := (3, [(10, 100#1); (0, 102#1); (25, 99#1)]).
Definition table1 : DataFrame :=
  mkDataFrame ["date"; "low"]%string
    [(0, 102#1); (5, 97#1); (10, 100#1); (25, 99#1); (30, 90#1); (31, 120#1)].

Definition date_price : list string := ["date"; "price"]%string.

Definition below (avg_price : Q) (tolerance : Z) (row : Z * Q) : bool :=
  Qlt_bool (snd row) (avg_price - inject_Z tolerance).

Definition above (avg_price : Q) (tolerance : Z) (row : Z * Q) : bool :=
  Qlt_bool (avg_price + inject_Z tolerance) (snd row).

(* ================================================================== *)
(** ** Extremum finder *)

(** [find_supports] on the two-column table of dates and of the chosen
    series: the window of five rows slides down the table. *)
Fixpoint find_supports_loop (table : list (Z * Q)) (possible_supports : list (Z * Q))
  : list (Z * Q) :=
  match table with
  | r1 :: ((r2 :: r3 :: r4 :: r5 :: _) as rest) =>
      let first := snd r1 in
      let second := snd r2 in
      let third := snd r3 in
      let fourth := snd r4 in
      let fifth := snd r5 in
      let date := fst r3 in
      find_supports_loop rest
        (if Qlt_bool second first && Qlt_bool third second
            && Qlt_bool third fourth && Qlt_bool fourth fifth
         then dict_set Z.eqb possible_supports date third
         else possible_supports)
  | _ => possible_supports
  end.

Definition find_supports (table : list (Z * Q)) : list (Z * Q) :=
  find_supports_loop table [].

(** [find_resistances], the mirror. *)
Fixpoint find_resistances_loop (table : list (Z * Q))
  (possible_resistances : list (Z * Q)) : list (Z * Q) :=
  match table with
  | r1 :: ((r2 :: r3 :: r4 :: r5 :: _) as rest) =>
      let first := snd r1 in
      let second := snd r2 in
      let third := snd r3 in
      let fourth := snd r4 in
      let fifth := snd r5 in
      let date := fst r3 in
      find_resistances_loop rest
        (if Qlt_bool first second && Qlt_bool second third
            && Qlt_bool fourth third && Qlt_bool fifth fourth
         then dict_set Z.eqb possible_resistances date third
         else possible_resistances)
  | _ => possible_resistances
  end.

Definition find_resistances (table : list (Z * Q)) : list (Z * Q) :=
  find_resistances_loop table [].

(* ================================================================== *)
(** ** Level record builder *)

(** The objects of class [Support]; [Resistance] inherits the constructor
    and the attributes.  The two display dictionaries keyed by date strings
    ([data_dict], [breach_data_dict]) are left out; [most_recents] has the
    type of its annotation, of which only the price is read. *)
Record Support : Type := mkSupport {
  stock_name : string;
  num_touches : Z;
  data : DataFrame;
  most_recents : Z * Q;
  avg : Q;
  status : Q;
  time_period_int : Z;
  days_since_last_tested : Z;
  num_days_bw_tests : list Z;
  is_breached : bool;
  breach_data : DataFrame
}.

Abbreviation Resistance := Support (only parsing).

(** [df.price.mean()], as the exact mean of the column.  The float that
    pandas returns is this value up to rounding; it can differ in the last
    place from [statistics.mean] of the same prices, so nothing below
    identifies the two. *)
Definition series_mean (column : list Q) : Q :=
  (fold_left Qplus column 0 / inject_Z (len column))%Q.

(** [int(str(delta).split()[0])] for a [datetime.timedelta] of whole days:
    the string of a zero [timedelta] is ['0:00:00'], which [int] refuses. *)
Definition timedelta_days (delta : Z) : result Z :=
  if delta =? 0 then Raise ValueError else Ok delta.

(** The [for i in range(len(dates_list) - 1)] loop. *)
Definition days_between (dates_list : list Z) : list Z :=
  map (fun i => nth (S i) dates_list 0 - nth i dates_list 0)
    (seq 0 (length dates_list - 1)).

(** [Support.__init__]; [today] is [datetime.date.today()]. *)
Definition Support_init (today : Z) (data_tuple : Z * list (Z * Q))
  (is_breached : bool) (breach_data : DataFrame) (most_recents : Z * Q)
  (stock_name : string) : result Support :=
  (let df := py_sorted (fun a b : Z * Q => fst a <? fst b) (snd data_tuple) in
   let avg := series_mean (values df) in
   let most_recent_price := snd most_recents in
   let status := (most_recent_price - avg)%Q in
   most_recent_date <- index_last (keys df) ;;
   least_recent_date <- index_first (keys df) ;;
   let time_period_int := most_recent_date - least_recent_date in
   days_since_last_tested <- timedelta_days (today - most_recent_date) ;;
   let dates_list := keys (snd data_tuple) in
   Ok (mkSupport stock_name (fst data_tuple) (mkDataFrame date_price df)
         most_recents avg status time_period_int days_since_last_tested
         (days_between dates_list) is_breached breach_data))%result.

(** [create_support_objects_list] (the printing under [testing] left out):
    the valid levels of [group], each with its breach data, as [Support]
    objects.  The table is the one shared by the validator calls. *)
Fixpoint create_support_objects_list (today : Z)
  (group : list (Z * list (Z * Q))) (most_recents : Z * Q)
  (stock_name : string) : M (list Support) :=
  match group with
  | [] => ret []
  | support :: rest =>
      (valid <- is_support_valid support ;;
       if valid then
         broken <- is_support_broken support ;;
         support_obj <-
           lift (Support_init today support (fst broken) (snd broken)
                   most_recents stock_name) ;;
         list_of_support_objects <-
           create_support_objects_list today rest most_recents stock_name ;;
         ret (support_obj :: list_of_support_objects)
       else create_support_objects_list today rest most_recents stock_name)%table
  end.

(** A table in descending date order, as [setup_table] returns it with
    [reverse=True]: 13 bars with troughs on days 11, 7 and 3. *)
Definition descending_table : list (Z * Q) :=
  [(13, 110#1); (12, 105#1); (11, 100#1); (10, 105#1); (9, 110#1);
   (8, 105#1); (7, 101#1); (6, 105#1); (5, 110#1); (4, 105#1);
   (3, 99#1); (2, 105#1); (1, 110#1)].

Definition descending_level : Z * list (Z * Q) :=
  (3, [(11, 100#1); (7, 101#1); (3, 99#1)]).

(* ================================================================== *)
(** ** Stock aggregator *)

Module Stock.
Record t : Type := mk {
  stock_name : string;
  supports : list Support;
  resistances : list Support;
  final_support : option Support;
  final_resistance : option Support;
  is_range_bound : bool;
  range_width : option Q
}.
End Stock.

(** [sorted(levels, key=lambda x: x.avg)[-1]] under [if levels:]; a list
    that is [None] or empty gives [None]. *)
Definition final_level (levels : option (list Support)) : option Support :=
  match levels with
  | Some (s :: l) =>
      let sorted_levels :=
        py_sorted (fun x y => Qlt_bool (avg x) (avg y)) (s :: l) in
      hd_error (rev sorted_levels)
  | _ => None
  end.

(** [Stock.__init__]. *)
Definition Stock_init (stock_name : string) (supports : option (list Support))
  (resistances : option (list Support)) : Stock.t :=
  let self_supports := match supports with None => [] | Some l => l end in
  let self_resistances := match resistances with None => [] | Some l => l end in
  let final_support := final_level supports in
  let final_resistance := final_level resistances in
  match final_support, final_resistance with
  | Some fs, Some fr =>
      Stock.mk stock_name self_supports self_resistances final_support
        final_resistance true (Some (avg fr - avg fs)%Q)
  | _, _ =>
      Stock.mk stock_name self_supports self_resistances final_support
        final_resistance false None
  end.

(** [s] has the highest [avg] of [l]; among ties it is the last one. *)
Definition highest_last (s : Support) (l : list Support) : Prop :=
  exists pre post,
    l = pre ++ s :: post /\
    (forall x, In x pre -> (avg x <= avg s)%Q) /\
    (forall x, In x post -> (avg x < avg s)%Q).

Definition support90 : Support :=
  mkSupport "ACME" 3 (mkDataFrame date_price []) (40, 100#1) (90#1) (10#1)
    25 15 [10; 15] false (mkDataFrame date_price []).

Definition resistance110 : Support :=
  mkSupport "ACME" 3 (mkDataFrame date_price []) (40, 100#1) (110#1) (-10#1)
    25 15 [10; 15] false (mkDataFrame date_price []).

(* ================================================================== *)
(** ** Condition filter: preprocessing of the condition strings *)

(** Python [str] methods on ASCII strings.  In every use below the
    substring is a non-empty literal. *)
Definition lower_char (c : ascii) : ascii :=
  let n := nat_of_ascii c in
  if ((65 <=? n) && (n <=? 90))%nat then ascii_of_nat (n + 32) else c.

Fixpoint py_lower (s : string) : string :=
  match s with
  | EmptyString => EmptyString
  | String c rest => String (lower_char c) (py_lower rest)
  end.

(** [sub in s]. *)
Definition py_in (sub s : string) : bool :=
  match index 0 sub s with
  | Some _ => true
  | None => false
  end.

(** [s.find(sub)]. *)
Definition py_find (sub s : string) : Z :=
  match index 0 sub s with
  | Some n => Z.of_nat n
  | None => -1
  end.

(** [s.replace(old, new)]: left to right, occurrences do not overlap;
    [skip] counts the characters of a match still to be passed over. *)
Fixpoint replace_from (old new : string) (skip : nat) (s : string) : string :=
  match s with
  | EmptyString => EmptyString
  | String c rest =>
      match skip with
      | S k => replace_from old new k rest
      | O =>
          if prefix old s
          then append new (replace_from old new (String.length old - 1) rest)
          else String c (replace_from old new 0 rest)
      end
  end.

Definition py_replace (old new s : string) : string := replace_from old new 0 s.

(** [s[a:b]], [s[a:]] and [s[:b]] for indices that are not negative. *)
Definition slice (s : string) (a b : nat) : string := substring a (b - a) s.
Definition slice_from (s : string) (a : nat) : string :=
  substring a (String.length s - a) s.
Definition slice_to (s : string) (b : nat) : string := substring 0 b s.

(** [find_all] of [mytools]; the range stops one short of the last
    position where the substring fits. *)
Definition find_all (substring_ string_ : string) (lasts : bool) : list nat :=
  let length_substring := String.length substring_ in
  let length_string := String.length string_ in
  let hits :=
    filter (fun index =>
              String.eqb (slice string_ index (index + length_substring))
                substring_)
      (seq 0 (length_string - length_substring)) in
  if lasts then map (fun index => (index + length_substring - 1)%nat) hits
  else hits.

Definition nth_or_raise {A : Type} (l : list A) (i : nat) : result A :=
  match nth_error l i with
  | Some x => Ok x
  | None => Raise IndexError
  end.

(** One turn of the loop of [process_num_days_bw_tests]. *)
Definition wrap_occurrence (pattern : string) (condition : string)
  (ocurrence_index : nat) : result string :=
  (let firsts := find_all pattern condition false in
   let lasts := find_all pattern condition true in
   first_index <- nth_or_raise firsts ocurrence_index ;;
   last_index <- nth_or_raise lasts ocurrence_index ;;
   let tail := slice_from condition (last_index + 1) in
   if py_find " " tail =? -1 then
     Ok (append (slice_to condition first_index)
           (append "all(" (append pattern (append tail ")"))))
   else
     let next_space_index := Z.to_nat (py_find " " tail + Z.of_nat last_index + 1) in
     Ok (append (slice_to condition first_index)
           (append "all("
              (append pattern
                 (append (slice condition (last_index + 1) next_space_index)
                    (append ")" (slice_from condition next_space_index)))))))%result.

(** [process_num_days_bw_tests]; it returns [None] when the pattern is not
    in the condition. *)
Definition process_num_days_bw_tests (condition_str level_type
  comparison_operator : string) : result (option string) :=
  let pattern :=
    append level_type
      (append ".num_days_bw_tests " (append comparison_operator " ")) in
  if py_in pattern condition_str then
    let firsts := find_all pattern condition_str false in
    let num_occurrences := length firsts in
    (condition <-
       fold_left
         (fun acc ocurrence_index =>
            (condition <- acc ;;
             wrap_occurrence pattern condition ocurrence_index)%result)
         (seq 0 num_occurrences) (Ok condition_str) ;;
     Ok (Some condition))%result
  else Ok None.

Definition attributes : list string :=
  ["avg"; "num_touches"; "time_period_int"; "days_since_last_tested";
   "num_days_bw_tests"; "status"]%string.

(** The four calls of [process_num_days_bw_tests], each under its test;
    a [None] that came back would fail at the next [in]. *)
Definition wrap_comparison (level_type comparison_operator : string)
  (condition : string) : result string :=
  if py_in (append level_type
              (append ".num_days_bw_tests " (append comparison_operator " ")))
       condition
  then
    (r <- process_num_days_bw_tests condition level_type comparison_operator ;;
     match r with
     | Some condition' => Ok condition'
     | None => Raise TypeError
     end)%result
  else Ok condition.

(** The body of the loop of [process_conditions], for one condition. *)
Definition process_condition (level_type : string) (condition : string)
  : result string :=
  (let condition := py_lower condition in
   let condition :=
     if py_in "nums" condition
     then py_replace "nums" "num_touches" condition else condition in
   let condition :=
     if py_in "duration" condition
     then py_replace "duration" "time_period_int" condition else condition in
   let condition :=
     if py_in "average" condition
     then py_replace "average" "avg" condition else condition in
   let condition :=
     if py_in "num_days_since" condition
     then py_replace "num_days_since" "days_since_last_tested" condition
     else condition in
   let condition :=
     if py_in "days_between" condition
     then py_replace "days_between" "num_days_bw_tests" condition
     else condition in
   let condition :=
     fold_left
       (fun condition attribute =>
          py_replace attribute (append level_type (append "." attribute))
            condition)
       attributes condition in
   let condition :=
     if negb (py_in "==" condition) && negb (py_in ">=" condition)
        && negb (py_in "<=" condition) && negb (py_in "!=" condition)
        && py_in "=" condition
     then py_replace "=" "==" condition else condition in
   let condition :=
     if py_in (append level_type ".num_days_bw_tests.increasing") condition
     then py_replace (append level_type ".num_days_bw_tests.increasing")
            (append "is_increasing(" (append level_type ".num_days_bw_tests)"))
            condition
     else condition in
   let condition :=
     if py_in (append level_type ".num_days_bw_tests.decreasing") condition
     then py_replace (append level_type ".num_days_bw_tests.decreasing")
            (append "is_decreasing(" (append level_type ".num_days_bw_tests)"))
            condition
     else condition in
   condition <- wrap_comparison level_type ">=" condition ;;
   condition <- wrap_comparison level_type "<=" condition ;;
   condition <- wrap_comparison level_type "<" condition ;;
   condition <- wrap_comparison level_type ">" condition ;;
   if py_in (append level_type ".num_days_bw_tests == ") condition
   then Raise ValueError
   else if py_in (append level_type ".num_days_bw_tests != ") condition
   then Raise ValueError
   else if py_in (append level_type ".avg ==") condition then Raise ValueError
   else if py_in (append level_type ".avg !=") condition then Raise ValueError
   else if py_in (append level_type ".avg >=") condition then Raise ValueError
   else if py_in (append level_type ".avg <=") condition then Raise ValueError
   else Ok condition)%result.

(** [process_conditions]: the conditions are processed in order and the
    first error ends the loop. *)
Fixpoint process_conditions (conditions : list string) (level_type : string)
  : result (list string) :=
  match conditions with
  | [] => Ok []
  | condition :: rest =>
      (condition' <- process_condition level_type condition ;;
       conditions_list <- process_conditions rest level_type ;;
       Ok (condition' :: conditions_list))%result
  end.

(* ================================================================== *)
(** ** Condition filter: the filter functions *)

(** [eval(condition)] in the scope of the loop, where the record is bound
    to [support] (to [resistance] in [filter_resistances]): its truth
    value, or the exception it raises.  The evaluator of Python
    expressions is a parameter.  The filter functions return, with their
    result, the log of the evaluations they made, in order. *)
Definition eval_log : Type := list (string * Support).

Section Filter.
Variable py_eval : string -> Support -> result bool.

(** The [while conditions:] loop; [conditions.pop()] takes the last
    condition, so [stack] is the list reversed.  The result is the flag
    [invalid]. *)
Fixpoint check_conditions (stack : list string) (level : Support)
  : result bool * eval_log :=
  match stack with
  | [] => (Ok false, [])
  | condition :: rest =>
      match py_eval condition level with
      | Ok true =>
          let (r, log) := check_conditions rest level in
          (r, (condition, level) :: log)
      | Ok false => (Ok true, [(condition, level)])
      | Raise e => (Raise e, [(condition, level)])
      end
  end.

(** The [for support in supports] loop (the printing under [testing]
    left out). *)
Fixpoint filter_loop (conditions_list : list string)
  (is_breached' ignore_is_breach : bool) (levels : list Support)
  : result (list Support) * eval_log :=
  match levels with
  | [] => (Ok [], [])
  | level :: rest =>
      let invalid :=
        if negb ignore_is_breach then
          if Bool.eqb (is_breached level) is_breached' then false else true
        else false in
      if invalid then
        filter_loop conditions_list is_breached' ignore_is_breach rest
      else
        match check_conditions (rev conditions_list) level with
        | (Raise e, log) => (Raise e, log)
        | (Ok invalid, log) =>
            let (r, log') :=
              filter_loop conditions_list is_breached' ignore_is_breach rest in
            (match r with
             | Ok filtered => Ok (if invalid then filtered else level :: filtered)
             | Raise e => Raise e
             end, log ++ log')
        end
  end.

Definition filter_levels (level_type : string) (levels : list Support)
  (args : list string) (is_breached' ignore_is_breach : bool)
  : result (list Support) * eval_log :=
  match process_conditions args level_type with
  | Raise e => (Raise e, [])
  | Ok conditions_list =>
      filter_loop conditions_list is_breached' ignore_is_breach levels
  end.

(** [filter_supports] and [filter_resistances]; the keyword arguments
    default to [False]. *)
Definition filter_supports (supports : list Support) (args : list string)
  (is_breached' ignore_is_breach : bool) :=
  filter_levels "support" supports args is_breached' ignore_is_breach.

Definition filter_resistances (resistances : list Support)
  (args : list string) (is_breached' ignore_is_breach : bool) :=
  filter_levels "resistance" resistances args is_breached' ignore_is_breach.

(** The record satisfies the condition. *)
Definition satisfies (level : Support) (condition : string) : bool :=
  match py_eval condition level with
  | Ok true => true
  | _ => false
  end.

(** The test of the filter on one record. *)
Definition passes (conditions_list : list string)
  (is_breached' ignore_is_breach : bool) (level : Support) : bool :=
  (ignore_is_breach || Bool.eqb (is_breached level) is_breached')
  && forallb (satisfies level) conditions_list.

End Filter.

(** An evaluator for the two conditions of the example of the
    specification. *)
Definition example_eval (condition : string) (support : Support) : result bool :=
  if String.eqb condition "support.num_touches > 3"
  then Ok (3 <? num_touches support)
  else if String.eqb condition "support.time_period_int < 200"
  then Ok (time_period_int support <? 200)
  else Raise TypeError.

Definition support4 : Support :=
  mkSupport "ACME" 4 (mkDataFrame date_price []) (40, 100#1) (95#1) (5#1)
    30 10 [10; 10; 10] false (mkDataFrame date_price []).

(* ================================================================== *)
(** ** Notions used to state further properties *)

(** The largest and the smallest value of a column. *)
Definition is_maximum (hi : Q) (column : list Q) : Prop :=
  In hi column /\ forall x, In x column -> (x <= hi)%Q.

Definition is_minimum (lo : Q) (column : list Q) : Prop :=
  In lo column /\ forall x, In x column -> (lo <= x)%Q.

(** Every touch of a group of [tolerance_groups] is a candidate within
    tolerance of a candidate price equal to the key of the group. *)
Definition groups_sound (items : list (Z * Q)) (within : Q -> Q -> bool)
  (tolerance_groups : list (Q * list (Z * Q))) : Prop :=
  forall p inner, In (p, inner) tolerance_groups ->
  forall d v, In (d, v) inner ->
    In (d, v) items /\
    exists d1 v1, In (d1, v1) items /\ Qeq_bool p v1 = true /\ within v1 v = true.

(** The group of the price [v1] holds the touch [(d2, v2)]. *)
Definition group_holds (tolerance_groups : list (Q * list (Z * Q)))
  (v1 : Q) (d2 : Z) (v2 : Q) : Prop :=
  exists inner,
    dict_get Qeq_bool tolerance_groups v1 = Some inner /\
    dict_get Z.eqb inner d2 = Some v2.

(** Every candidate price is a key. *)
Definition groups_keyed (items : list (Z * Q))
  (tolerance_groups : list (Q * list (Z * Q))) : Prop :=
  forall d v, In (d, v) items ->
    exists inner, dict_get Qeq_bool tolerance_groups v = Some inner.

(** The row [(d, p)] is the centre of five consecutive rows of [table]
    whose prices pass the test [shape]. *)
Definition centre_of (shape : Q -> Q -> Q -> Q -> Q -> Prop)
  (table : list (Z * Q)) (d : Z) (p : Q) : Prop :=
  exists pre r1 r2 r4 r5 post,
    table = pre ++ r1 :: r2 :: (d, p) :: r4 :: r5 :: post /\
    shape (snd r1) (snd r2) p (snd r4) (snd r5).

(** A strict dip and rise, a strict rise and dip. *)
Definition trough_shape (first second third fourth fifth : Q) : Prop :=
  (second < first)%Q /\ (third < second)%Q /\
  (third < fourth)%Q /\ (fourth < fifth)%Q.

Definition peak_shape (first second third fourth fifth : Q) : Prop :=
  (first < second)%Q /\ (second < third)%Q /\
  (fourth < third)%Q /\ (fifth < fourth)%Q.

(** The loop shared by [find_supports] and [find_resistances], with the
    test on the window as a parameter. *)
Fixpoint window_loop (test : Q -> Q -> Q -> Q -> Q -> bool)
  (table : list (Z * Q)) (possible : list (Z * Q)) : list (Z * Q) :=
  match table with
  | r1 :: ((r2 :: r3 :: r4 :: r5 :: _) as rest) =>
      window_loop test rest
        (if test (snd r1) (snd r2) (snd r3) (snd r4) (snd r5)
         then dict_set Z.eqb possible (fst r3) (snd r3)
         else possible)
  | _ => possible
  end.

(* ================================================================== *)
(** ** Monotonicity checks of [mytools] *)

(** [is_increasing] and [is_decreasing], which the processed conditions
    call on [num_days_bw_tests]: [input_list[0]] raises on an empty
    sequence, the loop returns at the first pair out of order. *)
Fixpoint is_increasing_loop (current_item : Z) (rest : list Z) : bool :=
  match rest with
  | [] => true
  | next_item :: rest' =>
      if current_item >? next_item then false
      else is_increasing_loop next_item rest'
  end.

Definition is_increasing (input_list : list Z) : result bool :=
  (current_item <- index_first input_list ;;
   Ok (is_increasing_loop current_item (tl input_list)))%result.

Fixpoint is_decreasing_loop (current_item : Z) (rest : list Z) : bool :=
  match rest with
  | [] => true
  | next_item :: rest' =>
      if current_item <? next_item then false
      else is_decreasing_loop next_item rest'
  end.

Definition is_decreasing (input_list : list Z) : result bool :=
  (current_item <- index_first input_list ;;
   Ok (is_decreasing_loop current_item (tl input_list)))%result.

(* ================================================================== *)
(** ** Notions on the evaluations of a filter *)

(** The evaluation returned a truth value. *)
Definition evaluated (py_eval : string -> Support -> result bool)
  (entry : string * Support) : Prop :=
  exists b, py_eval (fst entry) (snd entry) = Ok b.

(** What a run of a filter over [levels] with the processed conditions
    [conditions_list] did: every evaluation was of one of the conditions on
    one of the records, none on a record the breach test excludes; a run
    that returned made no evaluation that raised, and returned the records
    that pass; a run that raised stopped at the evaluation that raised. *)
Definition filter_run (py_eval : string -> Support -> result bool)
  (conditions_list : list string) (is_breached' ignore_is_breach : bool)
  (levels : list Support) (outcome : result (list Support) * eval_log)
  : Prop :=
  Forall (fun entry =>
            In (fst entry) conditions_list /\ In (snd entry) levels /\
            (ignore_is_breach = false ->
             is_breached (snd entry) = is_breached'))
    (snd outcome) /\
  match fst outcome with
  | Ok filtered =>
      filtered =
        filter (passes py_eval conditions_list is_breached' ignore_is_breach)
          levels /\
      Forall (evaluated py_eval) (snd outcome)
  | Raise e =>
      exists log condition level,
        snd outcome = log ++ [(condition, level)] /\
        py_eval condition level = Raise e /\
        Forall (evaluated py_eval) log
  end.

(* ================================================================== *)
(** ** Notions on the runs of the validator *)

(** The three ways a function of the validator ends on [level] and
    [table], with the table it leaves: without a touch it raises before
    the table is relabelled; on a table without rows it raises after; it
    returns otherwise. *)
Definition validator_outcome {A : Type} (level : Z * list (Z * Q))
  (table : DataFrame) (run : result A * DataFrame) : Prop :=
  match snd level, rows table with
  | [], _ => run = (Raise IndexError, table)
  | _ :: _, [] => run = (Raise ValueError, mkDataFrame date_price [])
  | _ :: _, _ :: _ =>
      exists a, run = (Ok a, mkDataFrame date_price (rows table))
  end.

(* ================================================================== *)
(** ** Level record builder: resistances *)

(** [create_resistance_objects_list] (the printing under [testing] left
    out); [Resistance] inherits [__init__] from [Support]. *)
Fixpoint create_resistance_objects_list (today : Z)
  (group : list (Z * list (Z * Q))) (most_recents : Z * Q)
  (stock_name : string) : M (list Resistance) :=
  match group with
  | [] => ret []
  | resistance :: rest =>
      (valid <- is_resistance_valid resistance ;;
       if valid then
         broken <- is_resistance_broken resistance ;;
         resistance_obj <-
           lift (Support_init today resistance (fst broken) (snd broken)
                   most_recents stock_name) ;;
         list_of_resistance_objects <-
           create_resistance_objects_list today rest most_recents stock_name ;;
         ret (resistance_obj :: list_of_resistance_objects)
       else
         create_resistance_objects_list today rest most_recents stock_name)%table
  end.

(** The loop shared by [create_support_objects_list] and
    [create_resistance_objects_list], with the two functions of the
    validator as parameters. *)
Fixpoint objects_list (is_valid : Z * list (Z * Q) -> M bool)
  (is_broken : Z * list (Z * Q) -> M (bool * DataFrame)) (today : Z)
  (group : list (Z * list (Z * Q))) (most_recents : Z * Q)
  (stock_name : string) : M (list Support) :=
  match group with
  | [] => ret []
  | level :: rest =>
      (valid <- is_valid level ;;
       if valid then
         broken <- is_broken level ;;
         level_obj <-
           lift (Support_init today level (fst broken) (snd broken)
                   most_recents stock_name) ;;
         list_of_objects <-
           objects_list is_valid is_broken today rest most_recents stock_name ;;
         ret (level_obj :: list_of_objects)
       else
         objects_list is_valid is_broken today rest most_recents stock_name)%table
  end.

(** The record [s] is the one built for [level] from the verdicts of the
    validator on [table]. *)
Definition built_from (is_broken : Z * list (Z * Q) -> M (bool * DataFrame))
  (today : Z) (most_recents : Z * Q) (stock_name : string)
  (table : DataFrame) (level : Z * list (Z * Q)) (s : Support) : Prop :=
  fst (is_broken level table) = Ok (is_breached s, breach_data s) /\
  is_breached s = negb (empty (breach_data s)) /\
  Support_init today level (is_breached s) (breach_data s) most_recents
    stock_name = Ok s.

(** The verdict of a validity check as a truth value. *)
Definition found_valid (is_valid : Z * list (Z * Q) -> M bool)
  (table : DataFrame) (level : Z * list (Z * Q)) : bool :=
  match fst (is_valid level table) with
  | Ok true => true
  | _ => false
  end.

(** What holds of a record at the end of the pipeline from a table to
    records: at least three touches, as many as rows of data, each the
    centre of five rows of the table of the given shape, the latest
    before today. *)
Definition level_of_table (shape : Q -> Q -> Q -> Q -> Q -> Prop)
  (table : list (Z * Q)) (s : Support) : Prop :=
  3 <= num_touches s /\
  num_touches s = len (rows (data s)) /\
  (forall d p, In (d, p) (rows (data s)) -> centre_of shape table d p) /\
  0 <= time_period_int s /\
  0 < days_since_last_tested s.

(* ================================================================== *)
(** ** [dataframe_to_dict] of [mytools] *)

(** The rows are read in order; a later row replaces the value under its
    date. *)
Definition dataframe_to_dict (table : DataFrame) : list (Z * Q) :=
  fold_left
    (fun values_dict row => dict_set Z.eqb values_dict (fst row) (snd row))
    (rows table) [].

(* ================================================================== *)
(** ** Sub-lists *)

(** [l1] is [l2] with some elements left out, the others in their order. *)
Inductive subsequence {A : Type} : list A -> list A -> Prop :=
| subsequence_nil : subsequence [] []
| subsequence_skip x l1 l2 : subsequence l1 l2 -> subsequence l1 (x :: l2)
| subsequence_keep x l1 l2 :
    subsequence l1 l2 -> subsequence (x :: l1) (x :: l2).

(* ================================================================== *)
(** * Properties *)

(* ================================================================== *)
(** ** Dictionaries: lookup and equality *)

Lemma dict_get_some_in (d : level_dict) k v :
  dict_get Z.eqb d k = Some v -> In (k, v) d.
Proof.
  induction d as [|[k' v'] d IH]; simpl; [discriminate|].
  destruct (Z.eqb_spec k' k) as [->|Hne]; intros H.
  - injection H as ->. now left.
  - right. auto.
Qed.

Lemma dict_get_none_notin (d : level_dict) k :
  dict_get Z.eqb d k = None -> ~ In k (keys d).
Proof.
  induction d as [|[k' v'] d IH]; simpl; [tauto|].
  destruct (Z.eqb_spec k' k) as [->|Hne]; [discriminate|].
  intros H [Heq|Hin]; [contradiction | now apply IH].
Qed.

Lemma dict_get_in (d : level_dict) k v :
  dict_wf d -> In (k, v) d -> dict_get Z.eqb d k = Some v.
Proof.
  unfold dict_wf, keys.
  induction d as [|[k' v'] d IH]; simpl; [tauto|].
  intros Hnd [Heq|Hin].
  - injection Heq as -> ->. now rewrite Z.eqb_refl.
  - inversion Hnd as [|? ? Hnotin Hnd']; subst.
    destruct (Z.eqb_spec k' k) as [->|Hne]; [|auto].
    exfalso. apply Hnotin. now apply (in_map fst) in Hin.
Qed.

Lemma in_keys_get (d : level_dict) k :
  In k (keys d) -> exists v, dict_get Z.eqb d k = Some v.
Proof.
  intros Hin. destruct (dict_get Z.eqb d k) as [v|] eqn:E; [eauto|].
  now apply dict_get_none_notin in E.
Qed.

Lemma dict_eqb_items d1 d2 :
  dict_eqb d1 d2 = true ->
  length d1 = length d2 /\
  forall k v, In (k, v) d1 ->
    exists v', dict_get Z.eqb d2 k = Some v' /\ (v == v')%Q.
Proof.
  unfold dict_eqb. rewrite andb_true_iff, Nat.eqb_eq, forallb_forall.
  intros [Hlen Hall]. split; [exact Hlen|].
  intros k v Hin. specialize (Hall _ Hin). cbn [fst snd] in Hall.
  destruct (dict_get Z.eqb d2 k) as [v'|]; [|discriminate].
  exists v'. split; [reflexivity | now apply Qeq_bool_iff].
Qed.

Lemma dict_eqb_intro d1 d2 :
  length d1 = length d2 ->
  (forall k v, In (k, v) d1 ->
     exists v', dict_get Z.eqb d2 k = Some v' /\ (v == v')%Q) ->
  dict_eqb d1 d2 = true.
Proof.
  intros Hlen Hall. unfold dict_eqb.
  rewrite andb_true_iff, Nat.eqb_eq, forallb_forall. split; [exact Hlen|].
  intros [k v] Hin. cbn [fst snd]. destruct (Hall _ _ Hin) as (v' & -> & Hv).
  now apply Qeq_bool_iff.
Qed.

Lemma dict_eqb_keys_incl d1 d2 :
  dict_eqb d1 d2 = true -> incl (keys d1) (keys d2).
Proof.
  intros H k Hin. apply dict_eqb_items in H as [_ Hall].
  unfold keys in Hin. apply in_map_iff in Hin as ([k' v] & Hk & Hin).
  simpl in Hk. subst k'. destruct (Hall _ _ Hin) as (v' & Hget & _).
  apply dict_get_some_in in Hget. now apply (in_map fst) in Hget.
Qed.

Lemma dict_eqb_keys_incl_rev d1 d2 :
  dict_wf d1 -> dict_eqb d1 d2 = true -> incl (keys d2) (keys d1).
Proof.
  intros Hwf H. apply NoDup_length_incl.
  - exact Hwf.
  - apply dict_eqb_items in H as [Hlen _]. unfold keys.
    rewrite !length_map. lia.
  - now apply dict_eqb_keys_incl.
Qed.

Lemma dict_eqb_refl d : dict_wf d -> dict_eqb d d = true.
Proof.
  intros Hwf. apply dict_eqb_intro; [reflexivity|].
  intros k v Hin. exists v. split; [now apply dict_get_in | reflexivity].
Qed.

Lemma dict_eqb_sym d1 d2 :
  dict_wf d1 -> dict_wf d2 -> dict_eqb d1 d2 = true -> dict_eqb d2 d1 = true.
Proof.
  intros Hwf1 Hwf2 H.
  pose proof (dict_eqb_keys_incl_rev _ _ Hwf1 H) as Hincl.
  apply dict_eqb_items in H as [Hlen Hall].
  apply dict_eqb_intro; [now symmetry|].
  intros k v' Hin2.
  assert (Hk : In k (keys d1)) by (apply Hincl; now apply (in_map fst) in Hin2).
  destruct (in_keys_get _ _ Hk) as [v Hget1]. exists v. split; [exact Hget1|].
  apply dict_get_some_in in Hget1.
  destruct (Hall _ _ Hget1) as (v'' & Hget2 & Hv).
  rewrite (dict_get_in _ _ _ Hwf2 Hin2) in Hget2. injection Hget2 as <-.
  now symmetry.
Qed.

Lemma dict_eqb_trans d1 d2 d3 :
  dict_eqb d1 d2 = true -> dict_eqb d2 d3 = true -> dict_eqb d1 d3 = true.
Proof.
  intros H12 H23.
  apply dict_eqb_items in H12 as [Hlen12 Hall12].
  apply dict_eqb_items in H23 as [Hlen23 Hall23].
  apply dict_eqb_intro; [congruence|].
  intros k v Hin. destruct (Hall12 _ _ Hin) as (v' & Hget2 & Hv).
  apply dict_get_some_in in Hget2.
  destruct (Hall23 _ _ Hget2) as (v'' & Hget3 & Hv').
  exists v''. split; [exact Hget3 | now rewrite Hv].
Qed.

Lemma group_eqb_refl g : group_wf g -> group_eqb g g = true.
Proof.
  intros Hwf. unfold group_eqb. now rewrite Z.eqb_refl, dict_eqb_refl.
Qed.

Lemma group_eqb_sym g1 g2 :
  group_wf g1 -> group_wf g2 -> group_eqb g1 g2 = true -> group_eqb g2 g1 = true.
Proof.
  unfold group_eqb. intros Hwf1 Hwf2.
  rewrite !andb_true_iff, !Z.eqb_eq. intros [Hn Hd].
  split; [now symmetry | now apply dict_eqb_sym].
Qed.

Lemma group_eqb_trans g1 g2 g3 :
  group_eqb g1 g2 = true -> group_eqb g2 g3 = true -> group_eqb g1 g3 = true.
Proof.
  unfold group_eqb. rewrite !andb_true_iff, !Z.eqb_eq.
  intros [Hn Hd] [Hn' Hd']. split; [congruence | eapply dict_eqb_trans; eauto].
Qed.

Lemma group_eqb_sym_eq g1 g2 :
  group_wf g1 -> group_wf g2 -> group_eqb g1 g2 = group_eqb g2 g1.
Proof.
  intros Hwf1 Hwf2.
  destruct (group_eqb g1 g2) eqn:E12, (group_eqb g2 g1) eqn:E21; trivial.
  - apply group_eqb_sym in E12; congruence.
  - apply group_eqb_sym in E21; congruence.
Qed.

(* ================================================================== *)
(** ** Shared touch dates *)

Lemma existsb_key_in k (l : list Z) :
  existsb (fun key2 => k =? key2) l = true <-> In k l.
Proof.
  rewrite existsb_exists. split.
  - intros (x & Hin & Heq). apply Z.eqb_eq in Heq. now subst.
  - intros Hin. exists k. split; [exact Hin | apply Z.eqb_refl].
Qed.

Lemma at_least_2_common_inner_spec key1 keys2 count :
  at_least_2_common_inner key1 keys2 count =
  if existsb (fun key2 => key1 =? key2) keys2 then
    if count + 1 =? 2 then (Some true, count + 1) else (None, count + 1)
  else (None, count).
Proof.
  induction keys2 as [|key2 rest IH]; simpl; [reflexivity|].
  destruct (key1 =? key2); simpl; [reflexivity | exact IH].
Qed.

Lemma at_least_2_common_loop_count keys1 keys2 count :
  count < 2 ->
  at_least_2_common_loop keys1 keys2 count =
  (2 <=? count + len (common_keys keys1 keys2)).
Proof.
  revert count. unfold len.
  induction keys1 as [|key1 rest IH]; intros count Hc; simpl.
  - symmetry. apply Z.leb_gt. lia.
  - rewrite at_least_2_common_inner_spec.
    destruct (existsb (fun key2 => key1 =? key2) keys2); simpl.
    + destruct (Z.eqb_spec (count + 1) 2) as [E|E].
      * symmetry. apply Z.leb_le. lia.
      * rewrite IH by lia. f_equal. lia.
    + now apply IH.
Qed.

(** [at_least_2_common] holds exactly when two keys or more are shared. *)
Lemma at_least_2_common_spec dict1 dict2 :
  at_least_2_common dict1 dict2 = true <->
  (2 <= length (common_keys (keys dict1) (keys dict2)))%nat.
Proof.
  unfold at_least_2_common. rewrite at_least_2_common_loop_count by lia.
  unfold len. rewrite Z.leb_le. lia.
Qed.

Lemma common_keys_incl_length keys1 keys2 :
  NoDup keys1 ->
  (length (common_keys keys1 keys2) <= length (common_keys keys2 keys1))%nat.
Proof.
  intros Hnd. apply NoDup_incl_length.
  - now apply NoDup_filter.
  - intros k Hin. unfold common_keys in *.
    apply filter_In in Hin as [Hin1 Hin2]. apply existsb_key_in in Hin2.
    apply filter_In. split; [exact Hin2 | now apply existsb_key_in].
Qed.

Lemma at_least_2_common_sym dict1 dict2 :
  dict_wf dict1 -> dict_wf dict2 ->
  at_least_2_common dict1 dict2 = at_least_2_common dict2 dict1.
Proof.
  intros Hwf1 Hwf2.
  pose proof (common_keys_incl_length _ (keys dict2) Hwf1) as H12.
  pose proof (common_keys_incl_length _ (keys dict1) Hwf2) as H21.
  destruct (at_least_2_common dict1 dict2) eqn:E1,
           (at_least_2_common dict2 dict1) eqn:E2; trivial.
  - apply at_least_2_common_spec in E1.
    assert (E : at_least_2_common dict2 dict1 = true)
      by (apply at_least_2_common_spec; lia).
    congruence.
  - apply at_least_2_common_spec in E2.
    assert (E : at_least_2_common dict1 dict2 = true)
      by (apply at_least_2_common_spec; lia).
    congruence.
Qed.

Lemma at_least_2_common_same_keys dict1 dict2 dict2' :
  (forall k, In k (keys dict2) <-> In k (keys dict2')) ->
  at_least_2_common dict1 dict2 = at_least_2_common dict1 dict2'.
Proof.
  intros Hk. unfold at_least_2_common.
  rewrite !at_least_2_common_loop_count by lia. do 3 f_equal.
  unfold common_keys. apply filter_ext. intros k.
  destruct (existsb (fun key2 => k =? key2) (keys dict2)) eqn:E1,
           (existsb (fun key2 => k =? key2) (keys dict2')) eqn:E2; trivial.
  - apply existsb_key_in, Hk, existsb_key_in in E1. congruence.
  - apply existsb_key_in, Hk, existsb_key_in in E2. congruence.
Qed.

Lemma redundant_with_refl g : group_wf g -> redundant_with g g = false.
Proof.
  intros Hwf. unfold redundant_with. now rewrite group_eqb_refl.
Qed.

Lemma redundant_with_sym g1 g2 :
  group_wf g1 -> group_wf g2 -> redundant_with g1 g2 = redundant_with g2 g1.
Proof.
  intros Hwf1 Hwf2. unfold redundant_with.
  now rewrite group_eqb_sym_eq, at_least_2_common_sym.
Qed.

(** Equal groups are redundant with the same groups. *)
Lemma redundant_with_eqb g a x :
  group_wf g -> group_wf a -> group_wf x ->
  group_eqb a x = true -> redundant_with g a = redundant_with g x.
Proof.
  intros Hg Ha Hx Hax. unfold redundant_with. f_equal.
  - f_equal. destruct (group_eqb g a) eqn:E1, (group_eqb g x) eqn:E2; trivial.
    + rewrite (group_eqb_trans _ _ _ E1 Hax) in E2. discriminate.
    + apply group_eqb_sym in Hax; trivial.
      rewrite (group_eqb_trans _ _ _ E2 Hax) in E1. discriminate.
  - apply at_least_2_common_same_keys. intros k.
    unfold group_eqb in Hax. apply andb_true_iff in Hax as [_ Hd]. split.
    + apply dict_eqb_keys_incl; exact Hd.
    + apply dict_eqb_keys_incl_rev; [exact Ha | exact Hd].
Qed.

(* ================================================================== *)
(** ** The removal pass *)

Lemma list_contains_false x l :
  (forall y, In y l -> group_eqb y x = false) -> list_contains x l = false.
Proof.
  intros H. unfold list_contains.
  destruct (existsb (fun item => group_eqb item x) l) eqn:E; trivial.
  apply existsb_exists in E as (y & Hin & Hy). rewrite (H _ Hin) in Hy.
  discriminate.
Qed.

Lemma list_remove_incl x l y : In y (list_remove x l) -> In y l.
Proof.
  induction l as [|a l IH]; simpl; [tauto|].
  destruct (group_eqb a x); simpl; tauto.
Qed.

Lemma list_remove_length x l : (length (list_remove x l) <= length l)%nat.
Proof.
  induction l as [|a l IH]; simpl; [lia|].
  destruct (group_eqb a x); simpl; lia.
Qed.

Lemma purge_incl remove_list l y : In y (purge remove_list l) -> In y l.
Proof.
  unfold purge. revert l.
  induction remove_list as [|x rl IH]; intros l; simpl; [tauto|].
  intros H. apply IH in H. destruct (list_contains x l); [|exact H].
  now apply list_remove_incl in H.
Qed.

Lemma purge_length remove_list l :
  (length (purge remove_list l) <= length l)%nat.
Proof.
  unfold purge. revert l.
  induction remove_list as [|x rl IH]; intros l; simpl; [lia|].
  etransitivity; [apply IH|].
  destruct (list_contains x l); [apply list_remove_length | lia].
Qed.

Lemma purge_app rl1 rl2 l : purge (rl1 ++ rl2) l = purge rl2 (purge rl1 l).
Proof. unfold purge. apply fold_left_app. Qed.

(** Nothing is removed when no element of the list equals an entry. *)
Lemma purge_inert remove_list l :
  (forall x y, In x remove_list -> In y l -> group_eqb y x = false) ->
  purge remove_list l = l.
Proof.
  unfold purge. induction remove_list as [|x rl IH]; intros H; simpl; trivial.
  rewrite list_contains_false by (intros y Hy; apply H; simpl; auto).
  apply IH. intros x' y Hx' Hy. apply H; simpl; auto.
Qed.

Lemma purge_cons_keep remove_list a l :
  (forall x, In x remove_list -> group_eqb a x = false) ->
  purge remove_list (a :: l) = a :: purge remove_list l.
Proof.
  unfold purge. revert l.
  induction remove_list as [|x rl IH]; intros l H; simpl; trivial.
  assert (Ha : group_eqb a x = false) by (apply H; simpl; auto).
  unfold list_contains at 1. simpl. rewrite Ha. simpl.
  fold (list_contains x l).
  destruct (list_contains x l); apply IH; intros x' Hx'; apply H; simpl; auto.
Qed.

(** Removing the entries selected by a test that does not tell equal
    groups apart leaves the groups that fail the test. *)
Lemma purge_filter (P : Z * list (Z * Q) -> bool) l :
  Forall group_wf l ->
  (forall a x, In a l -> In x l -> group_eqb a x = true -> P a = P x) ->
  purge (filter P l) l = filter (fun y => negb (P y)) l.
Proof.
  induction l as [|a l IH]; intros Hwf HP; [reflexivity|].
  inversion Hwf as [|? ? Hwfa Hwfl]; subst.
  assert (IH' : purge (filter P l) l = filter (fun y => negb (P y)) l).
  { apply IH; [exact Hwfl|]. intros; apply HP; simpl; auto. }
  simpl. destruct (P a) eqn:EP; simpl.
  - unfold purge. simpl. unfold list_contains at 1. simpl.
    rewrite (group_eqb_refl a Hwfa). simpl. exact IH'.
  - rewrite purge_cons_keep; [now rewrite IH'|].
    intros x Hx. apply filter_In in Hx as [Hxl HPx].
    destruct (group_eqb a x) eqn:E; trivial.
    rewrite (HP a x) in EP; simpl; auto. congruence.
Qed.

(* ================================================================== *)
(** ** The loop of [remove_redundant_groups] *)

(** One turn of the outer loop keeps the groups not redundant with [g1]. *)
Lemma rrg_turn remove_list g1 l :
  Forall group_wf l -> In g1 l -> inert remove_list l ->
  purge (remove_list ++ collect_redundant g1 l) l = keep_after g1 l.
Proof.
  intros Hwf Hin Hinert. rewrite Forall_forall in Hwf.
  rewrite purge_app, (purge_inert remove_list l Hinert).
  apply purge_filter; [now apply Forall_forall|].
  intros a x Ha Hx. apply redundant_with_eqb; auto.
Qed.

Lemma rrg_turn_inert remove_list g1 l :
  Forall group_wf l -> In g1 l -> inert remove_list l ->
  inert (remove_list ++ collect_redundant g1 l) (keep_after g1 l).
Proof.
  intros Hwf Hin Hinert x y Hx Hy. rewrite Forall_forall in Hwf.
  apply filter_In in Hy as [Hyl Hy]. apply negb_true_iff in Hy.
  apply in_app_or in Hx as [Hx|Hx]; [now apply Hinert|].
  apply filter_In in Hx as [Hxl Hx].
  destruct (group_eqb y x) eqn:E; trivial.
  rewrite (redundant_with_eqb g1 y x) in Hy; auto. congruence.
Qed.

Lemma keep_after_wf g1 l : Forall group_wf l -> Forall group_wf (keep_after g1 l).
Proof.
  rewrite !Forall_forall. intros H y Hy. apply H.
  now apply filter_In in Hy as [Hy _].
Qed.

Lemma rrg_loop_sieve fuel : forall i remove_list l,
  Forall group_wf l -> inert remove_list l ->
  rrg_loop fuel i remove_list l = sieve_loop fuel i l.
Proof.
  induction fuel as [|fuel IH]; intros i rl l Hwf Hinert; simpl; trivial.
  destruct (nth_error l i) as [g1|] eqn:E; trivial.
  apply nth_error_In in E.
  rewrite (rrg_turn rl g1 l Hwf E Hinert).
  apply IH; [now apply keep_after_wf | now apply rrg_turn_inert].
Qed.

Lemma filter_all_true {A : Type} (f : A -> bool) l :
  (forall x, In x l -> f x = true) -> filter f l = l.
Proof.
  induction l as [|a l IH]; intros H; simpl; trivial.
  rewrite (H a) by (simpl; auto). f_equal. apply IH. intros; apply H; simpl; auto.
Qed.

Lemma filter_all_false {A : Type} (f : A -> bool) l :
  (forall x, In x l -> f x = false) -> filter f l = [].
Proof.
  induction l as [|a l IH]; intros H; simpl; trivial.
  rewrite (H a) by (simpl; auto). apply IH. intros; apply H; simpl; auto.
Qed.

(** With the processed prefix [p] settled, a turn at its end leaves the
    prefix and the current group in place. *)
Lemma keep_after_split p g1 s :
  Forall group_wf (p ++ g1 :: s) -> settled p (p ++ g1 :: s) ->
  keep_after g1 (p ++ g1 :: s) = (p ++ [g1]) ++ keep_after g1 s.
Proof.
  intros Hwf Hset. rewrite Forall_forall in Hwf. unfold keep_after.
  assert (Hg1 : group_wf g1) by (apply Hwf, in_elt).
  rewrite filter_app. simpl. rewrite (redundant_with_refl g1 Hg1). simpl.
  rewrite filter_all_true; [now rewrite <- app_assoc|].
  intros x Hx. apply negb_true_iff.
  rewrite redundant_with_sym; [|exact Hg1|apply Hwf, in_or_app; auto].
  apply Hset; [exact Hx | apply in_elt].
Qed.

Lemma sieve_loop_spec fuel : forall p s,
  Forall group_wf (p ++ s) -> settled p (p ++ s) -> (length s <= fuel)%nat ->
  exists t,
    sieve_loop fuel (length p) (p ++ s) = p ++ t /\
    stable (p ++ t) /\
    (forall y, In y t -> In y s) /\
    (forall y, In y s -> ~ In y t ->
       exists g, In g t /\ redundant_with g y = true) /\
    hd_error t = hd_error s.
Proof.
  induction fuel as [|fuel IH]; intros p s Hwf Hset Hlen.
  - destruct s; [|simpl in Hlen; lia]. exists []. rewrite app_nil_r in *.
    split; [reflexivity|]. split; [exact Hset|]. repeat split; simpl; tauto.
  - simpl. destruct s as [|g1 s].
    + rewrite app_nil_r in *.
      replace (nth_error p (length p)) with (@None (Z * list (Z * Q)))
        by (symmetry; apply nth_error_None; lia).
      exists []. rewrite app_nil_r.
      split; [reflexivity|]. split; [exact Hset|]. repeat split; simpl; tauto.
    + rewrite nth_error_app2, Nat.sub_diag by lia. simpl.
      rewrite (keep_after_split p g1 s Hwf Hset).
      replace (S (length p)) with (length (p ++ [g1]))
        by (rewrite length_app; simpl; lia).
      pose proof Hwf as Hwf'. rewrite Forall_forall in Hwf'.
      assert (Hg1 : group_wf g1) by (apply Hwf', in_elt).
      destruct (IH (p ++ [g1]) (keep_after g1 s))
        as (t & Heq & Hst & Hsub & Hdisc & _).
      * rewrite <- keep_after_split by assumption. now apply keep_after_wf.
      * intros g y Hg Hy.
        assert (Hyl : In y (p ++ g1 :: s)).
        { rewrite <- app_assoc in Hy. simpl in Hy.
          apply in_app_or in Hy as [Hy|[Hy|Hy]]; apply in_or_app; simpl; auto.
          apply filter_In in Hy as [Hy _]. auto. }
        apply in_app_or in Hg as [Hg|[<-|[]]]; [now apply Hset|].
        rewrite <- app_assoc in Hy. simpl in Hy.
        apply in_app_or in Hy as [Hy|[<-|Hy]].
        -- rewrite redundant_with_sym; [|exact Hg1|apply Hwf'; exact Hyl].
           apply Hset; [exact Hy | apply in_elt].
        -- now apply redundant_with_refl.
        -- apply filter_In in Hy as [_ Hy]. now apply negb_true_iff in Hy.
      * etransitivity; [apply filter_length_le|]. simpl in Hlen. lia.
      * exists (g1 :: t).
        replace (p ++ g1 :: t) with ((p ++ [g1]) ++ t)
          by now rewrite <- app_assoc.
        split; [exact Heq|]. split; [exact Hst|]. split; [|split].
        -- intros y [<-|Hy]; [now left|]. right.
           apply Hsub in Hy. now apply filter_In in Hy as [Hy _].
        -- intros y [<-|Hy] Hnot; [exfalso; apply Hnot; now left|].
           destruct (redundant_with g1 y) eqn:E.
           ++ exists g1. split; [now left | exact E].
           ++ destruct (Hdisc y) as (g & Hg & Hr).
              ** apply filter_In. split; [exact Hy | now rewrite E].
              ** intros Hyt. apply Hnot. now right.
              ** exists g. split; [now right | exact Hr].
        -- reflexivity.
Qed.

(** The loop stops because the iterator has reached the end of the list,
    not because the fuel is spent: any larger fuel gives the same list. *)
Lemma rrg_loop_fuel fuel1 : forall fuel2 i remove_list l,
  (length l - i <= fuel1)%nat -> (length l - i <= fuel2)%nat ->
  rrg_loop fuel1 i remove_list l = rrg_loop fuel2 i remove_list l.
Proof.
  induction fuel1 as [|fuel1 IH]; intros fuel2 i rl l H1 H2.
  - destruct fuel2; simpl; trivial.
    replace (nth_error l i) with (@None (Z * list (Z * Q)))
      by (symmetry; apply nth_error_None; lia). reflexivity.
  - destruct fuel2; simpl.
    + replace (nth_error l i) with (@None (Z * list (Z * Q)))
        by (symmetry; apply nth_error_None; lia). reflexivity.
    + destruct (nth_error l i) as [g1|] eqn:E; trivial.
      assert (i < length l)%nat by (apply nth_error_Some; congruence).
      pose proof (purge_length (rl ++ collect_redundant g1 l) l).
      apply IH; lia.
Qed.

Lemma remove_redundant_groups_fuel l fuel :
  (length l <= fuel)%nat ->
  rrg_loop fuel 0 [] l = remove_redundant_groups l.
Proof.
  intros H. unfold remove_redundant_groups. apply rrg_loop_fuel; lia.
Qed.

Lemma rrg_loop_incl fuel : forall i remove_list l y,
  In y (rrg_loop fuel i remove_list l) -> In y l.
Proof.
  induction fuel as [|fuel IH]; intros i rl l y; simpl; trivial.
  destruct (nth_error l i) as [g1|]; trivial.
  intros H. apply IH in H. now apply purge_incl in H.
Qed.

Lemma remove_redundant_groups_incl l y :
  In y (remove_redundant_groups l) -> In y l.
Proof. apply rrg_loop_incl. Qed.

(** What [remove_redundant_groups] returns on groups with well-formed
    dictionaries. *)
Lemma remove_redundant_groups_spec l :
  Forall group_wf l ->
  let r := remove_redundant_groups l in
  stable r /\
  (forall y, In y r -> In y l) /\
  (forall y, In y l -> ~ In y r ->
     exists g, In g r /\ redundant_with g y = true) /\
  hd_error r = hd_error l.
Proof.
  intros Hwf r. subst r. unfold remove_redundant_groups.
  rewrite rrg_loop_sieve; [|exact Hwf|intros x y []].
  destruct (sieve_loop_spec (length l) [] l Hwf) as (t & Heq & H).
  - intros g y [].
  - lia.
  - simpl in Heq, H. rewrite Heq. exact H.
Qed.

(** A list fixed by every turn is returned as it is. *)
Lemma rrg_loop_stable fuel : forall i l,
  stable l -> rrg_loop fuel i [] l = l.
Proof.
  induction fuel as [|fuel IH]; intros i l Hst; simpl; trivial.
  destruct (nth_error l i) as [g1|] eqn:E; trivial.
  apply nth_error_In in E.
  assert (Hc : collect_redundant g1 l = []).
  { unfold collect_redundant. apply filter_all_false.
    intros y Hy. exact (Hst g1 y E Hy). }
  rewrite Hc. simpl. now apply IH.
Qed.

Lemma ForallOrdPairs_nth {A : Type} (R : A -> A -> Prop) l :
  ForallOrdPairs R l ->
  forall i j a b, (i < j)%nat ->
    nth_error l i = Some a -> nth_error l j = Some b -> R a b.
Proof.
  induction 1 as [|x l Hx Hl IH]; intros i j a b Hij Ha Hb.
  - destruct i; discriminate.
  - destruct j as [|j]; [lia|]. simpl in Hb. destruct i as [|i].
    + injection Ha as <-. rewrite Forall_forall in Hx.
      apply Hx. eapply nth_error_In; eauto.
    + simpl in Ha. apply (IH i j); auto; lia.
Qed.

Example remove_redundant_groups_chain :
  remove_redundant_groups [gA; gB; gC] = [gA; gC].
Proof. reflexivity. Qed.

Lemma chain_wf : Forall group_wf [gA; gB; gC].
Proof.
  repeat apply Forall_cons; try apply Forall_nil;
    unfold group_wf, dict_wf, keys; simpl;
    repeat (constructor; simpl; try (intuition discriminate)).
Qed.

Lemma chain_duplicate_free : duplicate_free [gA; gB; gC].
Proof. unfold duplicate_free. repeat constructor. Qed.

Lemma chain_sorted : sorted_by_touches [gA; gB; gC].
Proof.
  unfold sorted_by_touches. repeat constructor; simpl; lia.
Qed.

(** C1, as the claim has it: on a sorted, duplicate-free list, of two
    groups that share two touch dates or more the earlier one is retained
    and the later one is discarded.  It fails on the chain [gA; gB; gC]:
    [gB] and [gC] share the dates 3 and 4, yet [gB] is discarded (it shares
    2 and 3 with [gA]) and [gC] is retained. *)
Lemma remove_redundant_groups_earlier_not_always_retained :
  ~ (forall l, Forall group_wf l -> duplicate_free l -> sorted_by_touches l ->
     forall i j g1 g2, (i < j)%nat ->
       nth_error l i = Some g1 -> nth_error l j = Some g2 ->
       at_least_2_common (snd g1) (snd g2) = true ->
       In g1 (remove_redundant_groups l) /\
       ~ In g2 (remove_redundant_groups l)).
Proof.
  intros H.
  destruct (H [gA; gB; gC] chain_wf chain_duplicate_free chain_sorted
              1%nat 2%nat gB gC) as [Hin _]; try reflexivity; try lia.
  rewrite remove_redundant_groups_chain in Hin.
  destruct Hin as [E|[E|[]]]; discriminate E.
Qed.

(** C5: [remove_redundant_groups] is idempotent. *)
Theorem remove_redundant_groups_idempotent l :
  Forall group_wf l ->
  remove_redundant_groups (remove_redundant_groups l) =
  remove_redundant_groups l.
Proof.
  intros Hwf.
  destruct (remove_redundant_groups_spec l Hwf) as (Hst & _).
  unfold remove_redundant_groups at 1. now apply rrg_loop_stable.
Qed.

Lemma remove_redundant_groups_idempotent_witness :
  remove_redundant_groups (remove_redundant_groups [gA; gB; gC]) =
  remove_redundant_groups [gA; gB; gC].
Proof.
  exact (remove_redundant_groups_idempotent [gA; gB; gC] chain_wf).
Defined.

(* ================================================================== *)
(** ** The clustering pipeline *)

(** The three tests of [calculate_tolerance] leave no case out. *)
Lemma calculate_tolerance_tests spread :
  Qle_bool spread 50 = false ->
  Qlt_bool 50 spread && Qle_bool spread 100 = false ->
  (100 < spread)%Q.
Proof.
  unfold Qlt_bool. intros H1 H2. rewrite H1 in H2. simpl in H2.
  apply Qnot_le_lt. intros Hle. apply Qle_bool_iff in Hle. congruence.
Qed.

Lemma calculate_tolerance_values column tolerance :
  calculate_tolerance column = Ok tolerance ->
  tolerance = 3 \/ tolerance = 5 \/ tolerance = 10.
Proof.
  unfold calculate_tolerance. destruct (series_range column); [|discriminate].
  simpl. intros H. injection H as <-.
  destruct (Qle_bool a 50); [auto|].
  destruct (Qlt_bool 50 a && Qle_bool a 100); auto.
Qed.

Lemma insert_sorted_in {A : Type} (before : A -> A -> bool) x l y :
  In y (insert_sorted before x l) <-> y = x \/ In y l.
Proof.
  induction l as [|a l IH]; simpl.
  - intuition.
  - destruct (before a x); simpl; rewrite ?IH; intuition.
Qed.

Lemma py_sorted_in {A : Type} (before : A -> A -> bool) l y :
  In y (py_sorted before l) <-> In y l.
Proof.
  induction l as [|a l IH]; simpl; [tauto|].
  rewrite insert_sorted_in, IH. intuition.
Qed.

Lemma remove_duplicates_incl values_list y :
  In y (remove_duplicates values_list) -> In y values_list.
Proof.
  unfold remove_duplicates.
  assert (H : forall acc,
    In y (fold_left
            (fun unique_values_list v =>
               if list_contains v unique_values_list then unique_values_list
               else unique_values_list ++ [v]) values_list acc) ->
    In y acc \/ In y values_list).
  { induction values_list as [|v l IH]; intros acc; simpl; [auto|].
    intros Hin. apply IH in Hin as [Hin|Hin]; [|auto].
    destruct (list_contains v acc); [auto|].
    apply in_app_or in Hin as [Hin|[<-|[]]]; auto. }
  intros Hin. apply H in Hin as [[]|Hin]. exact Hin.
Qed.

Lemma manipulate_groups_touch_count tolerance_groups g :
  In g (manipulate_groups tolerance_groups) ->
  3 <= fst g /\ fst g = len (snd g).
Proof.
  unfold manipulate_groups. intros Hin.
  apply py_sorted_in, remove_duplicates_incl, in_map_iff in Hin
    as (value & <- & Hin).
  apply filter_In in Hin as [_ Hlen]. simpl. split; [lia | reflexivity].
Qed.

(** *** The lists [manipulate_groups] builds *)

Lemma fold_left_invariant {A B : Type} (P : A -> Prop) (f : A -> B -> A) l :
  (forall acc x, P acc -> P (f acc x)) -> forall init, P init ->
  P (fold_left f l init).
Proof.
  intros Hf. induction l as [|x l IH]; intros init Hi; simpl; auto.
Qed.

Lemma dict_set_keys_in (d : list (Z * Q)) k v k' :
  In k' (keys (dict_set Z.eqb d k v)) <-> In k' (keys d) \/ k' = k.
Proof.
  unfold keys. induction d as [|[k0 v0] d IH]; simpl.
  - intuition.
  - destruct (Z.eqb_spec k0 k) as [->|Hne]; simpl; [intuition|].
    rewrite IH. intuition.
Qed.

Lemma dict_set_wf (d : list (Z * Q)) k v :
  dict_wf d -> dict_wf (dict_set Z.eqb d k v).
Proof.
  unfold dict_wf, keys. induction d as [|[k0 v0] d IH]; simpl; intros Hnd.
  - repeat constructor. intros [].
  - inversion Hnd as [|? ? Hnotin Hnd']; subst.
    destruct (Z.eqb_spec k0 k) as [->|Hne]; simpl; [now constructor|].
    constructor; [|now apply IH].
    intros Hin. apply dict_set_keys_in in Hin as [Hin|Heq]; auto.
Qed.

Lemma dict_set_values {K V : Type} (keqb : K -> K -> bool) (P : V -> Prop)
    (d : list (K * V)) k v :
  Forall P (values d) -> P v -> Forall P (values (dict_set keqb d k v)).
Proof.
  unfold values. induction d as [|[k0 v0] d IH]; simpl; intros Hd Hv.
  - now constructor.
  - inversion Hd; subst. destruct (keqb k0 k); simpl; constructor; auto.
Qed.

Lemma dict_get_values {K V : Type} (keqb : K -> K -> bool)
    (d : list (K * V)) k v :
  dict_get keqb d k = Some v -> In v (values d).
Proof.
  unfold values. induction d as [|[k0 v0] d IH]; simpl; [discriminate|].
  destruct (keqb k0 k); intros H; [injection H as ->; now left | auto].
Qed.

Lemma create_tolerance_group_wf possible_levels_dict tolerance_function :
  Forall dict_wf
    (values (create_tolerance_group possible_levels_dict tolerance_function)).
Proof.
  unfold create_tolerance_group.
  apply fold_left_invariant.
  - intros tg kv1 Htg. apply fold_left_invariant; [|exact Htg].
    intros tg' kv2 Htg'. destruct (tolerance_function (snd kv1) (snd kv2)); trivial.
    destruct (dict_get Qeq_bool tg' (snd kv1)) as [inner|] eqn:E; trivial.
    apply dict_set_values; [exact Htg'|]. apply dict_set_wf.
    apply dict_get_values in E. rewrite Forall_forall in Htg'. auto.
  - apply fold_left_invariant; [|constructor].
    intros tg value Htg. apply dict_set_values; [exact Htg|].
    unfold dict_wf. simpl. constructor.
Qed.

Lemma ForallOrdPairs_snoc {A : Type} (R : A -> A -> Prop) l x :
  ForallOrdPairs R l -> (forall a, In a l -> R a x) ->
  ForallOrdPairs R (l ++ [x]).
Proof.
  induction 1 as [|a l Ha Hl IH]; intros Hx; simpl.
  - repeat constructor.
  - constructor.
    + apply Forall_app. split; [exact Ha|]. constructor; [|constructor].
      apply Hx. now left.
    + apply IH. intros b Hb. apply Hx. now right.
Qed.

Lemma remove_duplicates_duplicate_free values_list :
  duplicate_free (remove_duplicates values_list).
Proof.
  unfold remove_duplicates, duplicate_free.
  apply fold_left_invariant; [|constructor].
  intros acc v Hacc. destruct (list_contains v acc) eqn:E; [exact Hacc|].
  apply ForallOrdPairs_snoc; [exact Hacc|].
  intros a Ha. unfold list_contains in E.
  destruct (group_eqb a v) eqn:Eav; trivial.
  assert (existsb (fun item => group_eqb item v) acc = true)
    by (apply existsb_exists; eauto).
  congruence.
Qed.

Lemma insert_sorted_pairs {A : Type} (R : A -> A -> Prop)
    (before : A -> A -> bool) x l :
  ForallOrdPairs R l ->
  (forall y, In y l -> R x y) -> (forall y, In y l -> R y x) ->
  ForallOrdPairs R (insert_sorted before x l).
Proof.
  induction 1 as [|a l Ha Hl IH]; intros Hxy Hyx; simpl.
  - repeat constructor.
  - destruct (before a x).
    + constructor.
      * apply Forall_forall. intros y Hy.
        apply insert_sorted_in in Hy as [->|Hy].
        -- apply Hyx. now left.
        -- rewrite Forall_forall in Ha. auto.
      * apply IH; intros y Hy; [apply Hxy | apply Hyx]; now right.
    + constructor; [|now constructor].
      apply Forall_forall. intros y Hy. now apply Hxy.
Qed.

Lemma py_sorted_duplicate_free (before : Z * list (Z * Q) -> Z * list (Z * Q) -> bool) l :
  Forall group_wf l -> duplicate_free l -> duplicate_free (py_sorted before l).
Proof.
  unfold duplicate_free. intros Hwf Hdf.
  induction Hdf as [|a l Ha Hl IH]; simpl; [constructor|].
  inversion Hwf as [|? ? Hwa Hwl]; subst.
  specialize (IH Hwl). rewrite Forall_forall in Ha, Hwl.
  apply insert_sorted_pairs; [exact IH| |]; intros y Hy;
    apply py_sorted_in in Hy.
  - now apply Ha.
  - rewrite group_eqb_sym_eq; auto.
Qed.

Lemma insert_sorted_descending {A : Type} (key : A -> Z) x l :
  StronglySorted (fun a b => key b <= key a) l ->
  StronglySorted (fun a b => key b <= key a)
    (insert_sorted (fun a b => key b <? key a) x l).
Proof.
  induction 1 as [|y r Hr IH Hy]; simpl.
  - repeat constructor.
  - destruct (Z.ltb_spec (key x) (key y)) as [Hlt|Hge].
    + constructor; [exact IH|]. apply Forall_forall. intros k Hk.
      apply insert_sorted_in in Hk as [->|Hk]; [lia|].
      rewrite Forall_forall in Hy. now apply Hy.
    + constructor; [now constructor|]. constructor; [exact Hge|].
      rewrite Forall_forall in *. intros k Hk. specialize (Hy k Hk). lia.
Qed.

Lemma py_sorted_descending {A : Type} (key : A -> Z) l :
  StronglySorted (fun a b => key b <= key a)
    (py_sorted (fun a b => key b <? key a) l).
Proof.
  unfold py_sorted. induction l as [|x l IH]; simpl; [constructor|].
  now apply insert_sorted_descending.
Qed.

(** What [manipulate_groups] hands to [remove_redundant_groups]: groups
    with well-formed dictionaries, without duplicates, by descending touch
    count. *)
Lemma manipulate_groups_invariant possible_levels_dict tolerance_function :
  let l := manipulate_groups
             (create_tolerance_group possible_levels_dict tolerance_function) in
  Forall group_wf l /\ duplicate_free l /\ sorted_by_touches l.
Proof.
  intros l. subst l. unfold manipulate_groups.
  pose proof (create_tolerance_group_wf possible_levels_dict tolerance_function)
    as Hwf.
  set (tg := create_tolerance_group possible_levels_dict tolerance_function) in *.
  set (index_groups :=
         map (fun value : list (Z * Q) => (len value, value))
           (filter (fun value => 3 <=? len value) (values tg))).
  assert (Hu : Forall group_wf (remove_duplicates index_groups)).
  { apply Forall_forall. intros g Hg.
    apply remove_duplicates_incl in Hg. unfold index_groups in Hg.
    apply in_map_iff in Hg as (value & <- & Hv).
    apply filter_In in Hv as [Hv _]. rewrite Forall_forall in Hwf.
    now apply Hwf. }
  split; [|split].
  - apply Forall_forall. intros g Hg. apply py_sorted_in in Hg.
    rewrite Forall_forall in Hu. auto.
  - apply py_sorted_duplicate_free; [exact Hu|].
    apply remove_duplicates_duplicate_free.
  - apply (py_sorted_descending (fun g : Z * list (Z * Q) => fst g)).
Qed.

(** C4: every group returned by the clustering pipeline has at least 3
    touches, and its touch count is the size of its mapping; this holds
    for any tolerance test, and [process_groups] returns unless the price
    series is empty. *)
Theorem process_groups_touch_count :
  (forall (tolerance_function : Q -> Q -> bool) possible_levels_values g,
     In g (remove_redundant_groups
             (manipulate_groups
                (create_tolerance_group possible_levels_values
                   tolerance_function))) ->
     3 <= fst g /\ fst g = len (snd g)) /\
  (forall series possible_levels_values,
     match process_groups series possible_levels_values with
     | Ok index_groups_final =>
         Forall (fun g => 3 <= fst g /\ fst g = len (snd g))
           index_groups_final
     | Raise _ => series = []
     end).
Proof.
  assert (H : forall (tolerance_function : Q -> Q -> bool) levels g,
     In g (remove_redundant_groups
             (manipulate_groups
                (create_tolerance_group levels tolerance_function))) ->
     3 <= fst g /\ fst g = len (snd g)).
  { intros f levels g Hin.
    apply remove_redundant_groups_incl in Hin.
    now apply manipulate_groups_touch_count in Hin. }
  split; [exact H|].
  intros series levels. unfold process_groups, create_tolerance_function,
    calculate_tolerance, series_range, py_max, py_min.
  destruct series as [|x series]; simpl; [reflexivity|].
  apply Forall_forall. intros g Hin. now apply H in Hin.
Qed.

Lemma process_groups_touch_count_witness :
  let g : Z * list (Z * Q) := (3, [(5, 108#1); (6, 109#1); (7, 110#1)]) in
  3 <= fst g /\ fst g = len (snd g).
Proof.
  apply (proj1 process_groups_touch_count
           (fun value1 value2 => Qle_bool (Qabs (value1 - value2)) 3)
           [(1, 100#1); (2, 101#1); (3, 99#1); (4, 100#1);
            (5, 108#1); (6, 109#1); (7, 110#1)]).
  vm_compute. right. left. reflexivity.
Defined.

Example process_groups_run :
  process_groups [100#1; 101#1; 99#1; 150#1]
    [(1, 100#1); (2, 101#1); (3, 99#1); (4, 100#1);
     (5, 108#1); (6, 109#1); (7, 110#1)] =
  Ok [(4, [(1, 100#1); (2, 101#1); (3, 99#1); (4, 100#1)]);
      (3, [(5, 108#1); (6, 109#1); (7, 110#1)])].
Proof. reflexivity. Qed.

(** The result of the pipeline is pairwise non-redundant, and a further
    pass of [remove_redundant_groups] leaves it as it is. *)
Lemma process_groups_stable series possible_levels_values index_groups_final :
  process_groups series possible_levels_values = Ok index_groups_final ->
  stable index_groups_final /\
  remove_redundant_groups index_groups_final = index_groups_final.
Proof.
  unfold process_groups.
  destruct (create_tolerance_function series) as [within|e]; [|discriminate].
  simpl. intros H. injection H as <-.
  destruct (manipulate_groups_invariant possible_levels_values within)
    as (Hwf & _).
  destruct (remove_redundant_groups_spec _ Hwf) as (Hst & _).
  split; [exact Hst|].
  unfold remove_redundant_groups at 1. now apply rrg_loop_stable.
Qed.

(** A dip and a rise over five rows give the centre row; a monotonic
    series gives nothing. *)
Example find_supports_window :
  find_supports [(1, 5#1); (2, 4#1); (3, 3#1); (4, 4#1); (5, 5#1)] = [(3, 3#1)]
  /\ find_supports [(1, 1#1); (2, 2#1); (3, 3#1); (4, 4#1); (5, 5#1); (6, 6#1)]
     = []
  /\ find_resistances [(1, 1#1); (2, 2#1); (3, 3#1); (4, 2#1); (5, 1#1)]
     = [(3, 3#1)].
Proof. repeat split. Qed.

(* ================================================================== *)
(** ** Level validator *)

Lemma sorted_reverse_sorted dates :
  StronglySorted (fun a b => b <= a) (sorted_reverse dates).
Proof. exact (py_sorted_descending (fun d : Z => d) dates). Qed.

Lemma sorted_reverse_in dates d : In d (sorted_reverse dates) <-> In d dates.
Proof. apply py_sorted_in. Qed.

Lemma strongly_sorted_last (l : list Z) d :
  StronglySorted (fun a b => b <= a) (l ++ [d]) -> forall k, In k l -> d <= k.
Proof.
  induction l as [|a l IH]; intros Hs k Hk; [destruct Hk|].
  simpl in Hs. inversion Hs as [|? ? Hs' Ha]; subst.
  destruct Hk as [<-|Hk]; [|now apply IH].
  rewrite Forall_forall in Ha. apply Ha, in_or_app. simpl. auto.
Qed.

Lemma is_latest_unique dates d d' :
  is_latest d dates -> is_latest d' dates -> d = d'.
Proof.
  intros [Hin H] [Hin' H']. specialize (H _ Hin'). specialize (H' _ Hin). lia.
Qed.

Lemma is_earliest_unique dates d d' :
  is_earliest d dates -> is_earliest d' dates -> d = d'.
Proof.
  intros [Hin H] [Hin' H']. specialize (H _ Hin'). specialize (H' _ Hin). lia.
Qed.

(** [dates[0]] of the dates sorted in reverse is the latest date. *)
Lemma index_first_sorted_reverse dates d :
  index_first (sorted_reverse dates) = Ok d -> is_latest d dates.
Proof.
  pose proof (sorted_reverse_sorted dates) as Hs.
  pose proof (sorted_reverse_in dates) as Hin.
  destruct (sorted_reverse dates) as [|x l]; simpl; [discriminate|].
  intros H. injection H as ->. split.
  - apply Hin. now left.
  - intros k Hk. apply Hin in Hk as [<-|Hk]; [lia|].
    inversion Hs as [|? ? _ Hx]; subst. rewrite Forall_forall in Hx. auto.
Qed.

(** [dates[-1]] of the dates sorted in reverse is the earliest date. *)
Lemma index_last_sorted_reverse dates d :
  index_last (sorted_reverse dates) = Ok d -> is_earliest d dates.
Proof.
  pose proof (sorted_reverse_sorted dates) as Hs.
  pose proof (sorted_reverse_in dates) as Hin.
  unfold index_last.
  destruct (rev (sorted_reverse dates)) as [|x l] eqn:E; [discriminate|].
  intros H. injection H as ->.
  apply (f_equal (@rev Z)) in E. rewrite rev_involutive in E. simpl in E.
  rewrite E in Hs, Hin. split.
  - apply Hin, in_or_app. simpl. auto.
  - intros k Hk. apply Hin in Hk. apply in_app_or in Hk as [Hk|[<-|[]]]; [|lia].
    now apply (strongly_sorted_last _ _ Hs).
Qed.

Lemma index_first_some dates :
  dates <> [] -> exists d, index_first (sorted_reverse dates) = Ok d.
Proof.
  intros Hne. pose proof (sorted_reverse_in dates) as Hin.
  destruct (sorted_reverse dates) as [|x l]; simpl; [|eauto].
  destruct dates as [|d dates]; [contradiction|].
  destruct (proj2 (Hin d)). now left.
Qed.

Lemma index_last_some dates :
  dates <> [] -> exists d, index_last (sorted_reverse dates) = Ok d.
Proof.
  intros Hne. pose proof (sorted_reverse_in dates) as Hin.
  unfold index_last.
  destruct (rev (sorted_reverse dates)) as [|x l] eqn:E; [|eauto].
  apply (f_equal (@rev Z)) in E. rewrite rev_involutive in E. simpl in E.
  rewrite E in Hin. destruct dates as [|d dates]; [contradiction|].
  destruct (proj2 (Hin d)). now left.
Qed.

Lemma index_first_latest dates d :
  is_latest d dates -> index_first (sorted_reverse dates) = Ok d.
Proof.
  intros Hd. destruct (index_first_some dates) as [d' Hd'].
  - intros ->. destruct Hd as [[] _].
  - rewrite Hd'. f_equal. apply index_first_sorted_reverse in Hd'.
    eapply is_latest_unique; eauto.
Qed.

Lemma index_last_earliest dates d :
  is_earliest d dates -> index_last (sorted_reverse dates) = Ok d.
Proof.
  intros Hd. destruct (index_last_some dates) as [d' Hd'].
  - intros ->. destruct Hd as [[] _].
  - rewrite Hd'. f_equal. apply index_last_sorted_reverse in Hd'.
    eapply is_earliest_unique; eauto.
Qed.

Lemma Qlt_bool_iff x y : Qlt_bool x y = true <-> (x < y)%Q.
Proof.
  unfold Qlt_bool. rewrite negb_true_iff. split.
  - intros H. apply Qnot_le_lt. intros Hle.
    apply Qle_bool_iff in Hle. congruence.
  - intros H. destruct (Qle_bool y x) eqn:E; trivial.
    apply Qle_bool_iff in E. exfalso. now apply (Qlt_not_le x y).
Qed.

Lemma empty_filter_iff (mask : Z * Q -> bool) cols l :
  (if empty (mkDataFrame cols (filter mask l)) then true else false) = true <->
  forall row, In row l -> mask row = false.
Proof.
  unfold empty. simpl. split.
  - intros H row Hin. destruct (mask row) eqn:E; trivial.
    assert (Hf : In row (filter mask l)) by (apply filter_In; auto).
    destruct (filter mask l); [destruct Hf | discriminate].
  - intros H. now rewrite filter_all_false.
Qed.

Lemma nonempty_filter_iff (mask : Z * Q -> bool) cols l :
  (if empty (mkDataFrame cols (filter mask l)) then false else true) = true <->
  exists row, In row l /\ mask row = true.
Proof.
  unfold empty. simpl. split.
  - destruct (filter mask l) as [|row r] eqn:E; [discriminate|]. intros _.
    exists row. apply filter_In. rewrite E. now left.
  - intros (row & Hin & Hm).
    assert (Hf : In row (filter mask l)) by (apply filter_In; auto).
    destruct (filter mask l); [destruct Hf | reflexivity].
Qed.

Section Runs.
Variables (level : Z * list (Z * Q)) (table : DataFrame).
Variables (earliest latest : Z) (avg_price : Q) (tolerance : Z).
Hypothesis Hearliest : is_earliest earliest (keys (snd level)).
Hypothesis Hlatest : is_latest latest (keys (snd level)).
Hypothesis Hmean : mean (values (snd level)) = Ok avg_price.
Hypothesis Htolerance :
  calculate_tolerance (values (rows table)) = Ok tolerance.

Let renamed := mkDataFrame date_price (rows table).

Lemma is_support_valid_run :
  is_support_valid level table =
  (Ok (if empty (mkDataFrame date_price
                   (filter (fun row => below avg_price tolerance row
                                       && (earliest <=? fst row)
                                       && (fst row <=? latest))
                      (rows table)))
       then true else false), renamed).
Proof.
  unfold is_support_valid, bind, lift, ret, set_columns, get_price, loc.
  rewrite (index_first_latest _ _ Hlatest).
  rewrite (index_last_earliest _ _ Hearliest).
  rewrite Hmean. simpl. rewrite Htolerance. reflexivity.
Qed.

Lemma is_resistance_valid_run :
  is_resistance_valid level table =
  (Ok (if empty (mkDataFrame date_price
                   (filter (fun row => above avg_price tolerance row
                                       && (earliest <=? fst row)
                                       && (fst row <=? latest))
                      (rows table)))
       then true else false), renamed).
Proof.
  unfold is_resistance_valid, bind, lift, ret, set_columns, get_price, loc.
  rewrite (index_first_latest _ _ Hlatest).
  rewrite (index_last_earliest _ _ Hearliest).
  rewrite Hmean. simpl. rewrite Htolerance. reflexivity.
Qed.

Lemma is_support_broken_run :
  is_support_broken level table =
  (let breach_data :=
     mkDataFrame date_price
       (filter (fun row => below avg_price tolerance row
                           && (latest <? fst row)) (rows table)) in
   (Ok (if empty breach_data then false else true, breach_data), renamed)).
Proof.
  unfold is_support_broken, bind, lift, ret, set_columns, get_price, loc.
  rewrite (index_first_latest _ _ Hlatest).
  rewrite Hmean. simpl. rewrite Htolerance. reflexivity.
Qed.

Lemma is_resistance_broken_run :
  is_resistance_broken level table =
  (let breach_data :=
     mkDataFrame date_price
       (filter (fun row => above avg_price tolerance row
                           && (latest <? fst row)) (rows table)) in
   (Ok (if empty breach_data then false else true, breach_data), renamed)).
Proof.
  unfold is_resistance_broken, bind, lift, ret, set_columns, get_price, loc.
  rewrite (index_first_latest _ _ Hlatest).
  rewrite Hmean. simpl. rewrite Htolerance. reflexivity.
Qed.
End Runs.

Lemma in_range_iff earliest latest (row : Z * Q) :
  (earliest <=? fst row) && (fst row <=? latest) = true <->
  earliest <= fst row <= latest.
Proof. rewrite andb_true_iff, !Z.leb_le. tauto. Qed.

(** C2: [is_support_valid] returns [True] exactly when no row of the table
    dated from the earliest to the latest touch has a price strictly below
    the mean touch price minus the tolerance of the table's price column;
    [is_resistance_valid] is the mirror, with prices strictly above the
    mean plus the tolerance. *)
Theorem is_valid_iff level table earliest latest avg_price tolerance :
  is_earliest earliest (keys (snd level)) ->
  is_latest latest (keys (snd level)) ->
  mean (values (snd level)) = Ok avg_price ->
  calculate_tolerance (values (rows table)) = Ok tolerance ->
  (exists is_valid,
     fst (is_support_valid level table) = Ok is_valid /\
     (is_valid = true <->
      forall row, In row (rows table) ->
        earliest <= fst row <= latest ->
        ~ (snd row < avg_price - inject_Z tolerance)%Q)) /\
  (exists is_valid,
     fst (is_resistance_valid level table) = Ok is_valid /\
     (is_valid = true <->
      forall row, In row (rows table) ->
        earliest <= fst row <= latest ->
        ~ (avg_price + inject_Z tolerance < snd row)%Q)).
Proof.
  intros He Hl Hm Ht. split.
  - rewrite (is_support_valid_run _ _ _ _ _ _ He Hl Hm Ht). simpl fst.
    eexists. split; [reflexivity|]. rewrite empty_filter_iff.
    split; intros H row Hin.
    + intros Hr Hlt. specialize (H row Hin).
      apply in_range_iff in Hr. apply Qlt_bool_iff in Hlt.
      unfold below in H. rewrite Hlt in H. simpl in H.
      rewrite Hr in H. discriminate.
    + specialize (H row Hin). rewrite <- andb_assoc.
      destruct (below avg_price tolerance row) eqn:Eb; trivial. simpl.
      destruct ((earliest <=? fst row) && (fst row <=? latest)) eqn:Er; trivial.
      exfalso. apply in_range_iff in Er. apply (H Er).
      now apply Qlt_bool_iff.
  - rewrite (is_resistance_valid_run _ _ _ _ _ _ He Hl Hm Ht). simpl fst.
    eexists. split; [reflexivity|]. rewrite empty_filter_iff.
    split; intros H row Hin.
    + intros Hr Hlt. specialize (H row Hin).
      apply in_range_iff in Hr. apply Qlt_bool_iff in Hlt.
      unfold above in H. rewrite Hlt in H. simpl in H.
      rewrite Hr in H. discriminate.
    + specialize (H row Hin). rewrite <- andb_assoc.
      destruct (above avg_price tolerance row) eqn:Eb; trivial. simpl.
      destruct ((earliest <=? fst row) && (fst row <=? latest)) eqn:Er; trivial.
      exfalso. apply in_range_iff in Er. apply (H Er).
      now apply Qlt_bool_iff.
Qed.

Lemma level1_earliest : is_earliest 0 (keys (snd level1)).
Proof.
  split; simpl; [auto|]. intros k [<-|[<-|[<-|[]]]]; lia.
Qed.

Lemma level1_latest : is_latest 25 (keys (snd level1)).
Proof.
  split; simpl; [auto|]. intros k [<-|[<-|[<-|[]]]]; lia.
Qed.

Lemma is_valid_iff_witness :
  (exists is_valid,
     fst (is_support_valid level1 table1) = Ok is_valid /\
     (is_valid = true <->
      forall row, In row (rows table1) ->
        0 <= fst row <= 25 ->
        ~ (snd row < (301 # 3) - inject_Z 3)%Q)) /\
  (exists is_valid,
     fst (is_resistance_valid level1 table1) = Ok is_valid /\
     (is_valid = true <->
      forall row, In row (rows table1) ->
        0 <= fst row <= 25 ->
        ~ ((301 # 3) + inject_Z 3 < snd row)%Q)).
Proof.
  apply (is_valid_iff level1 table1 0 25 (301 # 3) 3
           level1_earliest level1_latest); reflexivity.
Defined.

(** C3: [is_support_broken] (mirror: [is_resistance_broken]) returns
    [is_breached = True] exactly when some row of the table dated strictly
    after the latest touch has a price below the mean touch price minus the
    tolerance (above the mean plus the tolerance), and [breach_data] holds
    exactly those rows, in the order of the table. *)
Theorem is_broken_iff level table latest avg_price tolerance :
  is_latest latest (keys (snd level)) ->
  mean (values (snd level)) = Ok avg_price ->
  calculate_tolerance (values (rows table)) = Ok tolerance ->
  (exists is_breached breach_data,
     fst (is_support_broken level table) = Ok (is_breached, breach_data) /\
     (is_breached = true <->
      exists row, In row (rows table) /\ latest < fst row /\
                  (snd row < avg_price - inject_Z tolerance)%Q) /\
     (forall row, In row (rows breach_data) <->
        In row (rows table) /\ latest < fst row /\
        (snd row < avg_price - inject_Z tolerance)%Q) /\
     rows breach_data =
       filter (fun row => below avg_price tolerance row && (latest <? fst row))
         (rows table)) /\
  (exists is_breached breach_data,
     fst (is_resistance_broken level table) = Ok (is_breached, breach_data) /\
     (is_breached = true <->
      exists row, In row (rows table) /\ latest < fst row /\
                  (avg_price + inject_Z tolerance < snd row)%Q) /\
     (forall row, In row (rows breach_data) <->
        In row (rows table) /\ latest < fst row /\
        (avg_price + inject_Z tolerance < snd row)%Q) /\
     rows breach_data =
       filter (fun row => above avg_price tolerance row && (latest <? fst row))
         (rows table)).
Proof.
  intros Hl Hm Ht.
  assert (Hb : forall row, below avg_price tolerance row && (latest <? fst row) = true
               <-> latest < fst row /\ (snd row < avg_price - inject_Z tolerance)%Q).
  { intros row. unfold below.
    rewrite andb_true_iff, Qlt_bool_iff, Z.ltb_lt. tauto. }
  assert (Ha : forall row, above avg_price tolerance row && (latest <? fst row) = true
               <-> latest < fst row /\ (avg_price + inject_Z tolerance < snd row)%Q).
  { intros row. unfold above.
    rewrite andb_true_iff, Qlt_bool_iff, Z.ltb_lt. tauto. }
  split.
  - rewrite (is_support_broken_run _ _ _ _ _ Hl Hm Ht). cbv zeta. simpl fst.
    do 2 eexists. split; [reflexivity|]. split; [|split; [|reflexivity]].
    + rewrite nonempty_filter_iff. split; intros (row & Hin & H);
        exists row; (split; [exact Hin|]); now apply Hb.
    + intros row. simpl. rewrite filter_In, Hb. tauto.
  - rewrite (is_resistance_broken_run _ _ _ _ _ Hl Hm Ht). cbv zeta. simpl fst.
    do 2 eexists. split; [reflexivity|]. split; [|split; [|reflexivity]].
    + rewrite nonempty_filter_iff. split; intros (row & Hin & H);
        exists row; (split; [exact Hin|]); now apply Ha.
    + intros row. simpl. rewrite filter_In, Ha. tauto.
Qed.

Lemma is_broken_iff_witness :
  (exists is_breached breach_data,
     fst (is_support_broken level1 table1) = Ok (is_breached, breach_data) /\
     (is_breached = true <->
      exists row, In row (rows table1) /\ 25 < fst row /\
                  (snd row < (301 # 3) - inject_Z 3)%Q) /\
     (forall row, In row (rows breach_data) <->
        In row (rows table1) /\ 25 < fst row /\
        (snd row < (301 # 3) - inject_Z 3)%Q) /\
     rows breach_data =
       filter (fun row => below (301 # 3) 3 row && (25 <? fst row))
         (rows table1)) /\
  (exists is_breached breach_data,
     fst (is_resistance_broken level1 table1) = Ok (is_breached, breach_data) /\
     (is_breached = true <->
      exists row, In row (rows table1) /\ 25 < fst row /\
                  ((301 # 3) + inject_Z 3 < snd row)%Q) /\
     (forall row, In row (rows breach_data) <->
        In row (rows table1) /\ 25 < fst row /\
        ((301 # 3) + inject_Z 3 < snd row)%Q) /\
     rows breach_data =
       filter (fun row => above (301 # 3) 3 row && (25 <? fst row))
         (rows table1)).
Proof.
  apply (is_broken_iff level1 table1 25 (301 # 3) 3 level1_latest); reflexivity.
Defined.

(** The example of the specification: a resistance breached by one bar
    after its last touch. *)
Example is_resistance_broken_one_bar :
  fst (is_resistance_broken level1 table1) =
  Ok (true, mkDataFrame date_price [(31, 120#1)]).
Proof. reflexivity. Qed.

Lemma mean_some data : data <> [] -> exists avg_price, mean data = Ok avg_price.
Proof. destruct data; [contradiction|]. simpl. eauto. Qed.

Lemma values_nonempty {K V : Type} (d : list (K * V)) : d <> [] -> values d <> [].
Proof. destruct d; [contradiction | discriminate]. Qed.

Lemma keys_nonempty {K V : Type} (d : list (K * V)) : d <> [] -> keys d <> [].
Proof. destruct d; [contradiction | discriminate]. Qed.

(** C10: each of the four functions leaves the rows of the caller's table
    as they are and relabels its columns ['date', 'price'] in place; the
    new labels are those of the table after the call, also when the call
    ends in the [ValueError] of an empty price column. *)
Theorem validator_renames_columns level table :
  snd level <> [] ->
  snd (is_support_valid level table) = mkDataFrame date_price (rows table) /\
  snd (is_support_broken level table) = mkDataFrame date_price (rows table) /\
  snd (is_resistance_valid level table) = mkDataFrame date_price (rows table) /\
  snd (is_resistance_broken level table) = mkDataFrame date_price (rows table).
Proof.
  intros Hne.
  destruct (index_first_some _ (keys_nonempty _ Hne)) as [latest Hl].
  destruct (index_last_some _ (keys_nonempty _ Hne)) as [earliest He].
  destruct (mean_some _ (values_nonempty _ Hne)) as [avg_price Hm].
  unfold is_support_valid, is_support_broken, is_resistance_valid,
    is_resistance_broken, bind, lift, ret, set_columns, get_price, loc.
  rewrite Hl, He, Hm. simpl.
  destruct (calculate_tolerance (values (rows table))); simpl; auto.
Qed.

Lemma validator_renames_columns_witness :
  snd (is_support_valid level1 table1) = mkDataFrame date_price (rows table1) /\
  snd (is_support_broken level1 table1) = mkDataFrame date_price (rows table1) /\
  snd (is_resistance_valid level1 table1) = mkDataFrame date_price (rows table1) /\
  snd (is_resistance_broken level1 table1) = mkDataFrame date_price (rows table1).
Proof.
  apply (validator_renames_columns level1 table1). discriminate.
Defined.

(** Outside the domain of the validator: a level without touches raises
    [IndexError] before the table is touched, and an empty table raises
    the [ValueError] of [max] once its columns are relabelled. *)
Lemma is_support_valid_no_touch n table :
  is_support_valid (n, []) table = (Raise IndexError, table).
Proof. reflexivity. Qed.

Lemma is_support_valid_empty_table level cols :
  snd level <> [] ->
  is_support_valid level (mkDataFrame cols []) =
  (Raise ValueError, mkDataFrame date_price []).
Proof.
  intros Hne.
  destruct (index_first_some _ (keys_nonempty _ Hne)) as [latest Hl].
  destruct (index_last_some _ (keys_nonempty _ Hne)) as [earliest He].
  destruct (mean_some _ (values_nonempty _ Hne)) as [avg_price Hm].
  unfold is_support_valid, bind, lift. rewrite Hl, He, Hm. reflexivity.
Qed.

(* ================================================================== *)
(** ** Level record builder *)

(** The example of the specification: touches on days 0, 10 and 25. *)
Example Support_init_example :
  exists s,
    Support_init 40 (3, [(0, 100#1); (10, 102#1); (25, 99#1)]) false
      (mkDataFrame date_price []) (39, 101#1) "ACME" = Ok s /\
    num_touches s = 3 /\ avg s = (301 # 3)%Q /\
    num_days_bw_tests s = [10; 15] /\ time_period_int s = 25.
Proof. eexists. split; [reflexivity|]. repeat split. Qed.

Example descending_pipeline :
  process_groups (values descending_table) (find_supports descending_table)
  = Ok [descending_level].
Proof. reflexivity. Qed.

Example descending_level_valid :
  fst (is_support_valid descending_level (mkDataFrame date_price descending_table))
  = Ok true.
Proof. reflexivity. Qed.

Lemma days_between_length dates_list :
  length (days_between dates_list) = (length dates_list - 1)%nat.
Proof. unfold days_between. now rewrite length_map, length_seq. Qed.

Lemma sorted_nth_le (l : list Z) :
  Sorted Z.le l ->
  forall i, (S i < length l)%nat -> nth i l 0 <= nth (S i) l 0.
Proof.
  induction 1 as [|a l Hs IH Hhd]; intros i Hi; [simpl in Hi; lia|].
  destruct i as [|i].
  - destruct Hhd as [|b l' Hab]; [simpl in Hi; lia | exact Hab].
  - simpl in Hi. change (nth i l 0 <= nth (S i) l 0). apply IH. lia.
Qed.

Lemma days_between_nonneg dates_list :
  Sorted Z.le dates_list -> Forall (fun d => 0 <= d) (days_between dates_list).
Proof.
  intros Hs. unfold days_between. apply Forall_forall. intros d Hd.
  apply in_map_iff in Hd as (i & <- & Hi). apply in_seq in Hi.
  pose proof (sorted_nth_le _ Hs i). lia.
Qed.

(** Sorting rows that are already in ascending date order changes nothing. *)
Lemma py_sorted_ascending (d : list (Z * Q)) :
  Sorted Z.le (keys d) -> py_sorted (fun a b : Z * Q => fst a <? fst b) d = d.
Proof.
  unfold keys. induction d as [|a d IH]; intros Hs; [reflexivity|].
  simpl in Hs. inversion Hs as [|? ? Hs' Hhd]; subst.
  simpl. rewrite (IH Hs'). destruct d as [|b d]; [reflexivity|].
  simpl. inversion Hhd as [|? ? Hab]; subst.
  destruct (Z.ltb_spec (fst b) (fst a)); [lia | reflexivity].
Qed.

(** On a pair as the clusterer builds it from a table in ascending date
    order (the touch count is the size of the mapping and the mapping lists
    the touches by ascending date), the gaps are [touch_count - 1]
    non-negative day counts between consecutive rows of [data]. *)
Lemma Support_init_gaps_ascending today data_tuple is_breached breach_data
    most_recents stock_name s :
  Support_init today data_tuple is_breached breach_data most_recents
    stock_name = Ok s ->
  fst data_tuple = len (snd data_tuple) ->
  Sorted Z.le (keys (snd data_tuple)) ->
  len (num_days_bw_tests s) = num_touches s - 1 /\
  Forall (fun d => 0 <= d) (num_days_bw_tests s) /\
  num_days_bw_tests s = days_between (keys (rows (data s))).
Proof.
  unfold Support_init. intros H Hn Hs.
  rewrite (py_sorted_ascending _ Hs) in H.
  destruct (index_last (keys (snd data_tuple))) as [most|e] eqn:El;
    [|discriminate].
  destruct (index_first (keys (snd data_tuple))) as [least|e] eqn:Ef;
    [|discriminate].
  simpl in H. destruct (timedelta_days (today - most)); [|discriminate].
  simpl in H. injection H as <-. simpl.
  split; [|split; [now apply days_between_nonneg | reflexivity]].
  unfold len. rewrite days_between_length, Hn. unfold len, keys.
  rewrite length_map.
  destruct (snd data_tuple); [discriminate Ef | cbn [length]; lia].
Qed.

(** C6 on [descending_table]: the clusterer builds from it one level whose
    mapping lists the touches by descending date, the level is valid, and
    the [Support] built from it has [data] sorted by ascending date (3, 7,
    11) and a time period of 8 days, yet its gaps are taken in the order of
    the mapping and are negative. *)
Theorem Support_init_descending_gaps :
  process_groups (values descending_table) (find_supports descending_table)
    = Ok [descending_level] /\
  exists s,
    fst (create_support_objects_list 40 [descending_level] (13, 110#1) "ACME"
           (mkDataFrame ["date"; "low"]%string descending_table)) = Ok [s] /\
    Support_init 40 descending_level false (mkDataFrame date_price [])
      (13, 110#1) "ACME" = Ok s /\
    num_touches s = 3 /\
    keys (rows (data s)) = [3; 7; 11] /\
    time_period_int s = 8 /\
    num_days_bw_tests s = [-4; -4] /\
    ~ Forall (fun d => 0 <= d) (num_days_bw_tests s).
Proof.
  split; [reflexivity|].
  eexists. split; [vm_compute; reflexivity|]. split; [reflexivity|].
  simpl. repeat split. intros H. inversion H; lia.
Qed.

(* ================================================================== *)
(** ** Stock aggregator *)

Lemma hd_error_rev_cons {A : Type} (a : A) l :
  l <> [] -> hd_error (rev (a :: l)) = hd_error (rev l).
Proof.
  intros Hne. simpl. destruct (rev l) eqn:E; [|reflexivity].
  apply (f_equal (@rev A)) in E. rewrite rev_involutive in E. contradiction.
Qed.

Lemma insert_sorted_nonempty {A : Type} (before : A -> A -> bool) x l :
  insert_sorted before x l <> [].
Proof. destruct l; simpl; [|destruct (before a x)]; discriminate. Qed.

Lemma insert_sorted_last {A : Type} (before : A -> A -> bool) x l :
  hd_error (rev (insert_sorted before x l)) =
  if forallb (fun y => before y x) l then Some x else hd_error (rev l).
Proof.
  induction l as [|y r IH]; [reflexivity|].
  cbn [insert_sorted forallb]. destruct (before y x) eqn:E.
  - rewrite hd_error_rev_cons by apply insert_sorted_nonempty.
    rewrite IH. cbn [andb].
    destruct (forallb (fun y => before y x) r) eqn:Er; [reflexivity|].
    rewrite hd_error_rev_cons; [reflexivity|].
    intros ->. discriminate.
  - cbn [andb]. now rewrite hd_error_rev_cons by discriminate.
Qed.

Lemma sorted_last_highest l :
  l <> [] ->
  exists s,
    hd_error (rev (py_sorted (fun x y => Qlt_bool (avg x) (avg y)) l)) = Some s /\
    highest_last s l.
Proof.
  induction l as [|x xs IH]; [contradiction|]. intros _.
  cbn [py_sorted fold_right]. rewrite insert_sorted_last.
  fold (py_sorted (fun x y => Qlt_bool (avg x) (avg y)) xs).
  destruct (forallb _ _) eqn:E.
  - exists x. split; [reflexivity|]. exists [], xs. split; [reflexivity|].
    split; [intros ? []|]. intros y Hy. rewrite forallb_forall in E.
    apply Qlt_bool_iff, E, py_sorted_in, Hy.
  - assert (Hex : exists y, In y xs /\ (avg x <= avg y)%Q).
    { destruct (forallb_forall (fun y => Qlt_bool (avg y) (avg x))
                 (py_sorted (fun x y => Qlt_bool (avg x) (avg y)) xs)) as [_ Hf].
      destruct (existsb (fun y => negb (Qlt_bool (avg y) (avg x)))
                 (py_sorted (fun x y => Qlt_bool (avg x) (avg y)) xs)) eqn:Ee.
      - apply existsb_exists in Ee as (y & Hy & Hn).
        exists y. split; [now apply py_sorted_in in Hy|].
        unfold Qlt_bool in Hn. rewrite negb_involutive in Hn.
        now apply Qle_bool_iff.
      - rewrite Hf in E; [discriminate|]. intros y Hy.
        destruct (Qlt_bool (avg y) (avg x)) eqn:Ey; trivial.
        assert (existsb (fun y => negb (Qlt_bool (avg y) (avg x)))
                 (py_sorted (fun x y => Qlt_bool (avg x) (avg y)) xs) = true).
        { apply existsb_exists. exists y. now rewrite Ey. }
        congruence. }
    destruct Hex as (y & Hy & Hxy).
    destruct IH as (s & Hs & pre & post & Hl & Hpre & Hpost).
    { intros ->. destruct Hy. }
    exists s. split; [exact Hs|]. exists (x :: pre), post.
    split; [now rewrite Hl|]. split; [|exact Hpost].
    assert (Hys : (avg y <= avg s)%Q).
    { rewrite Hl in Hy. apply in_app_or in Hy as [Hy|[<-|Hy]].
      - now apply Hpre.
      - apply Qle_refl.
      - now apply Qlt_le_weak, Hpost. }
    intros z [<-|Hz]; [|now apply Hpre].
    eapply Qle_trans; eauto.
Qed.

(** C9: with both lists non-empty the final support and the final
    resistance are the elements of highest [avg] (the later one among
    ties), the stock is range bound and the range width is the difference
    of the two averages; with a list empty or omitted it is not range bound
    and the range width is [None]. *)
Theorem Stock_init_range stock_name :
  (forall supports resistances,
     supports <> [] -> resistances <> [] ->
     let st := Stock_init stock_name (Some supports) (Some resistances) in
     exists fs fr,
       Stock.final_support st = Some fs /\
       Stock.final_resistance st = Some fr /\
       highest_last fs supports /\
       highest_last fr resistances /\
       Stock.is_range_bound st = true /\
       Stock.range_width st = Some (avg fr - avg fs)%Q) /\
  (forall supports resistances,
     supports = None \/ supports = Some [] \/
     resistances = None \/ resistances = Some [] ->
     let st := Stock_init stock_name supports resistances in
     Stock.is_range_bound st = false /\ Stock.range_width st = None).
Proof.
  split.
  - intros supports resistances Hs Hr st.
    destruct (sorted_last_highest supports Hs) as (fs & Hfs & Hhs).
    destruct (sorted_last_highest resistances Hr) as (fr & Hfr & Hhr).
    exists fs, fr. subst st. unfold Stock_init.
    assert (Es : final_level (Some supports) = Some fs)
      by (destruct supports; [contradiction | exact Hfs]).
    assert (Er : final_level (Some resistances) = Some fr)
      by (destruct resistances; [contradiction | exact Hfr]).
    rewrite Es, Er. simpl. repeat split; trivial.
  - intros supports resistances H st. subst st. unfold Stock_init.
    destruct H as [-> | [-> | [-> | ->]]]; simpl;
      try destruct (final_level supports); simpl; auto.
Qed.

Lemma Stock_init_range_witness :
  let st := Stock_init "ACME" (Some [support90]) (Some [resistance110]) in
  exists fs fr,
    Stock.final_support st = Some fs /\
    Stock.final_resistance st = Some fr /\
    highest_last fs [support90] /\
    highest_last fr [resistance110] /\
    Stock.is_range_bound st = true /\
    Stock.range_width st = Some (avg fr - avg fs)%Q.
Proof.
  apply (proj1 (Stock_init_range "ACME") [support90] [resistance110]);
    discriminate.
Defined.

(** The example of the specification: averages 90 and 110 give a range
    width of 20. *)
Example Stock_init_example :
  let st := Stock_init "ACME" (Some [support90]) (Some [resistance110]) in
  Stock.is_range_bound st = true /\
  Stock.range_width st = Some ((110#1) - (90#1))%Q.
Proof. split; reflexivity. Qed.

(** Among ties the later element is the final one. *)
Example final_level_tie :
  final_level (Some [resistance110; support90;
                     mkSupport "TIE" 4 (mkDataFrame date_price []) (40, 100#1)
                       (110#1) (-10#1) 25 15 [10; 15] false
                       (mkDataFrame date_price [])]) =
  Some (mkSupport "TIE" 4 (mkDataFrame date_price []) (40, 100#1)
          (110#1) (-10#1) 25 15 [10; 15] false (mkDataFrame date_price [])).
Proof. reflexivity. Qed.

(* ================================================================== *)
(** ** Condition filter *)

Example process_conditions_example :
  process_conditions
    ["nums > 3"; "Duration < 200"; "days_between >= 3 and average > 50";
     "num_days_since = 4"; "days_between.increasing"]%string "support" =
  Ok ["support.num_touches > 3"; "support.time_period_int < 200";
      "all(support.num_days_bw_tests >= 3) and support.avg > 50";
      "support.days_since_last_tested == 4";
      "is_increasing(support.num_days_bw_tests)"]%string.
Proof. vm_compute. reflexivity. Qed.

Section FilterFacts.
Variable py_eval : string -> Support -> result bool.

Lemma check_conditions_total stack level :
  (forall c, In c stack -> exists b, py_eval c level = Ok b) ->
  fst (check_conditions py_eval stack level) =
  Ok (negb (forallb (satisfies py_eval level) stack)).
Proof.
  induction stack as [|c stack IH]; intros H; [reflexivity|].
  simpl. unfold satisfies at 1. destruct (H c) as [b Hb]; [now left|].
  rewrite Hb. destruct b; [|reflexivity].
  destruct (check_conditions py_eval stack level) as [r log] eqn:E. simpl in *.
  apply IH. intros c' Hc'. apply H. now right.
Qed.

Lemma forallb_rev {A : Type} (f : A -> bool) l :
  forallb f (rev l) = forallb f l.
Proof.
  induction l as [|a l IH]; [reflexivity|].
  simpl. rewrite forallb_app, IH. simpl. rewrite andb_true_r.
  apply andb_comm.
Qed.

Lemma filter_loop_total conditions_list is_breached' ignore_is_breach levels :
  (forall c s, In c conditions_list -> In s levels ->
     exists b, py_eval c s = Ok b) ->
  fst (filter_loop py_eval conditions_list is_breached' ignore_is_breach levels) =
  Ok (filter (passes py_eval conditions_list is_breached' ignore_is_breach) levels).
Proof.
  induction levels as [|level rest IH]; intros H; [reflexivity|].
  assert (IH' : fst (filter_loop py_eval conditions_list is_breached'
                       ignore_is_breach rest) =
                Ok (filter (passes py_eval conditions_list is_breached'
                              ignore_is_breach) rest)).
  { apply IH. intros c s Hc Hs. apply H; simpl; auto. }
  assert (Hc : fst (check_conditions py_eval (rev conditions_list) level) =
               Ok (negb (forallb (satisfies py_eval level) conditions_list))).
  { rewrite check_conditions_total, forallb_rev; [reflexivity|].
    intros c Hc. apply H; [now apply in_rev | now left]. }
  cbn [filter_loop filter]. unfold passes at 1.
  destruct ignore_is_breach; cbn [negb orb].
  - destruct (check_conditions py_eval (rev conditions_list) level) as [r log].
    simpl in Hc. subst r.
    destruct (filter_loop py_eval conditions_list is_breached' true rest) as [r' log'].
    simpl in IH'. subst r'. cbn [fst andb].
    now destruct (forallb (satisfies py_eval level) conditions_list).
  - destruct (Bool.eqb (is_breached level) is_breached'); cbn [andb].
    + destruct (check_conditions py_eval (rev conditions_list) level) as [r log].
      simpl in Hc. subst r.
      destruct (filter_loop py_eval conditions_list is_breached' false rest)
        as [r' log'].
      simpl in IH'. subst r'. cbn [fst].
      now destruct (forallb (satisfies py_eval level) conditions_list).
    + exact IH'.
Qed.
End FilterFacts.

Lemma process_conditions_each level_type args : forall conditions_list,
  process_conditions args level_type = Ok conditions_list ->
  Forall2 (fun condition condition' =>
             process_condition level_type condition = Ok condition')
    args conditions_list.
Proof.
  induction args as [|a args IH]; intros cl H; simpl in H.
  - injection H as <-. constructor.
  - destruct (process_condition level_type a) as [c|e] eqn:Ea; [|discriminate].
    simpl in H.
    destruct (process_conditions args level_type) as [cl'|e]; [|discriminate].
    simpl in H. injection H as <-. constructor; auto.
Qed.

Lemma passes_iff py_eval conditions_list is_breached' level :
  passes py_eval conditions_list is_breached' false level = true <->
  is_breached level = is_breached' /\
  forall c, In c conditions_list -> py_eval c level = Ok true.
Proof.
  unfold passes. cbn [orb]. rewrite andb_true_iff, forallb_forall.
  rewrite Bool.eqb_true_iff. unfold satisfies.
  split; intros [Hb Hc]; (split; [exact Hb|]); intros c Hin.
  - specialize (Hc c Hin). destruct (py_eval c level) as [[|]|]; trivial;
      discriminate.
  - now rewrite (Hc c Hin).
Qed.

(** C7: without condition strings and with the default keyword arguments
    the filter returns the records that are not breached; with condition
    strings (and [ignore_is_breach] left at its default) it returns, in
    order, the records that have the required [is_breached] value and
    satisfy every condition. *)
Theorem filter_conjunction (py_eval : string -> Support -> result bool) :
  (forall supports,
     fst (filter_supports py_eval supports [] false false) =
     Ok (filter (fun s => negb (is_breached s)) supports)) /\
  (forall resistances,
     fst (filter_resistances py_eval resistances [] false false) =
     Ok (filter (fun s => negb (is_breached s)) resistances)) /\
  (forall supports args is_breached' conditions_list,
     process_conditions args "support" = Ok conditions_list ->
     (forall c s, In c conditions_list -> In s supports ->
        exists b, py_eval c s = Ok b) ->
     exists filtered,
       fst (filter_supports py_eval supports args is_breached' false) =
       Ok filtered /\
       filtered =
         filter (passes py_eval conditions_list is_breached' false) supports /\
       forall s, In s filtered <->
         In s supports /\ is_breached s = is_breached' /\
         forall c, In c conditions_list -> py_eval c s = Ok true) /\
  (forall resistances args is_breached' conditions_list,
     process_conditions args "resistance" = Ok conditions_list ->
     (forall c s, In c conditions_list -> In s resistances ->
        exists b, py_eval c s = Ok b) ->
     exists filtered,
       fst (filter_resistances py_eval resistances args is_breached' false) =
       Ok filtered /\
       filtered =
         filter (passes py_eval conditions_list is_breached' false)
           resistances /\
       forall s, In s filtered <->
         In s resistances /\ is_breached s = is_breached' /\
         forall c, In c conditions_list -> py_eval c s = Ok true).
Proof.
  assert (Hdefault : forall level_type levels,
    fst (filter_levels py_eval level_type levels [] false false) =
    Ok (filter (fun s => negb (is_breached s)) levels)).
  { intros level_type levels. unfold filter_levels. cbn [process_conditions].
    rewrite filter_loop_total by (intros c s []).
    f_equal. apply filter_ext. intros s. unfold passes. simpl.
    now destruct (is_breached s). }
  assert (Hargs : forall level_type levels args is_breached' conditions_list,
    process_conditions args level_type = Ok conditions_list ->
    (forall c s, In c conditions_list -> In s levels ->
       exists b, py_eval c s = Ok b) ->
    exists filtered,
      fst (filter_levels py_eval level_type levels args is_breached' false) =
      Ok filtered /\
      filtered =
        filter (passes py_eval conditions_list is_breached' false) levels /\
      forall s, In s filtered <->
        In s levels /\ is_breached s = is_breached' /\
        forall c, In c conditions_list -> py_eval c s = Ok true).
  { intros level_type levels args is_breached' cl Hp He.
    eexists. unfold filter_levels. rewrite Hp.
    split; [now apply filter_loop_total|]. split; [reflexivity|].
    intros s. now rewrite filter_In, passes_iff. }
  repeat split.
  - intros. apply Hdefault.
  - intros. apply Hdefault.
  - intros. now apply Hargs.
  - intros. now apply Hargs.
Qed.

Lemma filter_conjunction_witness :
  exists filtered,
    fst (filter_supports example_eval [support90; support4]
           ["nums > 3"; "duration < 200"]%string false false) = Ok filtered /\
    filtered =
      filter (passes example_eval
                ["support.num_touches > 3"; "support.time_period_int < 200"]%string
                false false) [support90; support4] /\
    forall s, In s filtered <->
      In s [support90; support4] /\ is_breached s = false /\
      forall c,
        In c ["support.num_touches > 3"; "support.time_period_int < 200"]%string ->
        example_eval c s = Ok true.
Proof.
  apply (proj1 (proj2 (proj2 (filter_conjunction example_eval)))
           [support90; support4] ["nums > 3"; "duration < 200"]%string false).
  - vm_compute. reflexivity.
  - intros c s [<-|[<-|[]]] _; eexists; reflexivity.
Defined.

Example filter_supports_example :
  filter_supports example_eval [support90; support4]
    ["nums > 3"; "duration < 200"]%string false false =
  (Ok [support4],
   [("support.time_period_int < 200"%string, support90);
    ("support.num_touches > 3"%string, support90);
    ("support.time_period_int < 200"%string, support4);
    ("support.num_touches > 3"%string, support4)]).
Proof. vm_compute. reflexivity. Qed.

(** C8: each of the six condition strings is refused with a [ValueError]
    by [process_conditions], so that both filter functions raise it
    without one evaluation, whatever the records and the keyword
    arguments. *)
Theorem filter_rejects_conditions
    (py_eval : string -> Support -> result bool) levels
    (is_breached' ignore_is_breach : bool) :
  Forall
    (fun condition =>
       process_conditions [condition] "support" = Raise ValueError /\
       process_conditions [condition] "resistance" = Raise ValueError /\
       filter_supports py_eval levels [condition] is_breached'
         ignore_is_breach = (Raise ValueError, []) /\
       filter_resistances py_eval levels [condition] is_breached'
         ignore_is_breach = (Raise ValueError, []))
    ["average == 50"; "average >= 50"; "average <= 50"; "average != 50";
     "days_between == 3"; "days_between != 3"]%string.
Proof.
  repeat (apply Forall_cons || apply Forall_nil);
    unfold filter_supports, filter_resistances, filter_levels;
    repeat split; vm_compute; reflexivity.
Qed.

(* ================================================================== *)
(** * Further properties *)

(* ================================================================== *)
(** ** Tolerance model *)

Lemma fold_max_spec (r : list Q) : forall x,
  let m := fold_left (fun m y => if Qlt_bool m y then y else m) r x in
  (m = x \/ In m r) /\ (x <= m)%Q /\ forall y, In y r -> (y <= m)%Q.
Proof.
  induction r as [|y r IH]; intros x; simpl.
  - split; [now left|]. split; [apply Qle_refl | intros ? []].
  - destruct (IH (if Qlt_bool x y then y else x)) as (Hin & Hle & Hall).
    set (m := fold_left _ r _) in *.
    assert (Hx : (x <= (if Qlt_bool x y then y else x))%Q /\
                 (y <= (if Qlt_bool x y then y else x))%Q).
    { destruct (Qlt_bool x y) eqn:E.
      - apply Qlt_bool_iff in E. split; [now apply Qlt_le_weak | apply Qle_refl].
      - split; [apply Qle_refl|]. unfold Qlt_bool in E.
        apply negb_false_iff in E. now apply Qle_bool_iff. }
    destruct Hx as [Hx Hy]. split; [|split].
    + destruct Hin as [Hin|Hin]; [|now right; right].
      rewrite Hin. destruct (Qlt_bool x y); [right; now left | now left].
    + eapply Qle_trans; eauto.
    + intros z [<-|Hz]; [eapply Qle_trans; eauto | now apply Hall].
Qed.

Lemma fold_min_spec (r : list Q) : forall x,
  let m := fold_left (fun m y => if Qlt_bool y m then y else m) r x in
  (m = x \/ In m r) /\ (m <= x)%Q /\ forall y, In y r -> (m <= y)%Q.
Proof.
  induction r as [|y r IH]; intros x; simpl.
  - split; [now left|]. split; [apply Qle_refl | intros ? []].
  - destruct (IH (if Qlt_bool y x then y else x)) as (Hin & Hle & Hall).
    set (m := fold_left _ r _) in *.
    assert (Hx : ((if Qlt_bool y x then y else x) <= x)%Q /\
                 ((if Qlt_bool y x then y else x) <= y)%Q).
    { destruct (Qlt_bool y x) eqn:E.
      - apply Qlt_bool_iff in E. split; [now apply Qlt_le_weak | apply Qle_refl].
      - split; [apply Qle_refl|]. unfold Qlt_bool in E.
        apply negb_false_iff in E. now apply Qle_bool_iff. }
    destruct Hx as [Hx Hy]. split; [|split].
    + destruct Hin as [Hin|Hin]; [|now right; right].
      rewrite Hin. destruct (Qlt_bool y x); [right; now left | now left].
    + eapply Qle_trans; eauto.
    + intros z [<-|Hz]; [eapply Qle_trans; eauto | now apply Hall].
Qed.

Lemma py_max_spec items :
  items <> [] -> exists hi, py_max items = Ok hi /\ is_maximum hi items.
Proof.
  destruct items as [|x r]; [contradiction|]. intros _. simpl.
  destruct (fold_max_spec r x) as (Hin & Hle & Hall).
  eexists. split; [reflexivity|]. split.
  - destruct Hin as [->|Hin]; [now left | now right].
  - intros y [<-|Hy]; auto.
Qed.

Lemma py_min_spec items :
  items <> [] -> exists lo, py_min items = Ok lo /\ is_minimum lo items.
Proof.
  destruct items as [|x r]; [contradiction|]. intros _. simpl.
  destruct (fold_min_spec r x) as (Hin & Hle & Hall).
  eexists. split; [reflexivity|]. split.
  - destruct Hin as [->|Hin]; [now left | now right].
  - intros y [<-|Hy]; auto.
Qed.

Lemma is_maximum_unique hi hi' column :
  is_maximum hi column -> is_maximum hi' column -> (hi == hi')%Q.
Proof.
  intros [Hin H] [Hin' H']. apply Qle_antisym; auto.
Qed.

Lemma is_minimum_unique lo lo' column :
  is_minimum lo column -> is_minimum lo' column -> (lo == lo')%Q.
Proof.
  intros [Hin H] [Hin' H']. apply Qle_antisym; auto.
Qed.

Lemma Qle_bool_reflect x y : reflect (x <= y)%Q (Qle_bool x y).
Proof. apply iff_reflect. symmetry. apply Qle_bool_iff. Qed.

(** The spread of a column is the difference of its largest and its
    smallest value. *)
Lemma series_range_spec column hi lo :
  is_maximum hi column -> is_minimum lo column ->
  exists spread, series_range column = Ok spread /\ (spread == hi - lo)%Q.
Proof.
  intros Hhi Hlo.
  assert (Hne : column <> []) by (intros ->; destruct Hhi as [[] _]).
  destruct (py_max_spec column Hne) as (hi' & Emax & Hhi').
  destruct (py_min_spec column Hne) as (lo' & Emin & Hlo').
  unfold series_range. rewrite Emax, Emin. simpl.
  eexists. split; [reflexivity|].
  rewrite (is_maximum_unique _ _ _ Hhi' Hhi), (is_minimum_unique _ _ _ Hlo' Hlo).
  reflexivity.
Qed.

(** X1: [calculate_tolerance] maps the spread of the column (largest minus
    smallest value) to 3 up to 50, to 5 above 50 and up to 100, to 10 above
    100; on an empty column it raises the [ValueError] of [max]. *)
Theorem calculate_tolerance_tiers column hi lo :
  is_maximum hi column -> is_minimum lo column ->
  ((hi - lo <= 50)%Q -> calculate_tolerance column = Ok 3) /\
  ((50 < hi - lo)%Q -> (hi - lo <= 100)%Q -> calculate_tolerance column = Ok 5) /\
  ((100 < hi - lo)%Q -> calculate_tolerance column = Ok 10) /\
  calculate_tolerance [] = Raise ValueError.
Proof.
  intros Hhi Hlo.
  destruct (series_range_spec column hi lo Hhi Hlo) as (spread & Es & Heq).
  unfold calculate_tolerance. rewrite Es. simpl. rewrite <- Heq.
  unfold Qlt_bool.
  destruct (Qle_bool_reflect spread 50) as [H50|H50];
    destruct (Qle_bool_reflect spread 100) as [H100|H100]; simpl;
    repeat split; trivial; intros; exfalso;
    first [ contradiction
          | eapply Qlt_not_le; eassumption
          | eapply Qlt_not_le; [eassumption|];
            eapply Qle_trans; [eassumption | discriminate] ].
Qed.

Lemma calculate_tolerance_tiers_witness :
  ((150 - 99 <= 50)%Q -> calculate_tolerance [100; 101; 99; 150]%Q = Ok 3) /\
  ((50 < 150 - 99)%Q -> (150 - 99 <= 100)%Q ->
   calculate_tolerance [100; 101; 99; 150]%Q = Ok 5) /\
  ((100 < 150 - 99)%Q -> calculate_tolerance [100; 101; 99; 150]%Q = Ok 10) /\
  calculate_tolerance [] = Raise ValueError.
Proof.
  apply (calculate_tolerance_tiers [100; 101; 99; 150]%Q 150 99).
  - split; [simpl; auto|].
    intros x [<-|[<-|[<-|[<-|[]]]]]; discriminate.
  - split; [simpl; auto|].
    intros x [<-|[<-|[<-|[<-|[]]]]]; discriminate.
Defined.

(** X2: the test that [create_tolerance_function] returns holds exactly
    when the two values differ by the tolerance at most; it is reflexive
    and symmetric, and not transitive. *)
Theorem create_tolerance_function_relation column within :
  create_tolerance_function column = Ok within ->
  exists tolerance,
    calculate_tolerance column = Ok tolerance /\
    (forall a b, within a b = true <-> (Qabs (a - b) <= inject_Z tolerance)%Q) /\
    (forall a, within a a = true) /\
    (forall a b, within a b = within b a) /\
    (exists a b c, within a b = true /\ within b c = true /\ within a c = false).
Proof.
  unfold create_tolerance_function.
  destruct (calculate_tolerance column) as [tolerance|e] eqn:E; [|discriminate].
  cbn [rbind]. intros H.
  assert (Hw : within = fun value1 value2 =>
                 Qle_bool (Qabs (value1 - value2)) (inject_Z tolerance))
    by (symmetry; now injection H).
  clear H. subst within. exists tolerance.
  split; [reflexivity|].
  assert (Hpos : 0 < tolerance)
    by (destruct (calculate_tolerance_values _ _ E) as [->|[->| ->]]; lia).
  split; [|split; [|split]].
  - intros a b. apply Qle_bool_iff.
  - intros a.
    apply (proj2 (Qle_bool_iff (Qabs (a - a)) (inject_Z tolerance))).
    setoid_replace (a - a)%Q with 0%Q by ring. simpl.
    unfold Qle. simpl. lia.
  - intros a b. cbv beta. now rewrite Qabs_Qminus.
  - exists 0%Q, (inject_Z tolerance), (inject_Z (2 * tolerance)).
    destruct (calculate_tolerance_values _ _ E) as [-> | [-> | ->]];
      repeat split.
Qed.

Lemma create_tolerance_function_relation_witness :
  exists within, create_tolerance_function [100; 101; 99; 150]%Q = Ok within /\
  exists tolerance,
    calculate_tolerance [100; 101; 99; 150]%Q = Ok tolerance /\
    (forall a b, within a b = true <-> (Qabs (a - b) <= inject_Z tolerance)%Q) /\
    (forall a, within a a = true) /\
    (forall a b, within a b = within b a) /\
    (exists a b c, within a b = true /\ within b c = true /\ within a c = false).
Proof.
  eexists. split; [reflexivity|].
  apply (create_tolerance_function_relation [100; 101; 99; 150]%Q).
  reflexivity.
Defined.

(* ================================================================== *)
(** ** Level clusterer *)

Lemma two_of_nodup (l : list Z) :
  NoDup l -> (2 <= length l)%nat ->
  exists k1 k2, k1 <> k2 /\ In k1 l /\ In k2 l.
Proof.
  intros Hnd Hlen. destruct l as [|k1 [|k2 l]]; simpl in Hlen; try lia.
  exists k1, k2. inversion Hnd as [|? ? Hnotin _]; subst.
  split; [|simpl; auto]. intros ->. apply Hnotin. now left.
Qed.

Lemma common_keys_in keys1 keys2 k :
  In k (common_keys keys1 keys2) <-> In k keys1 /\ In k keys2.
Proof.
  unfold common_keys. now rewrite filter_In, existsb_key_in.
Qed.

(** X3: on dictionaries [at_least_2_common] holds exactly when two
    distinct keys belong to both, and it does not depend on the order of
    its arguments. *)
Theorem at_least_2_common_shared dict1 dict2 :
  dict_wf dict1 -> dict_wf dict2 ->
  (at_least_2_common dict1 dict2 = true <->
   exists k1 k2, k1 <> k2 /\
     In k1 (keys dict1) /\ In k1 (keys dict2) /\
     In k2 (keys dict1) /\ In k2 (keys dict2)) /\
  at_least_2_common dict1 dict2 = at_least_2_common dict2 dict1.
Proof.
  intros Hwf1 Hwf2. split; [|now apply at_least_2_common_sym].
  rewrite at_least_2_common_spec. split.
  - intros Hlen.
    destruct (two_of_nodup (common_keys (keys dict1) (keys dict2)))
      as (k1 & k2 & Hne & H1 & H2); [now apply NoDup_filter | exact Hlen|].
    apply common_keys_in in H1, H2. exists k1, k2. tauto.
  - intros (k1 & k2 & Hne & H1 & H1' & H2 & H2').
    change 2%nat with (length [k1; k2]). apply NoDup_incl_length.
    + constructor; [simpl; intuition|]. constructor; [intros []|constructor].
    + intros k [<-|[<-|[]]]; apply common_keys_in; auto.
Qed.

Lemma gA_wf : dict_wf (snd gA).
Proof.
  unfold dict_wf, keys. simpl.
  repeat (constructor; simpl; try (intuition discriminate)).
Qed.

Lemma gB_wf : dict_wf (snd gB).
Proof.
  unfold dict_wf, keys. simpl.
  repeat (constructor; simpl; try (intuition discriminate)).
Qed.

Lemma at_least_2_common_shared_witness :
  (at_least_2_common (snd gA) (snd gB) = true <->
   exists k1 k2, k1 <> k2 /\
     In k1 (keys (snd gA)) /\ In k1 (keys (snd gB)) /\
     In k2 (keys (snd gA)) /\ In k2 (keys (snd gB))) /\
  at_least_2_common (snd gA) (snd gB) = at_least_2_common (snd gB) (snd gA).
Proof.
  exact (at_least_2_common_shared (snd gA) (snd gB) gA_wf gB_wf).
Defined.

Lemma list_contains_app x l1 l2 :
  list_contains x (l1 ++ l2) = list_contains x l1 || list_contains x l2.
Proof. unfold list_contains. apply existsb_app. Qed.

Lemma remove_duplicates_covers_from values_list : forall acc x,
  Forall group_wf values_list ->
  (list_contains x acc = true \/ In x values_list) ->
  list_contains x
    (fold_left
       (fun unique_values_list v =>
          if list_contains v unique_values_list then unique_values_list
          else unique_values_list ++ [v]) values_list acc) = true.
Proof.
  induction values_list as [|v l IH]; intros acc x Hwf H; simpl.
  - destruct H as [H|[]]. exact H.
  - inversion Hwf as [|? ? Hv Hl]; subst. apply IH; [exact Hl|].
    destruct H as [H|[<-|H]]; [| |now right]; left.
    + destruct (list_contains v acc); [exact H|].
      rewrite list_contains_app, H. reflexivity.
    + destruct (list_contains v acc) eqn:E; [exact E|].
      rewrite list_contains_app. unfold list_contains at 2. simpl.
      rewrite (group_eqb_refl v Hv). now rewrite orb_true_r.
Qed.

(** X4: [remove_duplicates] returns elements of its input, of which no two
    are equal, and every element of the input is equal to one of them. *)
Theorem remove_duplicates_unique values_list :
  Forall group_wf values_list ->
  duplicate_free (remove_duplicates values_list) /\
  (forall y, In y (remove_duplicates values_list) -> In y values_list) /\
  (forall x, In x values_list ->
     list_contains x (remove_duplicates values_list) = true).
Proof.
  intros Hwf. split; [apply remove_duplicates_duplicate_free|].
  split; [apply remove_duplicates_incl|].
  intros x Hx. unfold remove_duplicates.
  apply remove_duplicates_covers_from; auto.
Qed.

Lemma remove_duplicates_unique_witness :
  duplicate_free (remove_duplicates [gA; gB; gA; gC]) /\
  (forall y, In y (remove_duplicates [gA; gB; gA; gC]) ->
     In y [gA; gB; gA; gC]) /\
  (forall x, In x [gA; gB; gA; gC] ->
     list_contains x (remove_duplicates [gA; gB; gA; gC]) = true).
Proof.
  apply (remove_duplicates_unique [gA; gB; gA; gC]).
  repeat apply Forall_cons; try apply Forall_nil;
    unfold group_wf, dict_wf, keys; simpl;
    repeat (constructor; simpl; try (intuition discriminate)).
Defined.

Lemma manipulate_groups_invariant_of tolerance_groups :
  Forall dict_wf (values tolerance_groups) ->
  let l := manipulate_groups tolerance_groups in
  Forall group_wf l /\ duplicate_free l /\ sorted_by_touches l.
Proof.
  intros Hwf l. subst l. unfold manipulate_groups.
  set (index_groups :=
         map (fun value : list (Z * Q) => (len value, value))
           (filter (fun value => 3 <=? len value) (values tolerance_groups))).
  assert (Hu : Forall group_wf (remove_duplicates index_groups)).
  { apply Forall_forall. intros g Hg.
    apply remove_duplicates_incl in Hg. unfold index_groups in Hg.
    apply in_map_iff in Hg as (value & <- & Hv).
    apply filter_In in Hv as [Hv _]. rewrite Forall_forall in Hwf.
    now apply Hwf. }
  split; [|split].
  - apply Forall_forall. intros g Hg. apply py_sorted_in in Hg.
    rewrite Forall_forall in Hu. auto.
  - apply py_sorted_duplicate_free; [exact Hu|].
    apply remove_duplicates_duplicate_free.
  - apply (py_sorted_descending (fun g : Z * list (Z * Q) => fst g)).
Qed.

Lemma manipulate_groups_covers tolerance_groups value :
  Forall dict_wf (values tolerance_groups) ->
  In value (values tolerance_groups) -> 3 <= len value ->
  list_contains (len value, value) (manipulate_groups tolerance_groups) = true.
Proof.
  intros Hwf Hv Hlen. unfold manipulate_groups.
  set (index_groups :=
         map (fun value : list (Z * Q) => (len value, value))
           (filter (fun value => 3 <=? len value) (values tolerance_groups))).
  assert (Hin : In (len value, value) index_groups).
  { unfold index_groups. apply in_map_iff. exists value.
    split; [reflexivity|]. apply filter_In. split; [exact Hv|].
    now apply Z.leb_le. }
  assert (Hiw : Forall group_wf index_groups).
  { apply Forall_forall. intros g Hg. unfold index_groups in Hg.
    apply in_map_iff in Hg as (v & <- & Hv').
    apply filter_In in Hv' as [Hv' _]. rewrite Forall_forall in Hwf.
    now apply Hwf. }
  assert (Hc : list_contains (len value, value)
                 (remove_duplicates index_groups) = true).
  { unfold remove_duplicates. apply remove_duplicates_covers_from; auto. }
  unfold list_contains in *.
  apply existsb_exists in Hc as (y & Hy & Hyx).
  apply existsb_exists. exists y. split; [|exact Hyx].
  now apply py_sorted_in.
Qed.

(** X5: [manipulate_groups] returns a list by descending touch count, free
    of duplicates, of the groups (length, mapping) of the mappings that
    have 3 entries or more; every such mapping is in the list. *)
Theorem manipulate_groups_sorted_unique tolerance_groups :
  Forall dict_wf (values tolerance_groups) ->
  let l := manipulate_groups tolerance_groups in
  sorted_by_touches l /\ duplicate_free l /\
  (forall g, In g l ->
     In (snd g) (values tolerance_groups) /\ fst g = len (snd g) /\ 3 <= fst g) /\
  (forall value, In value (values tolerance_groups) -> 3 <= len value ->
     list_contains (len value, value) l = true).
Proof.
  intros Hwf l.
  destruct (manipulate_groups_invariant_of tolerance_groups Hwf)
    as (Hgw & Hdf & Hs).
  fold l in Hgw, Hdf, Hs. split; [exact Hs|]. split; [exact Hdf|]. split.
  - intros g Hg. subst l. unfold manipulate_groups in Hg.
    apply py_sorted_in, remove_duplicates_incl, in_map_iff in Hg
      as (value & <- & Hv).
    apply filter_In in Hv as [Hv Hlen]. simpl. repeat split; trivial. lia.
  - intros value Hv Hlen. subst l. now apply manipulate_groups_covers.
Qed.

Lemma manipulate_groups_sorted_unique_witness :
  let l := manipulate_groups [(100 # 1, snd gA); (5 # 1, [(9, 5 # 1)])] in
  sorted_by_touches l /\ duplicate_free l /\
  (forall g, In g l ->
     In (snd g) (values [(100 # 1, snd gA); (5 # 1, [(9, 5 # 1)])]) /\
     fst g = len (snd g) /\ 3 <= fst g) /\
  (forall value,
     In value (values [(100 # 1, snd gA); (5 # 1, [(9, 5 # 1)])]) ->
     3 <= len value -> list_contains (len value, value) l = true).
Proof.
  apply (manipulate_groups_sorted_unique
           [(100 # 1, snd gA); (5 # 1, [(9, 5 # 1)])]).
  repeat apply Forall_cons; try apply Forall_nil;
    unfold dict_wf, keys; simpl;
    repeat (constructor; simpl; try (intuition discriminate)).
Defined.

(** X6: no two groups that [process_groups] returns share two touch dates
    or more, unless they are equal, and a further pass of
    [remove_redundant_groups] over the result changes nothing. *)
Theorem process_groups_no_overlap series possible_levels_values
    index_groups_final :
  process_groups series possible_levels_values = Ok index_groups_final ->
  (forall g1 g2, In g1 index_groups_final -> In g2 index_groups_final ->
     group_eqb g1 g2 = false ->
     at_least_2_common (snd g1) (snd g2) = false) /\
  (forall g1 g2, In g1 index_groups_final -> In g2 index_groups_final ->
     g1 <> g2 -> at_least_2_common (snd g1) (snd g2) = false) /\
  remove_redundant_groups index_groups_final = index_groups_final.
Proof.
  intros H.
  destruct (process_groups_stable _ _ _ H) as [Hst Hfix].
  assert (Hne : forall g1 g2, In g1 index_groups_final ->
                  In g2 index_groups_final -> group_eqb g1 g2 = false ->
                  at_least_2_common (snd g1) (snd g2) = false).
  { intros g1 g2 H1 H2 E. specialize (Hst g1 g2 H1 H2).
    unfold redundant_with in Hst. now rewrite E in Hst. }
  split; [exact Hne|]. split; [|exact Hfix].
  unfold process_groups in H.
  destruct (create_tolerance_function series) as [within|e]; [|discriminate].
  simpl in H. injection H as <-.
  destruct (manipulate_groups_invariant possible_levels_values within)
    as (Hwf & Hdf & _).
  set (l := manipulate_groups
              (create_tolerance_group possible_levels_values within)) in *.
  rewrite Forall_forall in Hwf.
  intros g1 g2 H1 H2 Hneq.
  pose proof (remove_redundant_groups_incl _ _ H1) as H1'.
  pose proof (remove_redundant_groups_incl _ _ H2) as H2'.
  destruct (ForallOrdPairs_In Hdf g1 g2 H1' H2') as [E|[E|E]];
    [contradiction| |].
  - now apply Hne.
  - apply Hne; trivial. rewrite group_eqb_sym_eq; auto.
Qed.

Lemma process_groups_no_overlap_witness :
  let index_groups_final :=
    [(4, [(1, 100#1); (2, 101#1); (3, 99#1); (4, 100#1)]);
     (3, [(5, 108#1); (6, 109#1); (7, 110#1)])] in
  (forall g1 g2, In g1 index_groups_final -> In g2 index_groups_final ->
     group_eqb g1 g2 = false ->
     at_least_2_common (snd g1) (snd g2) = false) /\
  (forall g1 g2, In g1 index_groups_final -> In g2 index_groups_final ->
     g1 <> g2 -> at_least_2_common (snd g1) (snd g2) = false) /\
  remove_redundant_groups index_groups_final = index_groups_final.
Proof.
  apply (process_groups_no_overlap [100#1; 101#1; 99#1; 150#1]
           [(1, 100#1); (2, 101#1); (3, 99#1); (4, 100#1);
            (5, 108#1); (6, 109#1); (7, 110#1)]).
  vm_compute. reflexivity.
Defined.

(** *** Lookup after insertion *)

Section DictFacts.
Context {K V : Type} (keqb : K -> K -> bool).
Hypothesis keqb_refl : forall k, keqb k k = true.
Hypothesis keqb_sym : forall k k', keqb k k' = true -> keqb k' k = true.
Hypothesis keqb_trans :
  forall k1 k2 k3, keqb k1 k2 = true -> keqb k2 k3 = true -> keqb k1 k3 = true.

Lemma dict_get_set (d : list (K * V)) k v k' :
  dict_get keqb (dict_set keqb d k v) k' =
  if keqb k k' then Some v else dict_get keqb d k'.
Proof.
  induction d as [|[k0 v0] d IH]; simpl; [reflexivity|].
  destruct (keqb k0 k) eqn:E0; simpl.
  - destruct (keqb k0 k') eqn:E1.
    + now rewrite (keqb_trans _ _ _ (keqb_sym _ _ E0) E1).
    + destruct (keqb k k') eqn:E2; [|reflexivity].
      rewrite (keqb_trans _ _ _ E0 E2) in E1. discriminate.
  - rewrite IH. destruct (keqb k0 k') eqn:E1; [|reflexivity].
    destruct (keqb k k') eqn:E2; [|reflexivity].
    rewrite (keqb_trans _ _ _ E1 (keqb_sym _ _ E2)) in E0. discriminate.
Qed.

Lemma dict_get_equal_keys (d : list (K * V)) k k' :
  keqb k k' = true -> dict_get keqb d k = dict_get keqb d k'.
Proof.
  intros E. induction d as [|[k0 v0] d IH]; simpl; [reflexivity|].
  destruct (keqb k0 k) eqn:E0, (keqb k0 k') eqn:E1; trivial.
  - rewrite (keqb_trans _ _ _ E0 E) in E1. discriminate.
  - rewrite (keqb_trans _ _ _ E1 (keqb_sym _ _ E)) in E0. discriminate.
Qed.

Lemma dict_get_some_entry (d : list (K * V)) k v :
  dict_get keqb d k = Some v -> exists k0, In (k0, v) d /\ keqb k0 k = true.
Proof.
  induction d as [|[k0 v0] d IH]; simpl; [discriminate|].
  destruct (keqb k0 k) eqn:E0; intros H.
  - injection H as ->. exists k0. auto.
  - destruct (IH H) as (k1 & Hin & Hk). exists k1. auto.
Qed.

Lemma dict_set_entry (d : list (K * V)) k v k0 x :
  In (k0, x) (dict_set keqb d k v) ->
  In (k0, x) d \/ (x = v /\ keqb k0 k = true).
Proof.
  induction d as [|[k1 v1] d IH]; simpl.
  - intros [H|[]]. injection H as <- <-. right. auto.
  - destruct (keqb k1 k) eqn:E1; simpl.
    + intros [H|H]; [|auto]. injection H as <- <-. right. auto.
    + intros [H|H]; [auto|]. destruct (IH H); auto.
Qed.
End DictFacts.

Lemma Zeqb_sym (x y : Z) : (x =? y) = true -> (y =? x) = true.
Proof. rewrite !Z.eqb_eq. auto. Qed.

Lemma Zeqb_trans (x y z : Z) :
  (x =? y) = true -> (y =? z) = true -> (x =? z) = true.
Proof. rewrite !Z.eqb_eq. congruence. Qed.

Lemma fold_left_establish {A B : Type} (P Q : A -> Prop) (f : A -> B -> A) x :
  (forall acc y, P acc -> P (f acc y)) ->
  (forall acc y, Q acc -> Q (f acc y)) ->
  (forall acc, Q acc -> P (f acc x)) ->
  forall l init, Q init -> In x l -> P (fold_left f l init).
Proof.
  intros HP HQ Hx. induction l as [|y l IH]; intros init Hi Hin; [destruct Hin|].
  simpl. destruct Hin as [->|Hin].
  - apply fold_left_invariant; auto.
  - apply IH; auto.
Qed.

Lemma fold_left_invariant_in {A B : Type} (P : A -> Prop) (f : A -> B -> A) l0 :
  (forall acc x, In x l0 -> P acc -> P (f acc x)) ->
  forall l init, incl l l0 -> P init -> P (fold_left f l init).
Proof.
  intros Hf. induction l as [|x l IH]; intros init Hl Hi; simpl; [exact Hi|].
  apply IH.
  - intros y Hy. apply Hl. now right.
  - apply Hf; [apply Hl; now left | exact Hi].
Qed.

Lemma fold_left_establish_in {A B : Type} (P Q : A -> Prop) (f : A -> B -> A)
    x l0 :
  (forall acc y, In y l0 -> P acc -> P (f acc y)) ->
  (forall acc y, In y l0 -> Q acc -> Q (f acc y)) ->
  (forall acc, Q acc -> P (f acc x)) ->
  forall l init, incl l l0 -> Q init -> In x l -> P (fold_left f l init).
Proof.
  intros HP HQ Hx. induction l as [|y l IH]; intros init Hl Hi Hin;
    [destruct Hin|].
  assert (Hl' : incl l l0) by (intros z Hz; apply Hl; now right).
  simpl. destruct Hin as [->|Hin].
  - apply (fold_left_invariant_in P f l0); auto.
  - apply IH; auto. apply HQ; [apply Hl; now left | exact Hi].
Qed.

(** *** The groups of [create_tolerance_group] *)

Section ToleranceGroups.
Variable items : list (Z * Q).
Variable within : Q -> Q -> bool.

Let step2 (kv1 : Z * Q) (tg : list (Q * list (Z * Q))) (kv2 : Z * Q) :=
  if within (snd kv1) (snd kv2) then
    match dict_get Qeq_bool tg (snd kv1) with
    | Some inner =>
        dict_set Qeq_bool tg (snd kv1)
          (dict_set Z.eqb inner (fst kv2) (snd kv2))
    | None => tg
    end
  else tg.

Let get_set_Q := @dict_get_set Q (list (Z * Q)) Qeq_bool
  Qeq_bool_sym Qeq_bool_trans.
Let get_set_Z := @dict_get_set Z Q Z.eqb Zeqb_sym Zeqb_trans.
Let entry_Q := @dict_set_entry Q (list (Z * Q)) Qeq_bool Qeq_bool_refl.
Let entry_Z := @dict_set_entry Z Q Z.eqb Z.eqb_refl.

Lemma step2_sound kv1 kv2 tg :
  In kv1 items -> In kv2 items ->
  groups_sound items within tg -> groups_sound items within (step2 kv1 tg kv2).
Proof.
  intros H1 H2 Hs. unfold step2.
  destruct (within (snd kv1) (snd kv2)) eqn:Ew; [|exact Hs].
  destruct (dict_get Qeq_bool tg (snd kv1)) as [inner|] eqn:Eg; [|exact Hs].
  intros p x Hpx d v Hdv.
  apply entry_Q in Hpx as [Hpx|[-> Hp]]; [now apply (Hs p x)|].
  apply entry_Z in Hdv as [Hdv|[-> Hd]].
  - apply dict_get_some_entry in Eg as (k0 & Hk0 & Ek0).
    destruct (Hs k0 inner Hk0 d v Hdv) as (Hin & d1 & v1 & Hin1 & Ek & Hw).
    split; [exact Hin|]. exists d1, v1. repeat split; trivial.
    eapply Qeq_bool_trans; [exact Hp|].
    eapply Qeq_bool_trans; [apply Qeq_bool_sym; exact Ek0 | exact Ek].
  - apply Z.eqb_eq in Hd. subst d. split; [now destruct kv2|].
    exists (fst kv1), (snd kv1). repeat split; trivial. now destruct kv1.
Qed.

Lemma step2_keyed kv1 kv2 tg :
  groups_keyed items tg -> groups_keyed items (step2 kv1 tg kv2).
Proof.
  intros Hk. unfold step2.
  destruct (within (snd kv1) (snd kv2)); [|exact Hk].
  destruct (dict_get Qeq_bool tg (snd kv1)) as [inner|] eqn:Eg; [|exact Hk].
  intros d v Hdv. rewrite get_set_Q.
  destruct (Qeq_bool (snd kv1) v); [eauto | now apply (Hk d)].
Qed.

Lemma step2_holds kv1 kv2 tg v1 d2 v2 :
  dict_wf items -> In kv2 items -> In (d2, v2) items ->
  group_holds tg v1 d2 v2 -> group_holds (step2 kv1 tg kv2) v1 d2 v2.
Proof.
  intros Hwf H2 Hin (inner0 & Eg0 & Ed0). unfold step2.
  destruct (within (snd kv1) (snd kv2)); [|exists inner0; auto].
  destruct (dict_get Qeq_bool tg (snd kv1)) as [inner|] eqn:Eg;
    [|exists inner0; auto].
  unfold group_holds. rewrite get_set_Q.
  destruct (Qeq_bool (snd kv1) v1) eqn:E1; [|exists inner0; auto].
  eexists. split; [reflexivity|]. rewrite get_set_Z.
  rewrite (dict_get_equal_keys Qeq_bool Qeq_bool_sym Qeq_bool_trans tg _ _ E1)
    in Eg.
  rewrite Eg0 in Eg. injection Eg as <-.
  destruct (Z.eqb_spec (fst kv2) d2) as [Hd|Hd]; [|exact Ed0].
  f_equal. destruct kv2 as [d v]. simpl in *. subst d.
  pose proof (dict_get_in items d2 v Hwf H2) as Ev.
  rewrite (dict_get_in items d2 v2 Hwf Hin) in Ev. now injection Ev.
Qed.

Lemma step2_establishes d1 v1 d2 v2 tg :
  In (d1, v1) items -> within v1 v2 = true ->
  groups_keyed items tg -> group_holds (step2 (d1, v1) tg (d2, v2)) v1 d2 v2.
Proof.
  intros H1 Hw Hk. unfold step2. simpl. rewrite Hw.
  destruct (Hk d1 v1 H1) as [inner Eg]. rewrite Eg.
  unfold group_holds. rewrite get_set_Q, Qeq_bool_refl.
  eexists. split; [reflexivity|]. now rewrite get_set_Z, Z.eqb_refl.
Qed.

Lemma initial_groups_empty (prices : list Q) :
  forall p inner,
    In (p, inner)
      (fold_left
         (fun (tg : list (Q * list (Z * Q))) value =>
            dict_set Qeq_bool tg value []) prices []) ->
    inner = [].
Proof.
  apply (fold_left_invariant
           (fun tg : list (Q * list (Z * Q)) =>
              forall p inner, In (p, inner) tg -> inner = [])).
  - intros acc x Hacc p inner Hin.
    apply entry_Q in Hin as [Hin|[-> _]]; eauto.
  - intros p inner [].
Qed.

Lemma initial_groups_keyed :
  groups_keyed items
    (fold_left
       (fun (tg : list (Q * list (Z * Q))) value =>
          dict_set Qeq_bool tg value [])
       (values items) []).
Proof.
  intros d v Hin.
  apply (fold_left_establish
           (fun tg : list (Q * list (Z * Q)) =>
              exists inner, dict_get Qeq_bool tg v = Some inner)
           (fun _ => True)
           (fun (tg : list (Q * list (Z * Q))) value =>
              dict_set Qeq_bool tg value []) v); auto.
  - intros acc y [inner E]. rewrite get_set_Q.
    destruct (Qeq_bool y v); eauto.
  - intros acc _. rewrite get_set_Q, Qeq_bool_refl. eauto.
  - unfold values. now apply (in_map snd) in Hin.
Qed.

Lemma create_tolerance_group_fold :
  create_tolerance_group items within =
  fold_left (fun tg kv1 => fold_left (step2 kv1) items tg) items
    (fold_left
       (fun (tg : list (Q * list (Z * Q))) value =>
          dict_set Qeq_bool tg value [])
       (values items) []).
Proof. reflexivity. Qed.

Lemma create_tolerance_group_sound_all :
  groups_sound items within (create_tolerance_group items within).
Proof.
  rewrite create_tolerance_group_fold.
  apply (fold_left_invariant_in (groups_sound items within) _ items).
  - intros tg kv1 H1 Hs.
    apply (fold_left_invariant_in (groups_sound items within) _ items);
      [|apply incl_refl|exact Hs].
    intros tg' kv2 H2 Hs'. now apply step2_sound.
  - apply incl_refl.
  - intros p inner Hin d v Hdv.
    apply initial_groups_empty in Hin. subst inner. destruct Hdv.
Qed.

Lemma create_tolerance_group_holds d1 v1 d2 v2 :
  dict_wf items -> In (d1, v1) items -> In (d2, v2) items ->
  within v1 v2 = true ->
  group_holds (create_tolerance_group items within) v1 d2 v2.
Proof.
  intros Hwf H1 H2 Hw. rewrite create_tolerance_group_fold.
  apply (fold_left_establish_in
           (fun tg => group_holds tg v1 d2 v2) (groups_keyed items)
           (fun tg kv1 => fold_left (step2 kv1) items tg) (d1, v1) items).
  - intros tg kv1 _ Hg.
    apply (fold_left_invariant_in (fun tg => group_holds tg v1 d2 v2) _ items);
      [|apply incl_refl|exact Hg].
    intros tg' kv2 Hkv2 Hg'. now apply step2_holds.
  - intros tg kv1 _ Hk.
    apply (fold_left_invariant_in (groups_keyed items) _ items);
      [|apply incl_refl|exact Hk].
    intros tg' kv2 _ Hk'. now apply step2_keyed.
  - intros tg Hk.
    apply (fold_left_establish_in
             (fun tg => group_holds tg v1 d2 v2) (groups_keyed items)
             (step2 (d1, v1)) (d2, v2) items); auto using incl_refl.
    + intros tg' kv2 Hkv2 Hg'. now apply step2_holds.
    + intros tg' kv2 _ Hk'. now apply step2_keyed.
    + intros tg' Hk'. now apply step2_establishes.
  - apply incl_refl.
  - apply initial_groups_keyed.
  - exact H1.
Qed.
End ToleranceGroups.

(** X7: in the dictionary that [create_tolerance_group] builds, every
    touch of a group is a candidate whose price is within tolerance of a
    candidate price equal to the key of the group; and for two candidates
    within tolerance the second one is in the group keyed by the price of
    the first.  Every mapping of the dictionary has distinct dates. *)
Theorem create_tolerance_group_members possible_levels_dict tolerance_function :
  dict_wf possible_levels_dict ->
  let tolerance_groups :=
    create_tolerance_group possible_levels_dict tolerance_function in
  groups_sound possible_levels_dict tolerance_function tolerance_groups /\
  (forall d1 v1 d2 v2,
     In (d1, v1) possible_levels_dict -> In (d2, v2) possible_levels_dict ->
     tolerance_function v1 v2 = true ->
     group_holds tolerance_groups v1 d2 v2) /\
  Forall dict_wf (values tolerance_groups).
Proof.
  intros Hwf tolerance_groups. subst tolerance_groups. split; [|split].
  - apply create_tolerance_group_sound_all.
  - intros. now apply (create_tolerance_group_holds _ _ d1).
  - apply create_tolerance_group_wf.
Qed.

Lemma create_tolerance_group_members_witness :
  let items : list (Z * Q) := [(1, 100#1); (2, 102#1); (3, 104#1)] in
  let within := fun a b : Q => Qle_bool (Qabs (a - b)) 3 in
  let tolerance_groups := create_tolerance_group items within in
  groups_sound items within tolerance_groups /\
  (forall d1 v1 d2 v2,
     In (d1, v1) items -> In (d2, v2) items -> within v1 v2 = true ->
     group_holds tolerance_groups v1 d2 v2) /\
  Forall dict_wf (values tolerance_groups).
Proof.
  apply (create_tolerance_group_members
           [(1, 100#1); (2, 102#1); (3, 104#1)]
           (fun a b : Q => Qle_bool (Qabs (a - b)) 3)).
  unfold dict_wf, keys. simpl.
  repeat (constructor; simpl; try (intuition discriminate)).
Defined.

(* ================================================================== *)
(** ** Extremum finder *)

Lemma find_supports_loop_window table : forall possible,
  find_supports_loop table possible =
  window_loop (fun first second third fourth fifth =>
                 Qlt_bool second first && Qlt_bool third second
                 && Qlt_bool third fourth && Qlt_bool fourth fifth)
    table possible.
Proof.
  induction table as [|r1 rest IH]; intros possible; [reflexivity|].
  destruct rest as [|r2 [|r3 [|r4 [|r5 t]]]]; try reflexivity.
  cbn [find_supports_loop window_loop]. apply IH.
Qed.

Lemma find_resistances_loop_window table : forall possible,
  find_resistances_loop table possible =
  window_loop (fun first second third fourth fifth =>
                 Qlt_bool first second && Qlt_bool second third
                 && Qlt_bool fourth third && Qlt_bool fifth fourth)
    table possible.
Proof.
  induction table as [|r1 rest IH]; intros possible; [reflexivity|].
  destruct rest as [|r2 [|r3 [|r4 [|r5 t]]]]; try reflexivity.
  cbn [find_resistances_loop window_loop]. apply IH.
Qed.

Section Windows.
Variable test : Q -> Q -> Q -> Q -> Q -> bool.
Variable shape : Q -> Q -> Q -> Q -> Q -> Prop.
Hypothesis test_shape :
  forall a b c d e, test a b c d e = true <-> shape a b c d e.

Lemma window_loop_step r1 r2 r3 r4 r5 t possible :
  window_loop test (r1 :: r2 :: r3 :: r4 :: r5 :: t) possible =
  window_loop test (r2 :: r3 :: r4 :: r5 :: t)
    (if test (snd r1) (snd r2) (snd r3) (snd r4) (snd r5)
     then dict_set Z.eqb possible (fst r3) (snd r3)
     else possible).
Proof. reflexivity. Qed.

Lemma centre_of_short table d p :
  (length table < 5)%nat -> ~ centre_of shape table d p.
Proof.
  intros Hlen (pre & r1 & r2 & r4 & r5 & post & -> & _).
  rewrite length_app in Hlen. simpl in Hlen. lia.
Qed.

Lemma centre_of_cons r1 rest d p :
  centre_of shape (r1 :: rest) d p <->
  (exists r2 r4 r5 post,
     rest = r2 :: (d, p) :: r4 :: r5 :: post /\
     shape (snd r1) (snd r2) p (snd r4) (snd r5)) \/
  centre_of shape rest d p.
Proof.
  split.
  - intros (pre & a & r2 & r4 & r5 & post & E & Hs).
    destruct pre as [|x pre]; simpl in E; injection E as -> ->.
    + left. exists r2, r4, r5, post. auto.
    + right. exists pre, a, r2, r4, r5, post. auto.
  - intros [(r2 & r4 & r5 & post & -> & Hs)|(pre & a & r2 & r4 & r5 & post & -> & Hs)].
    + exists [], r1, r2, r4, r5, post. auto.
    + exists (r1 :: pre), a, r2, r4, r5, post. auto.
Qed.

Lemma window_loop_sound table : forall possible d p,
  In (d, p) (window_loop test table possible) ->
  In (d, p) possible \/ centre_of shape table d p.
Proof.
  induction table as [|r1 rest IH]; intros possible d p Hin; [now left|].
  destruct rest as [|r2 [|r3 [|r4 [|r5 t]]]]; try (now left).
  rewrite window_loop_step in Hin. apply IH in Hin as [Hin|Hin].
  - destruct (test (snd r1) (snd r2) (snd r3) (snd r4) (snd r5)) eqn:E;
      [|now left].
    apply (dict_set_entry Z.eqb Z.eqb_refl) in Hin as [Hin|[-> Hd]];
      [now left|].
    apply Z.eqb_eq in Hd. subst d. right. apply centre_of_cons. left.
    exists r2, r4, r5, t. split; [now destruct r3|]. now apply test_shape.
  - right. apply centre_of_cons. now right.
Qed.

Lemma window_loop_keys table : forall possible d,
  In d (keys possible) -> In d (keys (window_loop test table possible)).
Proof.
  induction table as [|r1 rest IH]; intros possible d Hin; [exact Hin|].
  destruct rest as [|r2 [|r3 [|r4 [|r5 t]]]]; try exact Hin.
  rewrite window_loop_step. apply IH.
  destruct (test (snd r1) (snd r2) (snd r3) (snd r4) (snd r5)); [|exact Hin].
  apply dict_set_keys_in. now left.
Qed.

Lemma window_loop_complete table : forall possible d p,
  centre_of shape table d p ->
  In d (keys (window_loop test table possible)).
Proof.
  induction table as [|r1 rest IH]; intros possible d p Hc.
  - exfalso. apply (centre_of_short [] d p); [simpl; lia | exact Hc].
  - apply centre_of_cons in Hc as [(r2 & r4 & r5 & post & -> & Hs)|Hc].
    + rewrite window_loop_step. apply window_loop_keys.
      apply test_shape in Hs. cbn [snd fst]. rewrite Hs.
      apply dict_set_keys_in. now right.
    + destruct rest as [|r2 [|r3 [|r4 [|r5 t]]]];
        try (exfalso; apply (centre_of_short _ d p) in Hc; [exact Hc | simpl; lia]).
      rewrite window_loop_step. now apply (IH _ d p).
Qed.

Lemma window_loop_wf table : forall possible,
  dict_wf possible -> dict_wf (window_loop test table possible).
Proof.
  induction table as [|r1 rest IH]; intros possible Hwf; [exact Hwf|].
  destruct rest as [|r2 [|r3 [|r4 [|r5 t]]]]; try exact Hwf.
  rewrite window_loop_step. apply IH.
  destruct (test (snd r1) (snd r2) (snd r3) (snd r4) (snd r5)); [|exact Hwf].
  now apply dict_set_wf.
Qed.

Lemma window_loop_spec table :
  (forall d p, In (d, p) (window_loop test table []) ->
     centre_of shape table d p) /\
  (forall d p, centre_of shape table d p ->
     In d (keys (window_loop test table []))) /\
  dict_wf (window_loop test table []) /\
  ((length table < 5)%nat -> window_loop test table [] = []).
Proof.
  split; [|split; [|split]].
  - intros d p Hin. apply window_loop_sound in Hin as [[]|H]. exact H.
  - intros d p. apply window_loop_complete.
  - apply window_loop_wf. constructor.
  - intros Hlen. destruct (window_loop test table []) as [|[d p] l] eqn:E;
      [reflexivity|].
    exfalso. apply (centre_of_short table d p Hlen).
    assert (Hin : In (d, p) (window_loop test table [])) by (rewrite E; now left).
    apply window_loop_sound in Hin as [[]|H]. exact H.
Qed.
End Windows.

(** X8: [find_supports] records exactly the dates of the rows that are the
    centre of five consecutive rows forming a strict dip and rise, each with
    the price of such a row; a table of fewer than 5 rows gives no
    candidate; [find_resistances] is the mirror, with a strict rise and
    dip. *)
Theorem find_extrema_centres table :
  ((forall d p, In (d, p) (find_supports table) ->
      centre_of trough_shape table d p) /\
   (forall d p, centre_of trough_shape table d p ->
      In d (keys (find_supports table))) /\
   dict_wf (find_supports table) /\
   ((length table < 5)%nat -> find_supports table = [])) /\
  ((forall d p, In (d, p) (find_resistances table) ->
      centre_of peak_shape table d p) /\
   (forall d p, centre_of peak_shape table d p ->
      In d (keys (find_resistances table))) /\
   dict_wf (find_resistances table) /\
   ((length table < 5)%nat -> find_resistances table = [])).
Proof.
  unfold find_supports, find_resistances.
  rewrite find_supports_loop_window, find_resistances_loop_window.
  split; apply window_loop_spec; intros a b c d e; unfold trough_shape, peak_shape;
    rewrite !andb_true_iff, !Qlt_bool_iff; tauto.
Qed.

Lemma find_extrema_centres_witness :
  In (7, 101#1) (find_supports descending_table) /\
  centre_of trough_shape descending_table 7 (101#1).
Proof.
  assert (H : In (7, 101#1) (find_supports descending_table))
    by (vm_compute; auto).
  split; [exact H|].
  exact (proj1 (proj1 (find_extrema_centres descending_table)) 7 (101#1) H).
Defined.

(* ================================================================== *)
(** ** Level record builder *)

Lemma insert_sorted_length {A : Type} (before : A -> A -> bool) x l :
  length (insert_sorted before x l) = S (length l).
Proof.
  induction l as [|y r IH]; [reflexivity|].
  simpl. destruct (before y x); simpl; [now rewrite IH | reflexivity].
Qed.

Lemma py_sorted_length {A : Type} (before : A -> A -> bool) l :
  length (py_sorted before l) = length l.
Proof.
  induction l as [|x l IH]; [reflexivity|].
  simpl. now rewrite insert_sorted_length, IH.
Qed.

Lemma insert_sorted_by_date (x : Z * Q) l :
  StronglySorted Z.le (keys l) ->
  StronglySorted Z.le
    (keys (insert_sorted (fun a b : Z * Q => fst a <? fst b) x l)).
Proof.
  unfold keys. induction l as [|y r IH]; intros Hs.
  - simpl. constructor; constructor.
  - simpl in Hs. inversion Hs as [|? ? Hr Hy]; subst.
    simpl. destruct (Z.ltb_spec (fst y) (fst x)) as [Hlt|Hge].
    + simpl. constructor; [now apply IH|].
      apply Forall_forall. intros k Hk. apply in_map_iff in Hk as (z & <- & Hz).
      apply insert_sorted_in in Hz as [-> | Hz]; [lia|].
      rewrite Forall_forall in Hy. apply Hy. now apply in_map.
    + simpl. constructor; [exact Hs|].
      constructor; [exact Hge|].
      rewrite Forall_forall in Hy |- *. intros k Hk. specialize (Hy k Hk). lia.
Qed.

Lemma py_sorted_by_date (l : list (Z * Q)) :
  StronglySorted Z.le (keys (py_sorted (fun a b : Z * Q => fst a <? fst b) l)).
Proof.
  induction l as [|x l IH]; [constructor|].
  simpl. now apply insert_sorted_by_date.
Qed.

Lemma py_sorted_keys_in (before : Z * Q -> Z * Q -> bool) l k :
  In k (keys (py_sorted before l)) <-> In k (keys l).
Proof.
  unfold keys. rewrite !in_map_iff.
  split; intros (z & <- & Hz); exists z; (split; [reflexivity|]);
    now apply (py_sorted_in before).
Qed.

Lemma sorted_first_earliest l x r :
  StronglySorted Z.le l -> l = x :: r -> is_earliest x l.
Proof.
  intros Hs ->. inversion Hs as [|? ? _ Hx]; subst.
  split; [now left|]. intros k [<- | Hk]; [lia|].
  rewrite Forall_forall in Hx. now apply Hx.
Qed.

Lemma sorted_last_latest l : forall x r,
  StronglySorted Z.le l -> rev l = x :: r -> is_latest x l.
Proof.
  induction l as [|a l IH]; intros x r Hs E; [discriminate|].
  inversion Hs as [|? ? Hl Ha]; subst.
  destruct l as [|b l].
  - simpl in E. injection E as <- _. split; [now left|].
    intros k [<- | []]. lia.
  - assert (Hne : rev (b :: l) <> []).
    { intros H0. apply (f_equal (@length Z)) in H0.
      rewrite length_rev in H0. discriminate. }
    destruct (rev (b :: l)) as [|y t] eqn:Er; [contradiction|].
    change (rev (a :: b :: l)) with (rev (b :: l) ++ [a]) in E.
    rewrite Er in E. simpl in E. injection E as <- _.
    destruct (IH y t Hl eq_refl) as [Hin Hmax].
    split; [now right|].
    intros k [<- | Hk]; [|now apply Hmax].
    rewrite Forall_forall in Ha. now apply Ha.
Qed.

Lemma is_earliest_ext d l l' :
  (forall k, In k l <-> In k l') -> is_earliest d l -> is_earliest d l'.
Proof.
  intros H [Hin Hmin]. split; [now apply H|].
  intros k Hk. apply Hmin. now apply H.
Qed.

Lemma is_latest_ext d l l' :
  (forall k, In k l <-> In k l') -> is_latest d l -> is_latest d l'.
Proof.
  intros H [Hin Hmax]. split; [now apply H|].
  intros k Hk. apply Hmax. now apply H.
Qed.

Lemma Support_init_dates (mapping : list (Z * Q)) :
  let df := py_sorted (fun a b : Z * Q => fst a <? fst b) mapping in
  match mapping with
  | [] => index_last (keys df) = Raise IndexError
  | _ => exists earliest latest,
           index_last (keys df) = Ok latest /\
           index_first (keys df) = Ok earliest /\
           is_earliest earliest (keys mapping) /\
           is_latest latest (keys mapping)
  end.
Proof.
  intros df.
  assert (Hs : StronglySorted Z.le (keys df)) by apply py_sorted_by_date.
  assert (Hlen : length (keys df) = length mapping).
  { unfold keys, df. now rewrite length_map, py_sorted_length. }
  assert (Hin : forall k, In k (keys df) <-> In k (keys mapping))
    by (intros k; apply py_sorted_keys_in).
  clearbody df.
  destruct mapping as [|m rest] eqn:Em.
  { destruct df; [reflexivity | discriminate]. }
  rewrite <- Em in *.
  destruct (keys df) as [|x r] eqn:Ek.
  { rewrite Em in Hlen. discriminate. }
  destruct (rev (x :: r)) as [|y t] eqn:Er.
  { apply (f_equal (@length Z)) in Er. rewrite length_rev in Er. discriminate. }
  exists x, y. unfold index_last, index_first. rewrite Er.
  repeat split; try reflexivity.
  - apply (is_earliest_ext x (x :: r)); [exact Hin|].
    now apply (sorted_first_earliest _ x r).
  - apply (is_earliest_ext x (x :: r)); [exact Hin|].
    now apply (sorted_first_earliest _ x r).
  - apply (is_latest_ext y (x :: r)); [exact Hin|].
    now apply (sorted_last_latest _ y t).
  - apply (is_latest_ext y (x :: r)); [exact Hin|].
    now apply (sorted_last_latest _ y t).
Qed.

(** The outcomes of [Support.__init__]. *)
Lemma Support_init_cases today touches mapping breached breach recents
    name :
  match Support_init today (touches, mapping) breached breach recents name with
  | Ok s =>
      exists earliest latest,
        is_earliest earliest (keys mapping) /\
        is_latest latest (keys mapping) /\
        today <> latest /\
        time_period_int s = latest - earliest /\
        0 <= time_period_int s /\
        days_since_last_tested s = today - latest /\
        StronglySorted Z.le (keys (rows (data s))) /\
        (forall row, In row (rows (data s)) <-> In row mapping) /\
        length (rows (data s)) = length mapping /\
        num_touches s = touches /\
        status s = (snd recents - avg s)%Q /\
        is_breached s = breached /\ breach_data s = breach
  | Raise IndexError => mapping = []
  | Raise ValueError => is_latest today (keys mapping)
  | Raise _ => False
  end.
Proof.
  unfold Support_init. cbn [snd fst].
  pose proof (Support_init_dates mapping) as Hd. cbv zeta in Hd.
  destruct mapping as [|m rest] eqn:Em.
  - rewrite Hd. reflexivity.
  - rewrite <- Em in *.
    destruct Hd as (earliest & latest & -> & -> & He & Hl).
    cbn [rbind]. unfold timedelta_days.
    destruct (Z.eqb_spec (today - latest) 0) as [E0|E0]; cbn [rbind].
    + replace today with latest by lia. exact Hl.
    + exists earliest, latest.
      cbn [time_period_int days_since_last_tested data rows num_touches
           status avg is_breached breach_data].
      split; [exact He|]. split; [exact Hl|]. split; [lia|].
      split; [reflexivity|].
      split.
      { destruct He as [Hin _]. destruct Hl as [_ Hmax].
        specialize (Hmax earliest Hin). lia. }
      split; [reflexivity|].
      split; [apply py_sorted_by_date|].
      split; [intros row; apply py_sorted_in|].
      split; [apply py_sorted_length|].
      repeat split.
Qed.

(** X9: the three outcomes of [Support.__init__].  It raises [IndexError]
    exactly on an empty mapping and [ValueError] exactly when the latest
    touch is dated today; otherwise the record holds the touches sorted by
    date, the span from the earliest to the latest touch (never negative),
    the non-zero number of days from the latest touch to today, and the
    distance of the most recent price from the mean. *)
Theorem Support_init_outcome today touches mapping breached breach recents
    name :
  match Support_init today (touches, mapping) breached breach recents name with
  | Ok s =>
      exists earliest latest,
        is_earliest earliest (keys mapping) /\
        is_latest latest (keys mapping) /\
        today <> latest /\
        time_period_int s = latest - earliest /\
        0 <= time_period_int s /\
        days_since_last_tested s = today - latest /\
        StronglySorted Z.le (keys (rows (data s))) /\
        (forall row, In row (rows (data s)) <-> In row mapping) /\
        length (rows (data s)) = length mapping /\
        num_touches s = touches /\
        status s = (snd recents - avg s)%Q /\
        is_breached s = breached /\ breach_data s = breach
  | Raise IndexError => mapping = []
  | Raise ValueError => is_latest today (keys mapping)
  | Raise _ => False
  end.
Proof.
  exact (Support_init_cases today touches mapping breached breach recents
           name).
Qed.

Lemma days_between_cons a b l :
  days_between (a :: b :: l) = (b - a) :: days_between (b :: l).
Proof.
  unfold days_between.
  replace (length (a :: b :: l) - 1)%nat with (S (length (b :: l) - 1))
    by (simpl; lia).
  rewrite <- cons_seq, <- seq_shift. cbn [map nth].
  f_equal. rewrite map_map. reflexivity.
Qed.

Lemma days_between_sum l :
  fold_right Z.add 0 (days_between l) = last l 0 - hd 0 l.
Proof.
  destruct l as [|a l]; [reflexivity|].
  revert a. induction l as [|b l IH]; intros a.
  - simpl. lia.
  - rewrite days_between_cons. cbn [fold_right]. rewrite IH.
    cbn [hd]. change (last (a :: b :: l) 0) with (last (b :: l) 0). lia.
Qed.

Lemma sorted_hd_last l x :
  Sorted Z.le l -> is_earliest x l -> hd 0 l = x.
Proof.
  intros Hs [Hin Hmin]. apply Sorted_StronglySorted in Hs;
    [|intros a b c; lia].
  destruct l as [|a l]; [destruct Hin|].
  simpl. inversion Hs as [|? ? _ Ha]; subst.
  destruct Hin as [-> | Hin]; [reflexivity|].
  rewrite Forall_forall in Ha. specialize (Ha x Hin).
  specialize (Hmin a (or_introl eq_refl)). lia.
Qed.

Lemma last_rev_hd l x r : rev l = x :: r -> last l 0 = x.
Proof.
  intros E. apply (f_equal (@rev Z)) in E. rewrite rev_involutive in E.
  subst l. simpl. now rewrite last_last.
Qed.

Lemma sorted_last_is_latest l x :
  Sorted Z.le l -> is_latest x l -> last l 0 = x.
Proof.
  intros Hs [Hin Hmax]. apply Sorted_StronglySorted in Hs;
    [|intros a b c; lia].
  destruct (rev l) as [|y t] eqn:Er.
  { apply (f_equal (@length Z)) in Er. rewrite length_rev in Er.
    destruct l; [destruct Hin | discriminate]. }
  rewrite (last_rev_hd _ _ _ Er).
  destruct (sorted_last_latest l y t Hs Er) as [Hy Hymax].
  specialize (Hmax y Hy). specialize (Hymax x Hin). lia.
Qed.

(** X10: the gaps between tests of a record add up to the distance from
    the first to the last key of the mapping, in the order of the mapping;
    when the mapping lists its touches by ascending date this is the time
    period of the record. *)
Theorem Support_init_gaps_sum today touches mapping breached breach recents
    name s :
  Support_init today (touches, mapping) breached breach recents name = Ok s ->
  fold_right Z.add 0 (num_days_bw_tests s) =
    last (keys mapping) 0 - hd 0 (keys mapping) /\
  length (num_days_bw_tests s) = (length mapping - 1)%nat /\
  (Sorted Z.le (keys mapping) ->
   fold_right Z.add 0 (num_days_bw_tests s) = time_period_int s).
Proof.
  intros H.
  pose proof (Support_init_cases today touches mapping breached breach
                recents name) as Ho.
  rewrite H in Ho.
  destruct Ho as (earliest & latest & He & Hl & _ & Htp & _).
  assert (Hg : num_days_bw_tests s = days_between (keys mapping)).
  { unfold Support_init in H. cbn [snd fst] in H.
    destruct (index_last _); [|discriminate].
    destruct (index_first _); [|discriminate].
    cbn [rbind] in H. destruct (timedelta_days _); [|discriminate].
    cbn [rbind] in H. injection H as <-. reflexivity. }
  rewrite Hg, days_between_sum, days_between_length.
  split; [reflexivity|]. split; [unfold keys; now rewrite length_map|].
  intros Hs. rewrite Htp.
  now rewrite (sorted_hd_last _ _ Hs He), (sorted_last_is_latest _ _ Hs Hl).
Qed.

Lemma Support_init_gaps_sum_witness :
  exists s,
    Support_init 20 (3, [(3, 99#1); (7, 101#1); (11, 100#1)]) false
      (mkDataFrame date_price []) (13, 110#1) "ACME" = Ok s /\
    fold_right Z.add 0 (num_days_bw_tests s) = 8 /\
    time_period_int s = 8.
Proof.
  eexists. split; [reflexivity|].
  pose proof (Support_init_gaps_sum 20 3 [(3, 99#1); (7, 101#1); (11, 100#1)]
                false (mkDataFrame date_price []) (13, 110#1) "ACME" _
                eq_refl) as (Hsum & _ & Hperiod).
  split; [exact Hsum|].
  rewrite <- Hperiod; [exact Hsum|].
  repeat constructor; cbv; discriminate.
Defined.

(* ================================================================== *)
(** ** Monotonicity checks *)

Lemma is_increasing_loop_sorted rest : forall current_item,
  is_increasing_loop current_item rest = true <->
  Sorted Z.le (current_item :: rest).
Proof.
  induction rest as [|next_item rest IH]; intros current_item.
  - simpl. split; [repeat constructor | reflexivity].
  - cbn [is_increasing_loop].
    destruct (Z.gtb_spec current_item next_item) as [Hgt|Hle].
    + split; [discriminate|]. intros Hs.
      inversion Hs as [|? ? _ Hhd]; subst. inversion Hhd; subst. lia.
    + rewrite IH. split.
      * intros Hs. constructor; [exact Hs | now constructor].
      * intros Hs. now inversion Hs.
Qed.

Lemma is_decreasing_loop_sorted rest : forall current_item,
  is_decreasing_loop current_item rest = true <->
  Sorted Z.ge (current_item :: rest).
Proof.
  induction rest as [|next_item rest IH]; intros current_item.
  - simpl. split; [repeat constructor | reflexivity].
  - cbn [is_decreasing_loop].
    destruct (Z.ltb_spec current_item next_item) as [Hlt|Hge].
    + split; [discriminate|]. intros Hs.
      inversion Hs as [|? ? _ Hhd]; subst. inversion Hhd; subst. lia.
    + rewrite IH. split.
      * intros Hs. constructor; [exact Hs | constructor; lia].
      * intros Hs. now inversion Hs.
Qed.

Lemma StronglySorted_snoc {A : Type} (R : A -> A -> Prop) l x :
  StronglySorted R l -> Forall (fun y => R y x) l ->
  StronglySorted R (l ++ [x]).
Proof.
  induction 1 as [|a l Hl IH Ha]; intros Hx; simpl.
  - repeat constructor.
  - inversion Hx; subst. constructor; [now apply IH|].
    apply Forall_app. split; [exact Ha | now constructor].
Qed.

Lemma StronglySorted_rev {A : Type} (R : A -> A -> Prop) l :
  StronglySorted R l -> StronglySorted (fun a b => R b a) (rev l).
Proof.
  induction 1 as [|a l Hl IH Ha]; simpl; [constructor|].
  apply StronglySorted_snoc; [exact IH|].
  apply Forall_forall. intros y Hy. apply in_rev in Hy.
  rewrite Forall_forall in Ha. now apply Ha.
Qed.

Lemma sorted_ge_rev l : Sorted Z.ge l <-> Sorted Z.le (rev l).
Proof.
  split; intros Hs.
  - apply StronglySorted_Sorted.
    apply Sorted_StronglySorted in Hs; [|intros a b c; lia].
    apply StronglySorted_rev in Hs.
    eapply StronglySorted_ind with (P := StronglySorted Z.le);
      [constructor | | exact Hs].
    intros a l0 _ IH Ha. constructor; [exact IH|].
    eapply Forall_impl; [|exact Ha]. cbv beta. intros; lia.
  - apply StronglySorted_Sorted.
    apply Sorted_StronglySorted in Hs; [|intros a b c; lia].
    apply StronglySorted_rev in Hs. rewrite rev_involutive in Hs.
    eapply StronglySorted_ind with (P := StronglySorted Z.ge);
      [constructor | | exact Hs].
    intros a l0 _ IH Ha. constructor; [exact IH|].
    eapply Forall_impl; [|exact Ha]. cbv beta. intros; lia.
Qed.

(** X11: [is_increasing] raises [IndexError] on an empty sequence and
    otherwise tells whether the sequence never steps down (equal
    neighbours are accepted); [is_decreasing] is the same test on the
    sequence read backwards. *)
Theorem is_increasing_sorted (input_list : list Z) :
  match is_increasing input_list with
  | Ok b => input_list <> [] /\ (b = true <-> Sorted Z.le input_list)
  | Raise e => e = IndexError /\ input_list = []
  end /\
  match is_decreasing input_list with
  | Ok b => input_list <> [] /\ (b = true <-> Sorted Z.ge input_list)
  | Raise e => e = IndexError /\ input_list = []
  end /\
  is_decreasing input_list = is_increasing (rev input_list).
Proof.
  destruct input_list as [|current_item rest].
  - repeat split.
  - split; [|split].
    + cbn. split; [discriminate | apply is_increasing_loop_sorted].
    + cbn. split; [discriminate | apply is_decreasing_loop_sorted].
    + destruct (rev (current_item :: rest)) as [|x t] eqn:Er.
      { apply (f_equal (@length Z)) in Er. rewrite length_rev in Er.
        discriminate. }
      cbn. f_equal. apply eq_true_iff_eq.
      rewrite is_decreasing_loop_sorted, is_increasing_loop_sorted.
      rewrite <- Er. apply sorted_ge_rev.
Qed.

(* ================================================================== *)
(** ** Condition filter: preprocessing *)




(* ================================================================== *)
(** ** Condition filter: the runs of the filter functions *)

Section FilterRuns.
Variable py_eval : string -> Support -> result bool.

Lemma check_conditions_run stack level :
  Forall (fun entry => In (fst entry) stack /\ snd entry = level)
    (snd (check_conditions py_eval stack level)) /\
  match fst (check_conditions py_eval stack level) with
  | Ok invalid =>
      invalid = negb (forallb (satisfies py_eval level) stack) /\
      Forall (evaluated py_eval) (snd (check_conditions py_eval stack level))
  | Raise e =>
      exists log condition,
        snd (check_conditions py_eval stack level) =
          log ++ [(condition, level)] /\
        py_eval condition level = Raise e /\
        Forall (evaluated py_eval) log
  end.
Proof.
  induction stack as [|condition rest IH].
  - simpl. repeat split; constructor.
  - cbn [check_conditions forallb].
    replace (satisfies py_eval level condition)
      with (match py_eval condition level with
            | Ok true => true
            | _ => false
            end) by reflexivity.
    destruct (py_eval condition level) as [[|]|e] eqn:Ev.
    + destruct (check_conditions py_eval rest level) as [r log].
      cbn [fst snd] in *. destruct IH as [Hlog Hr]. split.
      * constructor; [split; [now left | reflexivity]|].
        eapply Forall_impl; [|exact Hlog].
        intros entry [H1 H2]. split; [now right | exact H2].
      * destruct r as [invalid|e].
        -- destruct Hr as [-> Hev]. split; [reflexivity|].
           constructor; [|exact Hev]. exists true. exact Ev.
        -- destruct Hr as (log' & c & -> & Hc & Hev).
           exists ((condition, level) :: log'), c.
           split; [reflexivity|]. split; [exact Hc|].
           constructor; [|exact Hev]. exists true. exact Ev.
    + cbn [fst snd]. split.
      * constructor; [|constructor]. split; [now left | reflexivity].
      * split; [reflexivity|]. constructor; [|constructor].
        exists false. exact Ev.
    + cbn [fst snd]. split.
      * constructor; [|constructor]. split; [now left | reflexivity].
      * exists [], condition. repeat split; [exact Ev | constructor].
Qed.

Lemma filter_loop_run conditions_list is_breached' ignore_is_breach levels :
  filter_run py_eval conditions_list is_breached' ignore_is_breach levels
    (filter_loop py_eval conditions_list is_breached' ignore_is_breach levels).
Proof.
  unfold filter_run.
  induction levels as [|level rest IH].
  - simpl. repeat split; constructor.
  - cbn [filter_loop filter]. unfold passes at 1.
    assert (Hrest : forall log : eval_log,
      Forall (fun entry =>
                In (fst entry) conditions_list /\ In (snd entry) rest /\
                (ignore_is_breach = false ->
                 is_breached (snd entry) = is_breached')) log ->
      Forall (fun entry =>
                In (fst entry) conditions_list /\
                In (snd entry) (level :: rest) /\
                (ignore_is_breach = false ->
                 is_breached (snd entry) = is_breached')) log).
    { intros log Hlog. eapply Forall_impl; [|exact Hlog].
      intros entry (H1 & H2 & H3). repeat split; [exact H1 | now right | exact H3]. }
    destruct ignore_is_breach eqn:Eign; cbn [negb orb];
      [|destruct (Bool.eqb (is_breached level) is_breached') eqn:Eb];
      cbn [andb].
    3:{ destruct IH as [Hlog Hr]. split; [now apply Hrest | exact Hr]. }
    all: pose proof (check_conditions_run (rev conditions_list) level)
        as [Hclog Hcr];
      destruct (check_conditions py_eval (rev conditions_list) level)
        as [[invalid|e] clog]; cbn [fst snd] in *;
      [ destruct (filter_loop py_eval conditions_list is_breached' _ rest)
          as [r log']; cbn [fst snd] in *;
        destruct IH as [Hlog Hr]; destruct Hcr as [Hinv Hcev]; split;
        [ apply Forall_app; split; [|now apply Hrest];
          eapply Forall_impl; [|exact Hclog];
          intros entry [H1 ->]; repeat split;
          [ now apply in_rev | now left
          | first [ discriminate | intros _; now apply eqb_prop ] ]
        | destruct r as [filtered|e];
          [ destruct Hr as [-> Hev]; split;
            [ rewrite forallb_rev in Hinv; rewrite Hinv;
              now destruct (forallb (satisfies py_eval level) conditions_list)
            | apply Forall_app; now split ]
          | destruct Hr as (log & c & s & -> & Hc & Hev);
            exists (clog ++ log), c, s; rewrite app_assoc;
            repeat split; [exact Hc | apply Forall_app; now split] ] ]
      | split;
        [ eapply Forall_impl; [|exact Hclog];
          intros entry [H1 ->]; repeat split;
          [ now apply in_rev | now left
          | first [ discriminate | intros _; now apply eqb_prop ] ]
        | destruct Hcr as (log & c & -> & Hc & Hev);
          exists log, c, level; repeat split; assumption ] ].
Qed.
End FilterRuns.

(** X13: what a run of [filter_supports] or [filter_resistances] does.  If
    the conditions are refused nothing is evaluated.  Otherwise every
    evaluation is of a processed condition on a record of the input that the
    breach test lets through; a run that returns gives exactly the records
    passing the breach test and all conditions, in the order of the input;
    a run that raises stops at the first evaluation that raises. *)
Theorem filter_evaluations (py_eval : string -> Support -> result bool)
    levels args (is_breached' ignore_is_breach : bool) :
  match process_conditions args "support" with
  | Ok conditions_list =>
      filter_run py_eval conditions_list is_breached' ignore_is_breach levels
        (filter_supports py_eval levels args is_breached' ignore_is_breach)
  | Raise e =>
      filter_supports py_eval levels args is_breached' ignore_is_breach =
      (Raise e, [])
  end /\
  match process_conditions args "resistance" with
  | Ok conditions_list =>
      filter_run py_eval conditions_list is_breached' ignore_is_breach levels
        (filter_resistances py_eval levels args is_breached' ignore_is_breach)
  | Raise e =>
      filter_resistances py_eval levels args is_breached' ignore_is_breach =
      (Raise e, [])
  end.
Proof.
  unfold filter_supports, filter_resistances, filter_levels.
  split.
  - destruct (process_conditions args "support"); [|reflexivity].
    apply filter_loop_run.
  - destruct (process_conditions args "resistance"); [|reflexivity].
    apply filter_loop_run.
Qed.

Lemma process_conditions_app level_type args1 : forall args2,
  process_conditions (args1 ++ args2) level_type =
  (conditions1 <- process_conditions args1 level_type ;;
   conditions2 <- process_conditions args2 level_type ;;
   Ok (conditions1 ++ conditions2))%result.
Proof.
  induction args1 as [|condition rest IH]; intros args2.
  - cbn. now destruct (process_conditions args2 level_type).
  - cbn [app process_conditions]. rewrite IH.
    destruct (process_condition level_type condition); [|reflexivity].
    cbn [rbind].
    destruct (process_conditions rest level_type); [|reflexivity].
    cbn [rbind].
    destruct (process_conditions args2 level_type); reflexivity.
Qed.

Lemma passes_app py_eval conditions1 conditions2 is_breached'
    ignore_is_breach level :
  passes py_eval (conditions1 ++ conditions2) is_breached' ignore_is_breach
    level =
  passes py_eval conditions1 is_breached' ignore_is_breach level
  && passes py_eval conditions2 is_breached' ignore_is_breach level.
Proof.
  unfold passes. rewrite forallb_app.
  destruct (ignore_is_breach || Bool.eqb (is_breached level) is_breached'),
    (forallb (satisfies py_eval level) conditions1),
    (forallb (satisfies py_eval level) conditions2); reflexivity.
Qed.

Lemma filter_filter {A : Type} (f g : A -> bool) l :
  filter g (filter f l) = filter (fun x => f x && g x) l.
Proof.
  induction l as [|x l IH]; [reflexivity|].
  simpl. destruct (f x); simpl; [destruct (g x)|]; now rewrite IH.
Qed.

Lemma filter_levels_twice py_eval level_type levels args1 args2
    (is_breached' ignore_is_breach : bool) conditions1 conditions2 :
  process_conditions args1 level_type = Ok conditions1 ->
  process_conditions args2 level_type = Ok conditions2 ->
  (forall c s, In c (conditions1 ++ conditions2) -> In s levels ->
     evaluated py_eval (c, s)) ->
  exists once twice,
    fst (filter_levels py_eval level_type levels args1 is_breached'
           ignore_is_breach) = Ok once /\
    fst (filter_levels py_eval level_type once args2 is_breached'
           ignore_is_breach) = Ok twice /\
    fst (filter_levels py_eval level_type levels (args1 ++ args2)
           is_breached' ignore_is_breach) = Ok twice /\
    fst (filter_levels py_eval level_type levels (args2 ++ args1)
           is_breached' ignore_is_breach) = Ok twice.
Proof.
  intros H1 H2 Hev.
  exists (filter (passes py_eval conditions1 is_breached' ignore_is_breach)
            levels),
    (filter (passes py_eval (conditions1 ++ conditions2) is_breached'
               ignore_is_breach) levels).
  unfold filter_levels.
  rewrite !process_conditions_app, H1, H2. cbn [rbind].
  split; [|split; [|split]].
  - apply filter_loop_total. intros c s Hc Hs.
    apply (Hev c s); [apply in_or_app; now left | exact Hs].
  - rewrite filter_loop_total.
    + f_equal. rewrite filter_filter. apply filter_ext.
      intros level. now rewrite passes_app.
    + intros c s Hc Hs. apply filter_In in Hs as [Hs _].
      apply (Hev c s); [apply in_or_app; now right | exact Hs].
  - apply filter_loop_total. intros c s Hc Hs. now apply (Hev c s).
  - rewrite filter_loop_total.
    + f_equal. apply filter_ext. intros level.
      rewrite !passes_app. apply andb_comm.
    + intros c s Hc Hs. apply (Hev c s); [|exact Hs].
      apply in_app_or in Hc. apply in_or_app. tauto.
Qed.

(** X14: filtering in two steps is filtering once.  When every condition
    evaluates to a truth value on every record, [filter_supports] with one
    list of conditions followed by [filter_supports] with a second list
    returns what one call with the two lists appended returns, in either
    order; the same for [filter_resistances]. *)
Theorem filter_twice (py_eval : string -> Support -> result bool) levels
    args1 args2 (is_breached' ignore_is_breach : bool) :
  (forall conditions1 conditions2,
     process_conditions args1 "support" = Ok conditions1 ->
     process_conditions args2 "support" = Ok conditions2 ->
     (forall c s, In c (conditions1 ++ conditions2) -> In s levels ->
        evaluated py_eval (c, s)) ->
     exists once twice,
       fst (filter_supports py_eval levels args1 is_breached'
              ignore_is_breach) = Ok once /\
       fst (filter_supports py_eval once args2 is_breached'
              ignore_is_breach) = Ok twice /\
       fst (filter_supports py_eval levels (args1 ++ args2) is_breached'
              ignore_is_breach) = Ok twice /\
       fst (filter_supports py_eval levels (args2 ++ args1) is_breached'
              ignore_is_breach) = Ok twice) /\
  (forall conditions1 conditions2,
     process_conditions args1 "resistance" = Ok conditions1 ->
     process_conditions args2 "resistance" = Ok conditions2 ->
     (forall c s, In c (conditions1 ++ conditions2) -> In s levels ->
        evaluated py_eval (c, s)) ->
     exists once twice,
       fst (filter_resistances py_eval levels args1 is_breached'
              ignore_is_breach) = Ok once /\
       fst (filter_resistances py_eval once args2 is_breached'
              ignore_is_breach) = Ok twice /\
       fst (filter_resistances py_eval levels (args1 ++ args2) is_breached'
              ignore_is_breach) = Ok twice /\
       fst (filter_resistances py_eval levels (args2 ++ args1) is_breached'
              ignore_is_breach) = Ok twice).
Proof.
  split; intros conditions1 conditions2;
    apply filter_levels_twice.
Qed.

Lemma filter_twice_witness :
  exists once twice,
    fst (filter_supports example_eval [support90; support4]
           ["nums > 3"]%string false false) = Ok once /\
    fst (filter_supports example_eval once ["duration < 200"]%string
           false false) = Ok twice /\
    fst (filter_supports example_eval [support90; support4]
           (["nums > 3"%string] ++ ["duration < 200"%string]) false false) =
      Ok twice /\
    fst (filter_supports example_eval [support90; support4]
           (["duration < 200"%string] ++ ["nums > 3"%string]) false false) =
      Ok twice.
Proof.
  apply (proj1 (filter_twice example_eval [support90; support4]
                  ["nums > 3"]%string ["duration < 200"]%string false false)
           ["support.num_touches > 3"]%string
           ["support.time_period_int < 200"]%string).
  - vm_compute. reflexivity.
  - vm_compute. reflexivity.
  - intros c s [<-|[<-|[]]] _; eexists; reflexivity.
Defined.

(** X15: [process_conditions] is all or nothing.  It returns one processed
    condition for each condition, in order, when every condition is
    accepted; otherwise it raises the error of the first condition that is
    refused, whatever follows it. *)
Theorem process_conditions_first_refusal level_type args :
  match process_conditions args level_type with
  | Ok conditions_list =>
      Forall2 (fun condition condition' =>
                 process_condition level_type condition = Ok condition')
        args conditions_list
  | Raise e =>
      exists before condition after,
        args = before ++ condition :: after /\
        Forall (fun c => exists c', process_condition level_type c = Ok c')
          before /\
        process_condition level_type condition = Raise e
  end.
Proof.
  induction args as [|condition rest IH]; [constructor|].
  cbn [process_conditions].
  destruct (process_condition level_type condition) as [condition'|e] eqn:Ec;
    cbn [rbind].
  - destruct (process_conditions rest level_type) as [conditions_list|e];
      cbn [rbind].
    + now constructor.
    + destruct IH as (before & c & after & -> & Hb & Hc).
      exists (condition :: before), c, after.
      repeat split; [|exact Hc].
      constructor; [now exists condition' | exact Hb].
  - exists [], condition, rest. repeat split; [constructor | exact Ec].
Qed.

Lemma lower_char_idempotent c : lower_char (lower_char c) = lower_char c.
Proof.
  destruct c as [[|] [|] [|] [|] [|] [|] [|] [|]]; vm_compute; reflexivity.
Qed.

Lemma py_lower_idempotent s : py_lower (py_lower s) = py_lower s.
Proof.
  induction s as [|c s IH]; [reflexivity|].
  simpl. now rewrite lower_char_idempotent, IH.
Qed.

Lemma process_condition_lower level_type condition :
  process_condition level_type (py_lower condition) =
  process_condition level_type condition.
Proof. unfold process_condition. now rewrite py_lower_idempotent. Qed.

(** X16: the conditions are read without regard to the case of their
    letters: [process_conditions] gives the same result on the conditions
    written in lower case. *)
Theorem process_conditions_case_insensitive level_type args :
  process_conditions (map py_lower args) level_type =
  process_conditions args level_type.
Proof.
  induction args as [|condition rest IH]; [reflexivity|].
  cbn [map process_conditions].
  now rewrite process_condition_lower, IH.
Qed.

(* ================================================================== *)
(** ** Level validator *)

Lemma calculate_tolerance_some column :
  column <> [] -> exists tolerance, calculate_tolerance column = Ok tolerance.
Proof.
  intros Hne.
  destruct (py_max_spec column Hne) as (hi & Emax & _).
  destruct (py_min_spec column Hne) as (lo & Emin & _).
  unfold calculate_tolerance, series_range. rewrite Emax, Emin.
  cbn [rbind]. eexists. reflexivity.
Qed.

Lemma calculate_tolerance_empty : calculate_tolerance [] = Raise ValueError.
Proof. reflexivity. Qed.

Lemma validator_outcomes_all level table :
  validator_outcome level table (is_support_valid level table) /\
  validator_outcome level table (is_support_broken level table) /\
  validator_outcome level table (is_resistance_valid level table) /\
  validator_outcome level table (is_resistance_broken level table).
Proof.
  unfold validator_outcome.
  destruct level as [n [|touch touches]]; [repeat split|].
  cbn [snd].
  assert (Hne : snd (n, touch :: touches) <> []) by discriminate.
  destruct (index_first_some _ (keys_nonempty _ Hne)) as [latest Hl].
  destruct (index_last_some _ (keys_nonempty _ Hne)) as [earliest He].
  destruct (mean_some _ (values_nonempty _ Hne)) as [avg_price Hm].
  destruct table as [cols [|row rows']]; cbn [rows].
  - unfold is_support_valid, is_support_broken, is_resistance_valid,
      is_resistance_broken, bind, lift.
    rewrite Hl, He, Hm. repeat split.
  - assert (Hc : values (row :: rows') <> []) by discriminate.
    destruct (calculate_tolerance_some _ Hc) as [tolerance Ht].
    unfold is_support_valid, is_support_broken, is_resistance_valid,
      is_resistance_broken, bind, lift, ret, set_columns, get_price, loc.
    rewrite Hl, He, Hm. cbn [rows fst snd]. rewrite Ht.
    repeat split; eexists; reflexivity.
Qed.

(** X17: the four functions of the validator end in one of three ways.
    On a level without a touch they raise [IndexError] and leave the table
    as it was; on a level with a touch and a table without rows they raise
    [ValueError], the columns already relabelled; otherwise they return,
    the columns relabelled. *)
Theorem validator_outcomes level table :
  validator_outcome level table (is_support_valid level table) /\
  validator_outcome level table (is_support_broken level table) /\
  validator_outcome level table (is_resistance_valid level table) /\
  validator_outcome level table (is_resistance_broken level table).
Proof. exact (validator_outcomes_all level table). Qed.

(* ================================================================== *)
(** ** Level record builder: the lists of records *)

Lemma create_support_objects_list_loop today group most_recents stock_name :
  create_support_objects_list today group most_recents stock_name =
  objects_list is_support_valid is_support_broken today group most_recents
    stock_name.
Proof.
  induction group as [|level rest IH]; [reflexivity|].
  cbn [create_support_objects_list objects_list]. now rewrite IH.
Qed.

Lemma create_resistance_objects_list_loop today group most_recents
    stock_name :
  create_resistance_objects_list today group most_recents stock_name =
  objects_list is_resistance_valid is_resistance_broken today group
    most_recents stock_name.
Proof.
  induction group as [|level rest IH]; [reflexivity|].
  cbn [create_resistance_objects_list objects_list]. now rewrite IH.
Qed.

(** The verdicts of the validator do not depend on the names of the
    columns of the table. *)
Lemma validator_columns level cols cols' rs :
  fst (is_support_valid level (mkDataFrame cols rs)) =
    fst (is_support_valid level (mkDataFrame cols' rs)) /\
  fst (is_support_broken level (mkDataFrame cols rs)) =
    fst (is_support_broken level (mkDataFrame cols' rs)) /\
  fst (is_resistance_valid level (mkDataFrame cols rs)) =
    fst (is_resistance_valid level (mkDataFrame cols' rs)) /\
  fst (is_resistance_broken level (mkDataFrame cols rs)) =
    fst (is_resistance_broken level (mkDataFrame cols' rs)).
Proof.
  unfold is_support_valid, is_support_broken, is_resistance_valid,
    is_resistance_broken, bind, lift, ret, set_columns, get_price, loc.
  destruct (index_first (sorted_reverse (keys (snd level))));
    [|repeat split].
  destruct (index_last (sorted_reverse (keys (snd level))));
    destruct (mean (values (snd level))); cbn [rows fst snd];
    destruct (calculate_tolerance (values rs)); repeat split.
Qed.

Section ObjectsList.
Variable is_valid : Z * list (Z * Q) -> M bool.
Variable is_broken : Z * list (Z * Q) -> M (bool * DataFrame).
Hypothesis is_valid_outcome : forall level table,
  validator_outcome level table (is_valid level table).
Hypothesis is_broken_outcome : forall level table,
  validator_outcome level table (is_broken level table).
Hypothesis is_valid_columns : forall level cols cols' rs,
  fst (is_valid level (mkDataFrame cols rs)) =
  fst (is_valid level (mkDataFrame cols' rs)).
Hypothesis is_broken_columns : forall level cols cols' rs,
  fst (is_broken level (mkDataFrame cols rs)) =
  fst (is_broken level (mkDataFrame cols' rs)).
Hypothesis is_broken_flag : forall level table is_breached breach_data,
  fst (is_broken level table) = Ok (is_breached, breach_data) ->
  is_breached = negb (empty breach_data).

Lemma objects_list_run today most_recents stock_name group :
  forall cols row rs,
  Forall (fun level =>
            snd level <> [] /\ ~ is_latest today (keys (snd level))) group ->
  exists objects,
    objects_list is_valid is_broken today group most_recents stock_name
      (mkDataFrame cols (row :: rs)) =
    (Ok objects,
     match group with
     | [] => mkDataFrame cols (row :: rs)
     | _ => mkDataFrame date_price (row :: rs)
     end) /\
    Forall2 (built_from is_broken today most_recents stock_name
               (mkDataFrame cols (row :: rs)))
      (filter (found_valid is_valid (mkDataFrame cols (row :: rs))) group)
      objects.
Proof.
  induction group as [|level rest IH]; intros cols row rs Hgroup.
  - exists []. split; [reflexivity | constructor].
  - inversion Hgroup as [|? ? [Hne Htoday] Hrest]; subst.
    destruct (IH date_price row rs Hrest) as (objects & Erest & Hbuilt).
    assert (Estate :
      match rest with
      | [] => mkDataFrame date_price (row :: rs)
      | _ => mkDataFrame date_price (row :: rs)
      end = mkDataFrame date_price (row :: rs)) by now destruct rest.
    rewrite Estate in Erest. clear Estate.
    assert (Hbuilt' :
      Forall2 (built_from is_broken today most_recents stock_name
                 (mkDataFrame cols (row :: rs)))
        (filter (found_valid is_valid (mkDataFrame cols (row :: rs))) rest)
        objects).
    { replace (filter (found_valid is_valid (mkDataFrame cols (row :: rs)))
                 rest)
        with (filter (found_valid is_valid
                        (mkDataFrame date_price (row :: rs))) rest).
      - eapply Forall2_impl; [|exact Hbuilt].
        intros l s (H1 & H2 & H3). split; [|split; assumption].
        now rewrite (is_broken_columns l cols date_price).
      - apply filter_ext. intros l. unfold found_valid.
        now rewrite (is_valid_columns l cols date_price). }
    pose proof (is_valid_outcome level (mkDataFrame cols (row :: rs))) as Hv.
    unfold validator_outcome in Hv. cbn [rows] in Hv.
    destruct (snd level) as [|touch touches] eqn:Elevel; [contradiction|].
    destruct Hv as [valid Ev].
    cbn [objects_list filter]. unfold found_valid at 1.
    unfold bind at 1. rewrite Ev. cbn [fst].
    destruct valid; [|exists objects; split; [exact Erest | exact Hbuilt']].
    pose proof (is_broken_outcome level (mkDataFrame date_price (row :: rs)))
      as Hb.
    unfold validator_outcome in Hb. cbn [rows] in Hb. rewrite Elevel in Hb.
    destruct Hb as [[is_breached breach_data] Eb].
    unfold bind at 1. rewrite Eb. cbn [fst snd].
    pose proof (Support_init_cases today (fst level) (snd level) is_breached
                  breach_data most_recents stock_name) as Hs.
    rewrite <- surjective_pairing in Hs.
    destruct (Support_init today level is_breached breach_data most_recents
                stock_name) as [s|[| | |]] eqn:Es.
    + destruct Hs as (earliest & latest & _ & _ & _ & _ & _ & _ & _ & _ & _
                      & _ & _ & Hbr & Hbd).
      unfold bind at 1, lift at 1. unfold bind at 1. rewrite Erest.
      exists (s :: objects). split; [reflexivity|].
      constructor; [|exact Hbuilt'].
      assert (Efst : fst (is_broken level (mkDataFrame cols (row :: rs))) =
                     Ok (is_breached, breach_data)).
      { rewrite (is_broken_columns level cols date_price), Eb. reflexivity. }
      unfold built_from. rewrite Hbr, Hbd.
      split; [exact Efst|]. split; [|exact Es].
      exact (is_broken_flag _ _ _ _ Efst).
    + exfalso. rewrite ?Elevel in Hs.
      first [exact Hs | discriminate Hs | exact (Htoday Hs)].
    + exfalso. rewrite ?Elevel in Hs.
      first [exact Hs | discriminate Hs | exact (Htoday Hs)].
    + destruct Hs.
    + destruct Hs.
Qed.
End ObjectsList.

Lemma is_support_broken_flag level table is_breached breach_data :
  fst (is_support_broken level table) = Ok (is_breached, breach_data) ->
  is_breached = negb (empty breach_data).
Proof.
  unfold is_support_broken, bind, lift, ret, set_columns, get_price, loc.
  destruct (index_first _); [|discriminate].
  destruct (mean _); [|discriminate]. cbn [rows fst snd].
  destruct (calculate_tolerance _); [|discriminate]. cbn [fst].
  intros H. injection H as <- <-. now destruct (empty _).
Qed.

Lemma is_resistance_broken_flag level table is_breached breach_data :
  fst (is_resistance_broken level table) = Ok (is_breached, breach_data) ->
  is_breached = negb (empty breach_data).
Proof.
  unfold is_resistance_broken, bind, lift, ret, set_columns, get_price, loc.
  destruct (index_first _); [|discriminate].
  destruct (mean _); [|discriminate]. cbn [rows fst snd].
  destruct (calculate_tolerance _); [|discriminate]. cbn [fst].
  intros H. injection H as <- <-. now destruct (empty _).
Qed.

(** X18: on a table with at least one row and levels that each have a
    touch, the latest not dated today, [create_support_objects_list]
    returns one record for each level that [is_support_valid] accepts, in
    the order of the levels and none for the others; each record is built
    from its level with the verdict and the rows of [is_support_broken],
    and is flagged as breached exactly when those rows are not empty.  The
    table is left with its columns relabelled unless there is no level.
    [create_resistance_objects_list] is the mirror. *)
Theorem create_objects_list_valid_levels today group most_recents stock_name
    table :
  rows table <> [] ->
  Forall (fun level =>
            snd level <> [] /\ ~ is_latest today (keys (snd level))) group ->
  let left :=
    match group with
    | [] => table
    | _ => mkDataFrame date_price (rows table)
    end in
  (exists objects,
     create_support_objects_list today group most_recents stock_name table =
       (Ok objects, left) /\
     Forall2 (built_from is_support_broken today most_recents stock_name
                table)
       (filter (found_valid is_support_valid table) group) objects) /\
  (exists objects,
     create_resistance_objects_list today group most_recents stock_name
       table = (Ok objects, left) /\
     Forall2 (built_from is_resistance_broken today most_recents stock_name
                table)
       (filter (found_valid is_resistance_valid table) group) objects).
Proof.
  intros Hrows Hgroup left. subst left.
  destruct table as [cols [|row rs]]; [contradiction|]. cbn [rows].
  rewrite create_support_objects_list_loop,
    create_resistance_objects_list_loop.
  split; apply objects_list_run; try exact Hgroup.
  - intros level table. apply validator_outcomes_all.
  - intros level table. apply validator_outcomes_all.
  - intros level c c' r. apply validator_columns.
  - intros level c c' r. apply validator_columns.
  - apply is_support_broken_flag.
  - intros level table. apply validator_outcomes_all.
  - intros level table. apply validator_outcomes_all.
  - intros level c c' r. apply validator_columns.
  - intros level c c' r. apply validator_columns.
  - apply is_resistance_broken_flag.
Qed.

Lemma create_objects_list_valid_levels_witness :
  let table := mkDataFrame ["date"; "low"]%string descending_table in
  (exists objects,
     create_support_objects_list 20 [descending_level] (13, 110#1) "ACME"
       table = (Ok objects, mkDataFrame date_price (rows table)) /\
     Forall2 (built_from is_support_broken 20 (13, 110#1) "ACME" table)
       (filter (found_valid is_support_valid table) [descending_level])
       objects) /\
  (exists objects,
     create_resistance_objects_list 20 [descending_level] (13, 110#1) "ACME"
       table = (Ok objects, mkDataFrame date_price (rows table)) /\
     Forall2 (built_from is_resistance_broken 20 (13, 110#1) "ACME" table)
       (filter (found_valid is_resistance_valid table) [descending_level])
       objects).
Proof.
  apply (create_objects_list_valid_levels 20 [descending_level] (13, 110#1)
           "ACME" (mkDataFrame ["date"; "low"]%string descending_table)).
  - discriminate.
  - constructor; [|constructor]. split; [discriminate|].
    intros [Hin _]. simpl in Hin.
    destruct Hin as [H|[H|[H|[]]]]; discriminate H.
Defined.

Example create_support_objects_list_example :
  exists s,
    fst (create_support_objects_list 20 [descending_level] (13, 110#1) "ACME"
           (mkDataFrame ["date"; "low"]%string descending_table)) = Ok [s] /\
    is_breached s = false /\ num_touches s = 3 /\ time_period_int s = 8.
Proof. eexists. split; [vm_compute; reflexivity|]. repeat split. Qed.

(* ================================================================== *)
(** ** From a table to records *)

Lemma manipulate_groups_values tolerance_groups g :
  In g (manipulate_groups tolerance_groups) ->
  In (snd g) (values tolerance_groups).
Proof.
  unfold manipulate_groups. intros Hin.
  apply py_sorted_in, remove_duplicates_incl, in_map_iff in Hin
    as (value & <- & Hin).
  apply filter_In in Hin as [Hin _]. exact Hin.
Qed.

Lemma centre_of_in shape table d p :
  centre_of shape table d p -> In (d, p) table.
Proof.
  intros (pre & r1 & r2 & r4 & r5 & post & -> & _).
  apply in_or_app. right. right. right. now left.
Qed.

Lemma Forall2_in_right {A B : Type} (R : A -> B -> Prop) l1 l2 :
  Forall2 R l1 l2 -> forall y, In y l2 -> exists x, In x l1 /\ R x y.
Proof.
  induction 1 as [|x y l1 l2 Hxy _ IH]; intros z Hz; [destruct Hz|].
  destruct Hz as [<- | Hz].
  - exists x. split; [now left | exact Hxy].
  - destruct (IH z Hz) as (x' & Hin & HR). exists x'. split; [now right | exact HR].
Qed.

Section Pipeline.
Variable finder : list (Z * Q) -> list (Z * Q).
Variable shape : Q -> Q -> Q -> Q -> Q -> Prop.
Variable is_valid : Z * list (Z * Q) -> M bool.
Variable is_broken : Z * list (Z * Q) -> M (bool * DataFrame).
Hypothesis finder_sound : forall table d p,
  In (d, p) (finder table) -> centre_of shape table d p.
Hypothesis is_valid_outcome : forall level table,
  validator_outcome level table (is_valid level table).
Hypothesis is_broken_outcome : forall level table,
  validator_outcome level table (is_broken level table).
Hypothesis is_valid_columns : forall level cols cols' rs,
  fst (is_valid level (mkDataFrame cols rs)) =
  fst (is_valid level (mkDataFrame cols' rs)).
Hypothesis is_broken_columns : forall level cols cols' rs,
  fst (is_broken level (mkDataFrame cols rs)) =
  fst (is_broken level (mkDataFrame cols' rs)).
Hypothesis is_broken_flag : forall level table is_breached breach_data,
  fst (is_broken level table) = Ok (is_breached, breach_data) ->
  is_breached = negb (empty breach_data).

Lemma pipeline_groups table index_groups_final :
  process_groups (values table) (finder table) = Ok index_groups_final ->
  forall g, In g index_groups_final ->
    3 <= fst g /\ fst g = len (snd g) /\
    forall d p, In (d, p) (snd g) -> centre_of shape table d p.
Proof.
  unfold process_groups, create_tolerance_function.
  destruct (calculate_tolerance (values table)) as [tolerance|e];
    [|discriminate].
  cbn [rbind]. intros H g Hg. injection H as <-.
  apply remove_redundant_groups_incl in Hg.
  destruct (manipulate_groups_touch_count _ _ Hg) as [H3 Hlen].
  split; [exact H3|]. split; [exact Hlen|].
  intros d p Hin. apply manipulate_groups_values in Hg.
  unfold values in Hg. apply in_map_iff in Hg as ([key inner] & Einner & Hg).
  cbn [snd] in Einner. subst inner.
  apply finder_sound.
  exact (proj1 (create_tolerance_group_sound_all _ _ _ _ Hg _ _ Hin)).
Qed.

Lemma pipeline_run today cols table most_recents stock_name :
  table <> [] ->
  (forall d, In d (keys table) -> d < today) ->
  exists index_groups_final objects,
    process_groups (values table) (finder table) = Ok index_groups_final /\
    fst (objects_list is_valid is_broken today index_groups_final
           most_recents stock_name (mkDataFrame cols table)) = Ok objects /\
    Forall (level_of_table shape table) objects.
Proof.
  intros Hne Htoday.
  assert (Hc : values table <> []) by now apply values_nonempty.
  destruct (calculate_tolerance_some _ Hc) as [tolerance Ht].
  destruct (process_groups (values table) (finder table))
    as [index_groups_final|e] eqn:Eg.
  2:{ unfold process_groups, create_tolerance_function in Eg.
      rewrite Ht in Eg. discriminate. }
  pose proof (pipeline_groups table index_groups_final Eg) as Hgroups.
  assert (Hdates : forall g, In g index_groups_final ->
            forall d, In d (keys (snd g)) -> d < today).
  { intros g Hg d Hd. unfold keys in Hd.
    apply in_map_iff in Hd as ([d' p] & <- & Hin).
    apply Htoday. unfold keys.
    apply (in_map fst _ (d', p)).
    eapply centre_of_in. exact (proj2 (proj2 (Hgroups g Hg)) d' p Hin). }
  assert (Hpre : Forall (fun level =>
             snd level <> [] /\ ~ is_latest today (keys (snd level)))
            index_groups_final).
  { apply Forall_forall. intros g Hg. split.
    - destruct (Hgroups g Hg) as (H3 & Hlen & _).
      intros E. rewrite E in Hlen. cbn in Hlen. lia.
    - intros [Hin _]. specialize (Hdates g Hg today Hin). lia. }
  destruct table as [|row rs]; [contradiction|].
  destruct (objects_list_run is_valid is_broken is_valid_outcome
              is_broken_outcome is_valid_columns is_broken_columns
              is_broken_flag today most_recents stock_name index_groups_final
              cols row rs Hpre) as (objects & Erun & Hbuilt).
  exists index_groups_final, objects.
  split; [reflexivity|]. split; [now rewrite Erun|].
  apply Forall_forall. intros s Hs.
  destruct (Forall2_in_right _ _ _ Hbuilt s Hs) as (level & Hlevel & _ & _ & Es).
  apply filter_In in Hlevel as [Hlevel _].
  destruct (Hgroups level Hlevel) as (H3 & Hlen & Hcentre).
  pose proof (Support_init_cases today (fst level) (snd level) (is_breached s)
                (breach_data s) most_recents stock_name) as Hcases.
  rewrite <- surjective_pairing, Es in Hcases.
  destruct Hcases as (earliest & latest & _ & [Hlatest _] & _ & _ & Hperiod
                      & Hsince & _ & Hrows & Hlength & Htouches & _).
  unfold level_of_table.
  split; [now rewrite Htouches|].
  split; [rewrite Htouches, Hlen; unfold len; now rewrite Hlength|].
  split; [intros d p Hin; apply Hcentre; now apply Hrows|].
  split; [exact Hperiod|].
  rewrite Hsince. specialize (Hdates level Hlevel latest Hlatest). lia.
Qed.
End Pipeline.

Lemma find_supports_sound table d p :
  In (d, p) (find_supports table) -> centre_of trough_shape table d p.
Proof.
  unfold find_supports. rewrite find_supports_loop_window.
  apply window_loop_spec. intros a b c e f. unfold trough_shape.
  rewrite !andb_true_iff, !Qlt_bool_iff. tauto.
Qed.

Lemma find_resistances_sound table d p :
  In (d, p) (find_resistances table) -> centre_of peak_shape table d p.
Proof.
  unfold find_resistances. rewrite find_resistances_loop_window.
  apply window_loop_spec. intros a b c e f. unfold peak_shape.
  rewrite !andb_true_iff, !Qlt_bool_iff. tauto.
Qed.

(** X19: the three steps that [calculate_supports] chains, on a table with
    at least one row, all dated before today: [find_supports], then
    [process_groups] on its candidates, then [create_support_objects_list]
    on the groups.  No step raises, and every record returned has at least
    three touches, as many as rows of data, each of them the centre of five
    consecutive rows of the table forming a strict dip and rise.  The same
    for [find_resistances] and [create_resistance_objects_list], with a
    strict rise and dip. *)
Theorem table_to_records today cols table most_recents stock_name :
  table <> [] ->
  (forall d, In d (keys table) -> d < today) ->
  (exists index_groups_final supports,
     process_groups (values table) (find_supports table) =
       Ok index_groups_final /\
     fst (create_support_objects_list today index_groups_final most_recents
            stock_name (mkDataFrame cols table)) = Ok supports /\
     Forall (level_of_table trough_shape table) supports) /\
  (exists index_groups_final resistances,
     process_groups (values table) (find_resistances table) =
       Ok index_groups_final /\
     fst (create_resistance_objects_list today index_groups_final
            most_recents stock_name (mkDataFrame cols table)) =
       Ok resistances /\
     Forall (level_of_table peak_shape table) resistances).
Proof.
  intros Hne Htoday. split.
  - destruct (pipeline_run find_supports trough_shape is_support_valid
                is_support_broken find_supports_sound
                (fun level table => proj1 (validator_outcomes_all level table))
                (fun level table =>
                   proj1 (proj2 (validator_outcomes_all level table)))
                (fun level c c' r => proj1 (validator_columns level c c' r))
                (fun level c c' r =>
                   proj1 (proj2 (validator_columns level c c' r)))
                is_support_broken_flag today cols table most_recents
                stock_name Hne Htoday) as (groups & objects & H1 & H2 & H3).
    exists groups, objects. rewrite create_support_objects_list_loop. auto.
  - destruct (pipeline_run find_resistances peak_shape is_resistance_valid
                is_resistance_broken find_resistances_sound
                (fun level table =>
                   proj1 (proj2 (proj2 (validator_outcomes_all level table))))
                (fun level table =>
                   proj2 (proj2 (proj2 (validator_outcomes_all level table))))
                (fun level c c' r =>
                   proj1 (proj2 (proj2 (validator_columns level c c' r))))
                (fun level c c' r =>
                   proj2 (proj2 (proj2 (validator_columns level c c' r))))
                is_resistance_broken_flag today cols table most_recents
                stock_name Hne Htoday) as (groups & objects & H1 & H2 & H3).
    exists groups, objects. rewrite create_resistance_objects_list_loop. auto.
Qed.

Lemma table_to_records_witness :
  (exists index_groups_final supports,
     process_groups (values descending_table)
       (find_supports descending_table) = Ok index_groups_final /\
     fst (create_support_objects_list 20 index_groups_final (13, 110#1)
            "ACME" (mkDataFrame ["date"; "low"]%string descending_table)) =
       Ok supports /\
     Forall (level_of_table trough_shape descending_table) supports) /\
  (exists index_groups_final resistances,
     process_groups (values descending_table)
       (find_resistances descending_table) = Ok index_groups_final /\
     fst (create_resistance_objects_list 20 index_groups_final (13, 110#1)
            "ACME" (mkDataFrame ["date"; "low"]%string descending_table)) =
       Ok resistances /\
     Forall (level_of_table peak_shape descending_table) resistances).
Proof.
  apply (table_to_records 20 ["date"; "low"]%string descending_table
           (13, 110#1) "ACME").
  - discriminate.
  - intros d Hd. simpl in Hd.
    repeat (destruct Hd as [<- | Hd]; [reflexivity|]). destruct Hd.
Defined.

(* ================================================================== *)
(** ** Level clusterer: the order of the groups *)

Lemma StronglySorted_filter {A : Type} (R : A -> A -> Prop) (f : A -> bool) l :
  StronglySorted R l -> StronglySorted R (filter f l).
Proof.
  induction 1 as [|a l Hl IH Ha]; simpl; [constructor|].
  destruct (f a); [|exact IH].
  constructor; [exact IH|].
  rewrite Forall_forall in Ha |- *. intros x Hx.
  apply filter_In in Hx as [Hx _]. now apply Ha.
Qed.

Lemma ForallOrdPairs_filter {A : Type} (R : A -> A -> Prop) (f : A -> bool) l :
  ForallOrdPairs R l -> ForallOrdPairs R (filter f l).
Proof.
  induction 1 as [|a l Ha Hl IH]; simpl; [constructor|].
  destruct (f a); [|exact IH].
  constructor; [|exact IH].
  rewrite Forall_forall in Ha |- *. intros x Hx.
  apply filter_In in Hx as [Hx _]. now apply Ha.
Qed.

Lemma Forall_filter_closed {A : Type} (P : A -> Prop) (f : A -> bool) l :
  Forall P l -> Forall P (filter f l).
Proof.
  rewrite !Forall_forall. intros H x Hx.
  apply filter_In in Hx as [Hx _]. now apply H.
Qed.

Lemma sieve_loop_closed (P : list (Z * list (Z * Q)) -> Prop) :
  (forall f l, P l -> P (filter f l)) ->
  forall fuel i l, P l -> P (sieve_loop fuel i l).
Proof.
  intros Hf. induction fuel as [|fuel IH]; intros i l Hl; [exact Hl|].
  cbn [sieve_loop]. destruct (nth_error l i) as [g1|]; [|exact Hl].
  apply IH. unfold keep_after. now apply Hf.
Qed.

Lemma remove_redundant_groups_closed (P : list (Z * list (Z * Q)) -> Prop) l :
  (forall f l, P l -> P (filter f l)) ->
  Forall group_wf l -> P l -> P (remove_redundant_groups l).
Proof.
  intros Hf Hwf Hl. unfold remove_redundant_groups.
  rewrite rrg_loop_sieve; [|exact Hwf|intros x y []].
  now apply sieve_loop_closed.
Qed.

(** X20: the groups that [process_groups] returns are listed by descending
    touch count, no two of them are equal, and the dates of each are
    distinct; the first is the first of the sorted groups, so no group of
    three touches or more formed by the clusterer has more touches than
    it. *)
Theorem process_groups_ordered series possible_levels_values
    index_groups_final :
  process_groups series possible_levels_values = Ok index_groups_final ->
  sorted_by_touches index_groups_final /\
  duplicate_free index_groups_final /\
  Forall group_wf index_groups_final /\
  exists within_tolerance,
    create_tolerance_function series = Ok within_tolerance /\
    forall value,
      In value (values (create_tolerance_group possible_levels_values
                          within_tolerance)) ->
      3 <= len value ->
      exists first,
        hd_error index_groups_final = Some first /\ len value <= fst first.
Proof.
  unfold process_groups.
  destruct (create_tolerance_function series) as [within|e]; [|discriminate].
  cbn [rbind]. intros H. injection H as <-.
  destruct (manipulate_groups_invariant possible_levels_values within)
    as (Hwf & Hdf & Hsorted).
  set (tolerance_groups :=
         create_tolerance_group possible_levels_values within) in *.
  split; [|split; [|split]].
  - apply remove_redundant_groups_closed; trivial.
    intros f l. apply StronglySorted_filter.
  - apply remove_redundant_groups_closed; trivial.
    intros f l. apply ForallOrdPairs_filter.
  - apply remove_redundant_groups_closed; trivial.
    intros f l. apply Forall_filter_closed.
  - exists within. split; [reflexivity|]. intros value Hin Hlen.
    destruct (remove_redundant_groups_spec _ Hwf) as (_ & _ & _ & Hhd).
    rewrite Hhd.
    assert (Hg : exists g, In g (manipulate_groups tolerance_groups) /\
                           fst g = len value).
    { pose proof (manipulate_groups_covers tolerance_groups value
                    (create_tolerance_group_wf _ _) Hin Hlen) as Hc.
      unfold list_contains in Hc.
      apply existsb_exists in Hc as (g & Hgin & Heq).
      exists g. split; [exact Hgin|].
      unfold group_eqb in Heq. apply andb_true_iff in Heq as [Heq _].
      apply Z.eqb_eq in Heq. exact Heq. }
    destruct Hg as (g & Hg & Hfst).
    unfold sorted_by_touches in Hsorted.
    destruct (manipulate_groups tolerance_groups) as [|first l];
      [destruct Hg|].
    exists first. split; [reflexivity|].
    destruct Hg as [<- | Hg]; [lia|].
    inversion Hsorted as [|? ? _ Hfirst]; subst.
    rewrite Forall_forall in Hfirst. specialize (Hfirst g Hg). lia.
Qed.

Lemma process_groups_ordered_witness :
  let index_groups_final :=
    [(4, [(1, 100#1); (2, 101#1); (3, 99#1); (4, 100#1)]);
     (3, [(5, 108#1); (6, 109#1); (7, 110#1)])] in
  sorted_by_touches index_groups_final /\
  duplicate_free index_groups_final /\
  Forall group_wf index_groups_final /\
  exists within_tolerance,
    create_tolerance_function [100#1; 101#1; 99#1; 150#1] =
      Ok within_tolerance /\
    forall value,
      In value (values (create_tolerance_group
                          [(1, 100#1); (2, 101#1); (3, 99#1); (4, 100#1);
                           (5, 108#1); (6, 109#1); (7, 110#1)]
                          within_tolerance)) ->
      3 <= len value ->
      exists first,
        hd_error index_groups_final = Some first /\ len value <= fst first.
Proof.
  apply (process_groups_ordered [100#1; 101#1; 99#1; 150#1]
           [(1, 100#1); (2, 101#1); (3, 99#1); (4, 100#1);
            (5, 108#1); (6, 109#1); (7, 110#1)]).
  vm_compute. reflexivity.
Defined.

(* ================================================================== *)
(** ** Tables as dictionaries *)

Lemma dict_set_fresh (d : list (Z * Q)) k v :
  ~ In k (keys d) -> dict_set Z.eqb d k v = d ++ [(k, v)].
Proof.
  unfold keys. induction d as [|[k0 v0] d IH]; intros Hk; [reflexivity|].
  simpl in Hk |- *. destruct (Z.eqb_spec k0 k) as [->|Hne].
  - exfalso. apply Hk. now left.
  - rewrite IH; [reflexivity|]. intros H. apply Hk. now right.
Qed.

Lemma fold_dict_set_fresh (l : list (Z * Q)) : forall acc,
  NoDup (keys (acc ++ l)) ->
  fold_left
    (fun values_dict row => dict_set Z.eqb values_dict (fst row) (snd row))
    l acc = acc ++ l.
Proof.
  induction l as [|[k v] l IH]; intros acc Hnd; simpl.
  - now rewrite app_nil_r.
  - assert (Hk : ~ In k (keys acc)).
    { unfold keys in *. rewrite map_app in Hnd. simpl in Hnd.
      apply NoDup_remove_2 in Hnd. intros H. apply Hnd.
      apply in_or_app. now left. }
    rewrite (dict_set_fresh _ _ _ Hk).
    rewrite IH; now rewrite <- app_assoc.
Qed.

Lemma find_snoc {A : Type} (f : A -> bool) l x :
  find f (l ++ [x]) =
  match find f l with
  | Some y => Some y
  | None => if f x then Some x else None
  end.
Proof.
  induction l as [|a l IH]; simpl; [reflexivity|].
  destruct (f a); [reflexivity | exact IH].
Qed.

Lemma fold_dict_set_get (l : list (Z * Q)) : forall acc d,
  dict_get Z.eqb
    (fold_left
       (fun values_dict row => dict_set Z.eqb values_dict (fst row) (snd row))
       l acc) d =
  match find (fun row => fst row =? d) (rev l) with
  | Some row => Some (snd row)
  | None => dict_get Z.eqb acc d
  end.
Proof.
  induction l as [|[k v] l IH]; intros acc d; [reflexivity|].
  cbn [fold_left rev]. rewrite IH, find_snoc.
  destruct (find (fun row => fst row =? d) (rev l)); [reflexivity|].
  cbn [fst snd].
  rewrite (dict_get_set Z.eqb Zeqb_sym Zeqb_trans).
  now destruct (k =? d).
Qed.

(** X21: [dataframe_to_dict] returns a dictionary in which each date of
    the table has the price of the last row with that date; a table whose
    dates are distinct comes back as its rows, in order. *)
Theorem dataframe_to_dict_lookup table :
  dict_wf (dataframe_to_dict table) /\
  (forall d,
     dict_get Z.eqb (dataframe_to_dict table) d =
     option_map snd (find (fun row => fst row =? d) (rev (rows table)))) /\
  (dict_wf (rows table) -> dataframe_to_dict table = rows table).
Proof.
  unfold dataframe_to_dict. split; [|split].
  - apply fold_left_invariant; [|constructor].
    intros acc row Hacc. now apply dict_set_wf.
  - intros d. rewrite fold_dict_set_get.
    now destruct (find _ _).
  - intros Hwf. now rewrite fold_dict_set_fresh.
Qed.

(* ================================================================== *)
(** ** Condition filter: the errors of the preprocessing *)

Lemma wrap_occurrence_error pattern condition ocurrence_index e :
  wrap_occurrence pattern condition ocurrence_index = Raise e ->
  e = IndexError.
Proof.
  unfold wrap_occurrence, nth_or_raise.
  destruct (nth_error (find_all pattern condition false) ocurrence_index);
    cbn [rbind]; [|intros H; now injection H as <-].
  destruct (nth_error (find_all pattern condition true) ocurrence_index);
    cbn [rbind]; [|intros H; now injection H as <-].
  destruct (py_find " " _ =? -1); discriminate.
Qed.

Lemma wrap_comparison_error level_type comparison_operator condition e :
  wrap_comparison level_type comparison_operator condition = Raise e ->
  e = IndexError.
Proof.
  unfold wrap_comparison, process_num_days_bw_tests.
  destruct (py_in _ condition); [|discriminate].
  match goal with
  | |- context [fold_left ?f ?l ?i] =>
      assert (Hinv : forall e', fold_left f l i = Raise e' -> e' = IndexError)
  end.
  { apply (fold_left_invariant
             (fun acc : result string =>
                forall e', acc = Raise e' -> e' = IndexError));
      [|discriminate].
    intros [c|e0] x Hacc e'; cbn [rbind].
    - apply wrap_occurrence_error.
    - exact (Hacc e'). }
  match goal with
  | |- context [fold_left ?f ?l ?i] => destruct (fold_left f l i) as [c|e0]
  end; cbn [rbind]; [discriminate|].
  intros H. injection H as <-. now apply Hinv.
Qed.

Lemma process_condition_error level_type condition e :
  process_condition level_type condition = Raise e ->
  e = ValueError \/ e = IndexError.
Proof.
  unfold process_condition. cbv zeta.
  match goal with
  | |- context [wrap_comparison _ ">=" ?c] => generalize c
  end.
  intros c0.
  destruct (wrap_comparison level_type ">=" c0) as [c1|e1] eqn:E1;
    cbn [rbind];
    [|intros H; injection H as <-; right;
      exact (wrap_comparison_error _ _ _ _ E1)].
  destruct (wrap_comparison level_type "<=" c1) as [c2|e2] eqn:E2;
    cbn [rbind];
    [|intros H; injection H as <-; right;
      exact (wrap_comparison_error _ _ _ _ E2)].
  destruct (wrap_comparison level_type "<" c2) as [c3|e3] eqn:E3;
    cbn [rbind];
    [|intros H; injection H as <-; right;
      exact (wrap_comparison_error _ _ _ _ E3)].
  destruct (wrap_comparison level_type ">" c3) as [c4|e4] eqn:E4;
    cbn [rbind];
    [|intros H; injection H as <-; right;
      exact (wrap_comparison_error _ _ _ _ E4)].
  repeat match goal with
         | |- context [if ?b then _ else _] => destruct b
         end;
    intros H; try discriminate H; injection H as <-; now left.
Qed.

(** X22: the only errors of [process_conditions] are the [ValueError] of a
    refused comparison and the [IndexError] of an occurrence that the
    rewriting of a comparison on [num_days_bw_tests] has itself removed;
    the [None] that [process_num_days_bw_tests] returns when the comparison
    is absent never reaches the tests that follow.  When it returns, it
    returns as many conditions as it was given. *)
Theorem process_conditions_errors level_type args :
  match process_conditions args level_type with
  | Ok conditions_list => length conditions_list = length args
  | Raise e => e = ValueError \/ e = IndexError
  end.
Proof.
  induction args as [|condition rest IH]; [reflexivity|].
  cbn [process_conditions].
  destruct (process_condition level_type condition) as [c|e] eqn:Ec;
    cbn [rbind]; [|exact (process_condition_error _ _ _ Ec)].
  destruct (process_conditions rest level_type) as [conditions_list|e];
    cbn [rbind]; [|exact IH].
  cbn [length]. now rewrite IH.
Qed.

Example process_conditions_index_error :
  process_conditions ["days_between >= days_between >= 3"%string] "support" =
  Raise IndexError.
Proof. vm_compute. reflexivity. Qed.

(* ================================================================== *)
(** ** Level validator: a level that holds *)

(** X23: a support is found valid and not broken exactly when no row of
    the table dated from its earliest touch on is priced below the mean of
    its touches minus the tolerance; a resistance, when none is priced
    above the mean plus the tolerance.  The rows that break a level and the
    rows that invalidate it are never the same rows. *)
Theorem level_holds_iff level table earliest latest avg_price tolerance :
  is_earliest earliest (keys (snd level)) ->
  is_latest latest (keys (snd level)) ->
  mean (values (snd level)) = Ok avg_price ->
  calculate_tolerance (values (rows table)) = Ok tolerance ->
  (exists valid breached breach_data,
     fst (is_support_valid level table) = Ok valid /\
     fst (is_support_broken level table) = Ok (breached, breach_data) /\
     (valid = true /\ breached = false <->
      forall row, In row (rows table) -> earliest <= fst row ->
        ~ (snd row < avg_price - inject_Z tolerance)%Q) /\
     (forall row, In row (rows breach_data) -> ~ fst row <= latest)) /\
  (exists valid breached breach_data,
     fst (is_resistance_valid level table) = Ok valid /\
     fst (is_resistance_broken level table) = Ok (breached, breach_data) /\
     (valid = true /\ breached = false <->
      forall row, In row (rows table) -> earliest <= fst row ->
        ~ (avg_price + inject_Z tolerance < snd row)%Q) /\
     (forall row, In row (rows breach_data) -> ~ fst row <= latest)).
Proof.
  intros He Hl Hm Ht. split.
  - rewrite (is_support_valid_run level table earliest latest avg_price
               tolerance He Hl Hm Ht).
    rewrite (is_support_broken_run level table latest avg_price tolerance
               Hl Hm Ht).
    cbv zeta. cbn [fst].
    eexists _, _, _. split; [reflexivity|]. split; [reflexivity|]. split.
    + rewrite empty_filter_iff.
      rewrite <- (negb_true_iff (if empty _ then false else true)).
      replace (negb (if empty
                          (mkDataFrame date_price
                             (filter (fun row => below avg_price tolerance row
                                                 && (latest <? fst row))
                                (rows table)))
                     then false else true))
        with (if empty
                   (mkDataFrame date_price
                      (filter (fun row => below avg_price tolerance row
                                          && (latest <? fst row))
                         (rows table)))
              then true else false)
        by (now destruct (empty _)).
      rewrite empty_filter_iff. unfold below. split.
      * intros [Hv Hb] row Hin Hdate Hlt.
        apply Qlt_bool_iff in Hlt. specialize (Hv row Hin).
        specialize (Hb row Hin). rewrite Hlt in Hv, Hb. cbn [andb] in Hv, Hb.
        destruct (Z.leb_spec earliest (fst row)); [|lia].
        destruct (Z.ltb_spec latest (fst row)); [discriminate|].
        destruct (Z.leb_spec (fst row) latest); [discriminate | lia].
      * intros H. split; intros row Hin;
          destruct (Qlt_bool (snd row) (avg_price - inject_Z tolerance))
            eqn:Hlt; try reflexivity; cbn [andb];
          apply Qlt_bool_iff in Hlt.
        -- destruct (Z.leb_spec earliest (fst row)); [|reflexivity].
           exfalso. now apply (H row Hin).
        -- destruct (Z.ltb_spec latest (fst row)); [|reflexivity].
           exfalso. apply (H row Hin); [|exact Hlt].
           destruct He as [Hin' _]. destruct Hl as [_ Hmax].
           specialize (Hmax earliest Hin'). lia.
    + cbn [rows]. intros row Hin. apply filter_In in Hin as [_ Hin].
      apply andb_true_iff in Hin as [_ Hin]. apply Z.ltb_lt in Hin. lia.
  - rewrite (is_resistance_valid_run level table earliest latest avg_price
               tolerance He Hl Hm Ht).
    rewrite (is_resistance_broken_run level table latest avg_price tolerance
               Hl Hm Ht).
    cbv zeta. cbn [fst].
    eexists _, _, _. split; [reflexivity|]. split; [reflexivity|]. split.
    + rewrite empty_filter_iff.
      rewrite <- (negb_true_iff (if empty _ then false else true)).
      replace (negb (if empty
                          (mkDataFrame date_price
                             (filter (fun row => above avg_price tolerance row
                                                 && (latest <? fst row))
                                (rows table)))
                     then false else true))
        with (if empty
                   (mkDataFrame date_price
                      (filter (fun row => above avg_price tolerance row
                                          && (latest <? fst row))
                         (rows table)))
              then true else false)
        by (now destruct (empty _)).
      rewrite empty_filter_iff. unfold above. split.
      * intros [Hv Hb] row Hin Hdate Hlt.
        apply Qlt_bool_iff in Hlt. specialize (Hv row Hin).
        specialize (Hb row Hin). rewrite Hlt in Hv, Hb. cbn [andb] in Hv, Hb.
        destruct (Z.leb_spec earliest (fst row)); [|lia].
        destruct (Z.ltb_spec latest (fst row)); [discriminate|].
        destruct (Z.leb_spec (fst row) latest); [discriminate | lia].
      * intros H. split; intros row Hin;
          destruct (Qlt_bool (avg_price + inject_Z tolerance) (snd row))
            eqn:Hlt; try reflexivity; cbn [andb];
          apply Qlt_bool_iff in Hlt.
        -- destruct (Z.leb_spec earliest (fst row)); [|reflexivity].
           exfalso. now apply (H row Hin).
        -- destruct (Z.ltb_spec latest (fst row)); [|reflexivity].
           exfalso. apply (H row Hin); [|exact Hlt].
           destruct He as [Hin' _]. destruct Hl as [_ Hmax].
           specialize (Hmax earliest Hin'). lia.
    + cbn [rows]. intros row Hin. apply filter_In in Hin as [_ Hin].
      apply andb_true_iff in Hin as [_ Hin]. apply Z.ltb_lt in Hin. lia.
Qed.

Lemma level_holds_iff_witness :
  (exists valid breached breach_data,
     fst (is_support_valid level1 table1) = Ok valid /\
     fst (is_support_broken level1 table1) = Ok (breached, breach_data) /\
     (valid = true /\ breached = false <->
      forall row, In row (rows table1) -> 0 <= fst row ->
        ~ (snd row < (301 # 3) - inject_Z 3)%Q) /\
     (forall row, In row (rows breach_data) -> ~ fst row <= 25)) /\
  (exists valid breached breach_data,
     fst (is_resistance_valid level1 table1) = Ok valid /\
     fst (is_resistance_broken level1 table1) = Ok (breached, breach_data) /\
     (valid = true /\ breached = false <->
      forall row, In row (rows table1) -> 0 <= fst row ->
        ~ ((301 # 3) + inject_Z 3 < snd row)%Q) /\
     (forall row, In row (rows breach_data) -> ~ fst row <= 25)).
Proof.
  apply (level_holds_iff level1 table1 0 25 (301 # 3) 3
           level1_earliest level1_latest); reflexivity.
Defined.

(* ================================================================== *)
(** ** Extremum finder: troughs and peaks *)

Lemma split_unique (l : list (Z * Q)) : forall a x b a' x' b',
  NoDup (keys l) ->
  l = a ++ x :: b -> l = a' ++ x' :: b' -> fst x = fst x' ->
  a = a' /\ x = x' /\ b = b'.
Proof.
  unfold keys. induction l as [|y l IH]; intros a x b a' x' b' Hnd E E' Hk.
  - destruct a; discriminate.
  - inversion Hnd as [|? ? Hy Hl]; subst.
    destruct a as [|z a], a' as [|z' a']; simpl in E, E'.
    + injection E as -> ->. injection E' as -> ->. auto.
    + injection E as -> ->. injection E' as -> E'.
      exfalso. apply Hy. rewrite E', map_app. apply in_or_app. right.
      simpl. left. now rewrite Hk.
    + injection E as -> E. injection E' as -> ->.
      exfalso. apply Hy. rewrite E, map_app. apply in_or_app. right.
      simpl. left. now rewrite Hk.
    + injection E as -> E. injection E' as -> E'.
      destruct (IH a x b a' x' b' Hl E E' Hk) as (-> & -> & ->). auto.
Qed.

Lemma centre_of_before shape shape' table d p p' :
  dict_wf table ->
  centre_of shape table d p -> centre_of shape' table d p' ->
  exists r1 r2 r4 r5 : Z * Q,
    shape (snd r1) (snd r2) p (snd r4) (snd r5) /\
    shape' (snd r1) (snd r2) p (snd r4) (snd r5) /\ p = p'.
Proof.
  intros Hwf (pre & r1 & r2 & r4 & r5 & post & E & Hs)
    (pre' & r1' & r2' & r4' & r5' & post' & E' & Hs').
  destruct (split_unique table (pre ++ [r1; r2]) (d, p) (r4 :: r5 :: post)
              (pre' ++ [r1'; r2']) (d, p') (r4' :: r5' :: post') Hwf)
    as (Hpre & Hrow & Hpost).
  - now rewrite <- app_assoc.
  - now rewrite <- app_assoc.
  - reflexivity.
  - injection Hrow as <-. injection Hpost as <- <- _.
    change [r1; r2] with ([r1] ++ [r2]) in Hpre.
    change [r1'; r2'] with ([r1'] ++ [r2']) in Hpre.
    rewrite !app_assoc in Hpre.
    apply app_inj_tail in Hpre as [Hpre <-].
    apply app_inj_tail in Hpre as [_ <-].
    exists r1, r2, r4, r5. auto.
Qed.

(** X24: on a table whose dates are distinct, no date is both a candidate
    of [find_supports] and a candidate of [find_resistances]. *)
Theorem find_extrema_disjoint table d :
  dict_wf table ->
  In d (keys (find_supports table)) ->
  ~ In d (keys (find_resistances table)).
Proof.
  intros Hwf Hs Hr. unfold keys in Hs, Hr.
  apply in_map_iff in Hs as ([d1 p] & Hd1 & Hs).
  apply in_map_iff in Hr as ([d2 p'] & Hd2 & Hr).
  cbn [fst] in Hd1, Hd2. subst d1 d2.
  apply find_supports_sound in Hs. apply find_resistances_sound in Hr.
  destruct (centre_of_before _ _ _ _ _ _ Hwf Hs Hr)
    as (r1 & r2 & r4 & r5 & Ht & Hp & _).
  destruct Ht as (_ & Hlt & _). destruct Hp as (_ & Hgt & _).
  exact (Qlt_irrefl _ (Qlt_trans _ _ _ Hlt Hgt)).
Qed.

Lemma find_extrema_disjoint_witness :
  ~ In 7 (keys (find_resistances descending_table)).
Proof.
  apply (find_extrema_disjoint descending_table 7).
  - unfold dict_wf, keys. simpl.
    repeat (constructor; [simpl; intuition discriminate|]). constructor.
  - vm_compute. auto.
Defined.


(* ================================================================== *)
(** ** Condition filter: ignoring the breach flag *)






(* ================================================================== *)
(** ** Level clusterer: what the removal of redundant groups keeps *)

Lemma subsequence_refl {A : Type} (l : list A) : subsequence l l.
Proof.
  induction l as [|x l IH]; [constructor | now apply subsequence_keep].
Qed.

Lemma subsequence_filter {A : Type} (f : A -> bool) l :
  subsequence (filter f l) l.
Proof.
  induction l as [|x l IH]; simpl; [constructor|].
  destruct (f x); [apply subsequence_keep | apply subsequence_skip]; exact IH.
Qed.

Lemma subsequence_trans {A : Type} (l1 l2 l3 : list A) :
  subsequence l1 l2 -> subsequence l2 l3 -> subsequence l1 l3.
Proof.
  intros H12 H23. revert l1 H12.
  induction H23 as [|x l2 l3 H23 IH|x l2 l3 H23 IH]; intros l1 H12.
  - exact H12.
  - constructor. now apply IH.
  - inversion H12; subst.
    + apply subsequence_skip. now apply IH.
    + apply subsequence_keep. now apply IH.
Qed.

Lemma subsequence_length {A : Type} (l1 l2 : list A) :
  subsequence l1 l2 -> (length l1 <= length l2)%nat.
Proof. induction 1; simpl; lia. Qed.

(** X26: on groups with distinct dates each, [remove_redundant_groups]
    returns its input with some groups left out, the others in their
    order, and never leaves out the first; its loop ends within as many
    turns as the input is long. *)
Theorem remove_redundant_groups_subsequence l :
  Forall group_wf l ->
  subsequence (remove_redundant_groups l) l /\
  (length (remove_redundant_groups l) <= length l)%nat /\
  hd_error (remove_redundant_groups l) = hd_error l /\
  (forall fuel, (length l <= fuel)%nat ->
     rrg_loop fuel 0 [] l = remove_redundant_groups l).
Proof.
  intros Hwf.
  assert (Hsub : subsequence (remove_redundant_groups l) l).
  { apply (remove_redundant_groups_closed (fun r => subsequence r l));
      [|exact Hwf|apply subsequence_refl].
    intros f r Hr. eapply subsequence_trans; [apply subsequence_filter|].
    exact Hr. }
  split; [exact Hsub|]. split; [now apply subsequence_length|].
  split; [apply (remove_redundant_groups_spec l Hwf)|].
  intros fuel. apply remove_redundant_groups_fuel.
Qed.

Lemma remove_redundant_groups_subsequence_witness :
  subsequence (remove_redundant_groups [gA; gB; gC]) [gA; gB; gC] /\
  (length (remove_redundant_groups [gA; gB; gC]) <= length [gA; gB; gC])%nat /\
  hd_error (remove_redundant_groups [gA; gB; gC]) = hd_error [gA; gB; gC] /\
  (forall fuel, (length [gA; gB; gC] <= fuel)%nat ->
     rrg_loop fuel 0 [] [gA; gB; gC] = remove_redundant_groups [gA; gB; gC]).
Proof.
  exact (remove_redundant_groups_subsequence [gA; gB; gC] chain_wf).
Defined.

(* ================================================================== *)
(** ** Level clusterer: the greedy removal *)

Lemma subsequence_in {A : Type} (l1 l2 : list A) x :
  subsequence l1 l2 -> In x l1 -> In x l2.
Proof.
  induction 1 as [|y l1 l2 _ IH|y l1 l2 _ IH]; intros Hx.
  - exact Hx.
  - right. now apply IH.
  - destruct Hx as [<- | Hx]; [now left | right; now apply IH].
Qed.

Lemma ForallOrdPairs_suffix {A : Type} (R : A -> A -> Prop) p l :
  ForallOrdPairs R (p ++ l) -> ForallOrdPairs R l.
Proof.
  induction p as [|x p IH]; intros H; [exact H|].
  simpl in H. inversion H; subst. now apply IH.
Qed.

Lemma settled_step p g1 s :
  Forall group_wf (p ++ g1 :: s) -> settled p (p ++ g1 :: s) ->
  settled (p ++ [g1]) ((p ++ [g1]) ++ keep_after g1 s).
Proof.
  intros Hwf Hset g y Hg Hy.
  pose proof Hwf as Hwf'. rewrite Forall_forall in Hwf'.
  assert (Hg1 : group_wf g1) by (apply Hwf', in_elt).
  assert (Hyl : In y (p ++ g1 :: s)).
  { rewrite <- app_assoc in Hy. simpl in Hy.
    apply in_app_or in Hy as [Hy|[Hy|Hy]]; apply in_or_app; simpl; auto.
    apply filter_In in Hy as [Hy _]. auto. }
  apply in_app_or in Hg as [Hg|[<-|[]]]; [now apply Hset|].
  rewrite <- app_assoc in Hy. simpl in Hy.
  apply in_app_or in Hy as [Hy|[<-|Hy]].
  - rewrite redundant_with_sym; [|exact Hg1|apply Hwf'; exact Hyl].
    apply Hset; [exact Hy | apply in_elt].
  - now apply redundant_with_refl.
  - apply filter_In in Hy as [_ Hy]. now apply negb_true_iff in Hy.
Qed.

(** The loop keeps the groups one by one: a group of [s] is kept when it
    shares fewer than two dates with every group kept before it, and left
    out when it shares two dates or more with one of them. *)
Lemma sieve_loop_greedy fuel : forall p s,
  Forall group_wf (p ++ s) -> duplicate_free (p ++ s) ->
  settled p (p ++ s) -> (length s <= fuel)%nat ->
  exists t,
    sieve_loop fuel (length p) (p ++ s) = p ++ t /\
    subsequence t s /\
    forall pre g2 post, s = pre ++ g2 :: post ->
      (In g2 t /\
       forall g1, In g1 pre -> In g1 t ->
         at_least_2_common (snd g1) (snd g2) = false) \/
      (~ In g2 t /\
       exists g1, In g1 pre /\ In g1 t /\
         at_least_2_common (snd g1) (snd g2) = true).
Proof.
  induction fuel as [|fuel IH]; intros p s Hwf Hdf Hset Hlen.
  - destruct s; [|simpl in Hlen; lia]. exists []. rewrite app_nil_r.
    split; [reflexivity|]. split; [constructor|].
    intros pre g2 post E. destruct pre; discriminate E.
  - simpl. destruct s as [|g1 s].
    + rewrite app_nil_r in *.
      replace (nth_error p (length p)) with (@None (Z * list (Z * Q)))
        by (symmetry; apply nth_error_None; lia).
      exists []. rewrite app_nil_r.
      split; [reflexivity|]. split; [constructor|].
      intros pre g2 post E. destruct pre; discriminate E.
    + rewrite nth_error_app2, Nat.sub_diag by lia. simpl.
      rewrite (keep_after_split p g1 s Hwf Hset).
      replace (S (length p)) with (length (p ++ [g1]))
        by (rewrite length_app; simpl; lia).
      pose proof Hwf as Hwf'. rewrite Forall_forall in Hwf'.
      assert (Hg1 : group_wf g1) by (apply Hwf', in_elt).
      destruct (IH (p ++ [g1]) (keep_after g1 s))
        as (t & Heq & Hsub & Hchar).
      * rewrite <- keep_after_split by assumption. now apply keep_after_wf.
      * rewrite <- keep_after_split by assumption.
        unfold keep_after. now apply ForallOrdPairs_filter.
      * now apply settled_step.
      * etransitivity; [apply filter_length_le|]. simpl in Hlen. lia.
      * exists (g1 :: t).
        replace (p ++ g1 :: t) with ((p ++ [g1]) ++ t)
          by now rewrite <- app_assoc.
        split; [exact Heq|].
        assert (Hkept : forall y, In y t -> redundant_with g1 y = false).
        { intros y Hy. apply (subsequence_in _ _ _ Hsub) in Hy.
          apply filter_In in Hy as [_ Hy]. now apply negb_true_iff in Hy. }
        split.
        { apply subsequence_keep.
          eapply subsequence_trans; [exact Hsub|]. apply subsequence_filter. }
        intros pre g2 post E. destruct pre as [|x pre]; simpl in E.
        { injection E as <- _. left. split; [now left|]. intros g []. }
        injection E as <- E.
        assert (Heqb : group_eqb g1 g2 = false).
        { apply ForallOrdPairs_suffix in Hdf.
          inversion Hdf as [|? ? Hall _]; subst.
          rewrite Forall_forall in Hall. apply Hall. apply in_elt. }
        assert (Hneq : g1 <> g2).
        { intros ->. rewrite group_eqb_refl in Heqb; [discriminate|].
          apply Hwf'. apply in_or_app. right. now left. }
        assert (Hov : at_least_2_common (snd g1) (snd g2) =
                      redundant_with g1 g2).
        { unfold redundant_with. now rewrite Heqb. }
        destruct (redundant_with g1 g2) eqn:Er.
        { right. split.
          - intros [H|H]; [contradiction|].
            rewrite (Hkept g2 H) in Er. discriminate.
          - exists g1. split; [now left|]. split; [now left | exact Hov]. }
        assert (Esplit : keep_after g1 s =
                         keep_after g1 pre ++ g2 :: keep_after g1 post).
        { rewrite E. unfold keep_after. rewrite filter_app. simpl.
          now rewrite Er. }
        destruct (Hchar _ _ _ Esplit)
          as [[Hin Hall] | [Hnot (y & Hy & Hyt & Hyov)]].
        { left. split; [now right|].
          intros g Hg Hgt. destruct Hg as [<- | Hg]; [exact Hov|].
          destruct Hgt as [<- | Hgt]; [exact Hov|].
          apply Hall; [|exact Hgt].
          apply filter_In. split; [exact Hg|].
          now rewrite (Hkept g Hgt). }
        { right. split.
          - intros [H|H]; [contradiction | now apply Hnot].
          - exists y. split; [|split; [now right | exact Hyov]].
            right. now apply filter_In in Hy as [Hy _]. }
Qed.

(** C1, amended: on a duplicate-free list (sorted or not) the removal is
    greedy.  The result is the input with some groups left out, the others
    in their order, and a group is left out exactly when it shares two
    touch dates or more with a group that stands before it in the input
    and is itself retained: an earlier group that was left out removes
    nothing.  So no two distinct groups of the result share two touch
    dates or more, and the first group is always retained. *)
Theorem remove_redundant_groups_greedy l :
  Forall group_wf l -> duplicate_free l ->
  let r := remove_redundant_groups l in
  subsequence r l /\
  (forall pre g2 post, l = pre ++ g2 :: post ->
     (In g2 r <->
      forall g1, In g1 pre -> In g1 r ->
        at_least_2_common (snd g1) (snd g2) = false) /\
     (~ In g2 r <->
      exists g1, In g1 pre /\ In g1 r /\
        at_least_2_common (snd g1) (snd g2) = true)) /\
  (forall g1 g2, In g1 r -> In g2 r -> g1 <> g2 ->
     at_least_2_common (snd g1) (snd g2) = false) /\
  hd_error r = hd_error l.
Proof.
  intros Hwf Hdf r.
  destruct (remove_redundant_groups_spec l Hwf) as (Hst & Hincl & _ & Hhd).
  fold r in Hst, Hincl, Hhd.
  assert (Hgreedy : exists t,
            r = t /\ subsequence t l /\
            forall pre g2 post, l = pre ++ g2 :: post ->
              (In g2 t /\
               forall g1, In g1 pre -> In g1 t ->
                 at_least_2_common (snd g1) (snd g2) = false) \/
              (~ In g2 t /\
               exists g1, In g1 pre /\ In g1 t /\
                 at_least_2_common (snd g1) (snd g2) = true)).
  { subst r. unfold remove_redundant_groups.
    rewrite rrg_loop_sieve; [|exact Hwf|intros x y []].
    destruct (sieve_loop_greedy (length l) [] l Hwf Hdf) as (t & Heq & H).
    - intros g y [].
    - lia.
    - exists t. split; [exact Heq | exact H]. }
  destruct Hgreedy as (t & <- & Hsub & Hchar).
  split; [exact Hsub|]. split; [|split; [|exact Hhd]].
  - intros pre g2 post E.
    destruct (Hchar pre g2 post E)
      as [[Hin Hall] | [Hnot (y & Hy & Hyr & Hyov)]].
    + split; split.
      * intros _. exact Hall.
      * intros _. exact Hin.
      * intros H. contradiction.
      * intros (g1 & Hg1 & Hg1r & Hov).
        rewrite (Hall g1 Hg1 Hg1r) in Hov. discriminate.
    + split; split.
      * intros H. contradiction.
      * intros Hall. rewrite (Hall y Hy Hyr) in Hyov. discriminate.
      * intros _. exists y. auto.
      * intros _. exact Hnot.
  - pose proof Hwf as Hwf'. rewrite Forall_forall in Hwf'.
    assert (Hne : forall a b, In a r -> In b r -> group_eqb a b = false ->
                  at_least_2_common (snd a) (snd b) = false).
    { intros a b Ha Hb Hab. specialize (Hst a b Ha Hb).
      unfold redundant_with in Hst. now rewrite Hab in Hst. }
    intros g1 g2 H1 H2 Hneq.
    destruct (ForallOrdPairs_In Hdf g1 g2 (Hincl _ H1) (Hincl _ H2))
      as [E|[E|E]]; [contradiction| |].
    + now apply Hne.
    + apply Hne; trivial. rewrite group_eqb_sym_eq; auto.
Qed.

Lemma remove_redundant_groups_greedy_witness :
  let l := [gA; gB; gC] in
  let r := remove_redundant_groups l in
  subsequence r l /\
  (forall pre g2 post, l = pre ++ g2 :: post ->
     (In g2 r <->
      forall g1, In g1 pre -> In g1 r ->
        at_least_2_common (snd g1) (snd g2) = false) /\
     (~ In g2 r <->
      exists g1, In g1 pre /\ In g1 r /\
        at_least_2_common (snd g1) (snd g2) = true)) /\
  (forall g1 g2, In g1 r -> In g2 r -> g1 <> g2 ->
     at_least_2_common (snd g1) (snd g2) = false) /\
  hd_error r = hd_error l.
Proof.
  exact (remove_redundant_groups_greedy [gA; gB; gC]
           chain_wf chain_duplicate_free).
Defined.
